(** * Symbol extraction and cross-reference linking of the knowledge base

    A shallow embedding of [src/knowledge_base/code_parser.py] and of the
    graph half of [src/knowledge_base/graph_db_manager.py].

    - The tree-sitter syntax tree is a rose tree of [Node]s; each node
      carries what the code reads from it: [type], the text of its byte
      range, its start and end points, whether it is a named node, and the
      field under which it hangs in its parent.
    - Python values that may be [None] are [option]s; an f-string renders
      [None] as the text "None" ([render]).
    - A Python [dict] is an association list without repeated keys that
      keeps insertion order ([dict_set], [dict_get]), because the linker
      iterates over [.items()].
    - The graph store is reached through [merge_node] and
      [merge_relationship]; a run records the calls it makes as [Upsert]s,
      and every call hands its query to the driver, which returns or
      raises ([Driver]). *)

From Stdlib Require Import String Ascii List Bool Arith NArith Lia
  DecimalString.
Import ListNotations.
Open Scope string_scope.
Open Scope list_scope.

Set Implicit Arguments.

(** ** Python strings *)

Module PyStr.

(** [s.startswith(p)] *)
Fixpoint startswith (p s : string) : bool :=
  match p, s with
  | EmptyString, _ => true
  | String a p', String b s' => Ascii.eqb a b && startswith p' s'
  | String _ _, EmptyString => false
  end.

(** [sub in s] *)
Fixpoint contains (sub s : string) : bool :=
  startswith sub s ||
  match s with
  | EmptyString => false
  | String _ s' => contains sub s'
  end.

Definition dot : ascii := "."%char.

(** [s.split(".")] *)
Fixpoint split_dot (s : string) : list string :=
  match s with
  | EmptyString => [EmptyString]
  | String c r =>
      if Ascii.eqb c dot then EmptyString :: split_dot r
      else match split_dot r with
           | h :: t => String c h :: t
           | [] => [String c EmptyString]
           end
  end.

(** [s.split(".", 1)] *)
Fixpoint split_dot_1 (s : string) : list string :=
  match s with
  | EmptyString => [EmptyString]
  | String c r =>
      if Ascii.eqb c dot then [EmptyString; r]
      else match split_dot_1 r with
           | h :: t => String c h :: t
           | [] => [String c EmptyString]
           end
  end.

(** How an f-string shows a value that may be [None]. *)
Definition render (o : option string) : string :=
  match o with
  | Some s => s
  | None => "None"
  end.

(** Truth value of a value that is [None] or a [str]. *)
Definition truthy (o : option string) : bool :=
  match o with
  | Some s => negb (String.eqb s "")
  | None => false
  end.

(** [os.path.basename] for POSIX paths: what follows the last slash. *)
Fixpoint basename (p : string) : string :=
  match p with
  | EmptyString => EmptyString
  | String c r =>
      if contains "/" r then basename r
      else if Ascii.eqb c "/"%char then r else p
  end.

End PyStr.
Import PyStr.

Definition key_dec : forall a b : option string, {a = b} + {a <> b}.
Proof. decide equality; apply string_dec. Defined.

(** ** Python dictionaries, insertion ordered *)

Section Dict.
Variables K V : Type.
Variable K_dec : forall a b : K, {a = b} + {a <> b}.

Definition dict := list (K * V).

(** [d.get(k)] *)
Fixpoint dict_get (k : K) (d : dict) : option V :=
  match d with
  | [] => None
  | (k', v) :: r => if K_dec k k' then Some v else dict_get k r
  end.

(** [d[k] = v]: an existing key keeps its place, a new one goes last. *)
Fixpoint dict_set (k : K) (v : V) (d : dict) : dict :=
  match d with
  | [] => [(k, v)]
  | (k', v') :: r =>
      if K_dec k k' then (k, v) :: r else (k', v') :: dict_set k v r
  end.

Definition dict_keys (d : dict) : list K := map fst d.

(** [d.get(k, default)] *)
Definition dict_get_default (k : K) (default : V) (d : dict) : V :=
  match dict_get k d with
  | Some v => v
  | None => default
  end.

(** [d[k] = v] for a list of pairs, one after the other. *)
Definition store_all (l : list (K * V)) (d : dict) : dict :=
  fold_left (fun d e => dict_set (fst e) (snd e) d) l d.
End Dict.

Arguments dict_get {K V} K_dec k d.
Arguments dict_set {K V} K_dec k v d.
Arguments dict_keys {K V} d.
Arguments dict_get_default {K V} K_dec k default d.
Arguments store_all {K V} K_dec l d.

(** ** Syntax trees *)

Unset Elimination Schemes.
Inductive Node : Type := mkNode {
  type : string;
  is_named : bool;
  field : option string;
  text : string;
  start_point : nat * nat;
  end_point : nat * nat;
  children : list Node
}.
Set Elimination Schemes.

(** [node.child_by_field_name(name)] *)
Definition child_by_field_name (node : Node) (name : string) : option Node :=
  find (fun c => match field c with
                 | Some f => String.eqb f name
                 | None => false
                 end) (children node).

(** [node.named_children] *)
Definition named_children (node : Node) : list Node :=
  filter is_named (children node).

(** [get_node_text] of the closure: the text of the node's byte range. *)
Definition get_node_text (node : Node) : string := text node.

(** [get_node_text_safe]: [None] when there is no node. *)
Definition get_node_text_safe (node : option Node) : option string :=
  option_map get_node_text node.

(** Induction over a tree and the trees below it. *)
Section NodeInd.
Variable P : Node -> Prop.
Hypothesis step : forall n, Forall P (children n) -> P n.

Fixpoint Node_induction (n : Node) : P n :=
  step n
    ((fix go (l : list Node) : Forall P l :=
        match l with
        | [] => Forall_nil P
        | c :: r => Forall_cons c (Node_induction c) (go r)
        end) (children n)).
End NodeInd.

(** ** The per-file symbol record *)

Record FunctionSymbol : Type := mkFunctionSymbol {
  func_name : option string;
  func_lineno : nat;
  func_col_offset : nat;
  func_end_lineno : nat;
  func_end_col_offset : nat;
  func_code_snippet : string;
  func_is_static : bool
}.

Record ClassSymbol : Type := mkClassSymbol {
  cls_name : option string;
  cls_lineno : nat;
  cls_col_offset : nat;
  cls_end_lineno : nat;
  cls_end_col_offset : nat;
  cls_code_snippet : string;
  cls_bases : list string;
  cls_attributes : list string
}.

Record FileSymbols : Type := mkFileSymbols {
  functions : list FunctionSymbol;
  classes : list ClassSymbol;
  imports : list (option string);
  calls : dict (option string) (list string);
  aliases : dict (option string) (option string)
}.

(** The dictionary [file_symbols] of a fresh call. *)
Definition empty_file_symbols : FileSymbols :=
  mkFileSymbols [] [] [] [] [].

(** The two cells the closures of [extract_symbols_from_code] share. *)
Record State : Type := mkState {
  current_class : option string;
  file_symbols : FileSymbols
}.

Definition set_current_class (c : option string) (st : State) : State :=
  mkState c (file_symbols st).

Definition on_symbols (f : FileSymbols -> FileSymbols) (st : State) : State :=
  mkState (current_class st) (f (file_symbols st)).

Definition append_function (f : FunctionSymbol) (fs : FileSymbols) :=
  mkFileSymbols (functions fs ++ [f]) (classes fs) (imports fs)
                (calls fs) (aliases fs).

Definition append_class (c : ClassSymbol) (fs : FileSymbols) :=
  mkFileSymbols (functions fs) (classes fs ++ [c]) (imports fs)
                (calls fs) (aliases fs).

Definition append_import (m : option string) (fs : FileSymbols) :=
  mkFileSymbols (functions fs) (classes fs) (imports fs ++ [m])
                (calls fs) (aliases fs).

Definition store_calls (k : option string) (l : list string)
    (fs : FileSymbols) :=
  mkFileSymbols (functions fs) (classes fs) (imports fs)
                (dict_set key_dec k l (calls fs)) (aliases fs).

Definition store_alias (a m : option string) (fs : FileSymbols) :=
  mkFileSymbols (functions fs) (classes fs) (imports fs)
                (calls fs) (dict_set key_dec a m (aliases fs)).

(** ** [extract_symbols_from_code] *)

(** The text [find_calls] appends for a callee text. *)
Definition recorded_callee (current_class : option string)
    (func_text : string) : string :=
  if startswith "self." func_text && truthy current_class
  then
    let method_name := nth 1 (split_dot_1 func_text) "" in
    (render current_class ++ "." ++ method_name)%string
  else func_text.

Fixpoint find_calls (node : Node) (call_list : list string)
    (current_class : option string) : list string :=
  let call_list :=
    if type node =? "call" then
      match child_by_field_name node "function" with
      | Some func_node =>
          call_list ++ [recorded_callee current_class (get_node_text func_node)]
      | None => call_list
      end
    else call_list in
  fold_left (fun l child => find_calls child l current_class)
            (children node) call_list.

(** One child of an [import_statement]. *)
Definition visit_import_child (st : State) (child : Node) : State :=
  if type child =? "aliased_import" then
    let mod_ := get_node_text_safe (child_by_field_name child "name") in
    let alias := get_node_text_safe (child_by_field_name child "alias") in
    on_symbols (fun fs => append_import mod_ (store_alias alias mod_ fs)) st
  else if type child =? "dotted_name" then
    on_symbols (append_import (Some (get_node_text child))) st
  else st.

Definition visit_import_from (node : Node) (st : State) : State :=
  match child_by_field_name node "module" with
  | Some module_node =>
      let mod_ := Some (get_node_text module_node) in
      let st := on_symbols (append_import mod_) st in
      match child_by_field_name node "alias" with
      | Some alias_node =>
          on_symbols (store_alias (Some (get_node_text alias_node)) mod_) st
      | None => st
      end
  | None => st
  end.

(** The base-class texts one child of a class node contributes. *)
Definition bases_of_child (child : Node) : list string :=
  if type child =? "argument_list" then
    map get_node_text
        (filter (fun arg => (type arg =? "identifier")
                            || (type arg =? "dotted_name"))
                (named_children child))
  else [].

(** The attribute names one child of a class node contributes. *)
Definition attrs_of_child (child : Node) : list string :=
  if type child =? "expression_statement" then
    match children child with
    | assignment :: _ =>
        if type assignment =? "assignment" then
          match child_by_field_name assignment "left" with
          | Some left_node => [get_node_text left_node]
          | None => []
          end
        else []
    | [] => []
    end
  else [].

Definition visit_class (node : Node) (st : State) : State :=
  let class_name := get_node_text_safe (child_by_field_name node "name") in
  let st := set_current_class class_name st in
  let bases := flat_map bases_of_child (named_children node) in
  let attrs := flat_map attrs_of_child (named_children node) in
  on_symbols
    (append_class
       (mkClassSymbol class_name
          (fst (start_point node) + 1) (snd (start_point node))
          (fst (end_point node) + 1) (snd (end_point node))
          (get_node_text node) bases attrs)) st.

(** [qualified_name] of a function definition. *)
Definition qualify (current_class func_name : option string)
    : option string :=
  if truthy current_class
  then Some (render current_class ++ "." ++ render func_name)%string
  else func_name.

Definition visit_function (node : Node) (st : State) : State :=
  let func_name := get_node_text_safe (child_by_field_name node "name") in
  let qualified_name := qualify (current_class st) func_name in
  let is_static :=
    existsb (fun dec => (type dec =? "decorator")
                        && contains "staticmethod" (get_node_text dec))
            (children node) in
  let call_list := find_calls node [] (current_class st) in
  on_symbols
    (fun fs =>
       store_calls qualified_name call_list
         (append_function
            (mkFunctionSymbol qualified_name
               (fst (start_point node) + 1) (snd (start_point node))
               (fst (end_point node) + 1) (snd (end_point node))
               (get_node_text node) is_static) fs)) st.

(** What [traverse] does at a node before it descends. *)
Definition visit (node : Node) (st : State) : State :=
  if type node =? "import_statement" then
    fold_left visit_import_child (named_children node) st
  else if type node =? "import_from_statement" then
    visit_import_from node st
  else if type node =? "class_definition" then
    visit_class node st
  else if type node =? "function_definition" then
    visit_function node st
  else st.

Fixpoint traverse (node : Node) (st : State) : State :=
  let st := visit node st in
  let st := fold_left (fun s child => traverse child s) (children node) st in
  if type node =? "class_definition" then set_current_class None st else st.

(** What calling something that may raise gives back. *)
Inductive Outcome (A : Type) : Type :=
| Returned (a : A)
| Raised (e : string).
Arguments Returned {A} a.
Arguments Raised {A} e.

(** [traverse(root_node)] from the fresh cells, then [return file_symbols]. *)
Definition symbols_of (root_node : Node) : FileSymbols :=
  file_symbols (traverse root_node (mkState None empty_file_symbols)).

Section Extraction.
(** [parser.parse(code.encode("utf8")).root_node] of the tree-sitter
    library, or the exception that stops the extraction of this text. *)
Variable parse : string -> Outcome Node.

Definition extract_symbols_from_code (code : string)
    : Outcome FileSymbols :=
  match parse code with
  | Returned root_node => Returned (symbols_of root_node)
  | Raised e => Raised e
  end.
End Extraction.

(** ** [detect_design_patterns] *)

Record PatternEntry : Type := mkPatternEntry {
  pattern : string;
  pattern_class : option string;
  role : string
}.

Definition singleton_entry (cls : ClassSymbol) : PatternEntry :=
  mkPatternEntry "Singleton" (cls_name cls) "Singleton".

Definition detect_design_patterns (filepath : string)
    (code_symbols : FileSymbols) : list PatternEntry :=
  fold_left
    (fun patterns cls =>
       let cls_code := cls_code_snippet cls in
       if contains "__new__" cls_code && contains "cls._instance" cls_code
       then patterns ++ [singleton_entry cls]
       else patterns)
    (classes code_symbols) [].

(** ** [get_repo_structure_at_commit] and [build_code_symbol_graph_data] *)

(** [s.endswith(suffix)] *)
Fixpoint endswith (suffix s : string) : bool :=
  String.eqb s suffix ||
  match s with
  | EmptyString => false
  | String _ r => endswith suffix r
  end.

(** The objects of a commit's tree, as the git library hands them over:
    a tree with its items in the order it stores them, a blob with its
    decoded content (or the exception reading it raises), or anything
    else (a submodule). *)
Unset Elimination Schemes.
Inductive GitItem : Type :=
| GitTree (name : string) (items : list GitItem)
| GitBlob (name : string) (data : Outcome string) (hexsha : string)
| GitOther (name : string).
Set Elimination Schemes.

(** A repository, as far as the code uses one:
    [repo.commit(commit_hash).tree] gives the items of the root tree of
    the commit, or raises. *)
Record Repo : Type := mkRepo {
  commit_tree : string -> Outcome (list GitItem)
}.

(** One entry of [python_files]: path, content, blob hash. *)
Definition FileEntry : Type := string * string * string.

(** What a run leaves on standard output. *)
Definition Stdout : Type := list string.

Definition string_of_nat (n : nat) : string :=
  NilEmpty.string_of_uint (Nat.to_uint n).

Section Repository.
(** [os.path.join] and [os.path.normpath] of the platform. *)
Variable os_path_join : string -> string -> string.
Variable os_path_normpath : string -> string.
(** [git.Repo(repo_path)]: the repository, or the exception opening it
    raises. *)
Variable git_Repo : string -> Outcome Repo.
Variable parse : string -> Outcome Node.

(** The body of the loop of [walk_tree], on the pair of cells
    [file_contents] and standard output. *)
Fixpoint walk_item (prefix : string) (acc : list FileEntry * Stdout)
    (item : GitItem) : list FileEntry * Stdout :=
  match item with
  | GitTree name items =>
      let current_path := os_path_join prefix name in
      fold_left (walk_item current_path) items acc
  | GitBlob name data hexsha =>
      let current_path := os_path_join prefix name in
      if endswith ".py" name then
        match data with
        | Returned content =>
            (fst acc ++ [(os_path_normpath current_path, content, hexsha)],
             snd acc)
        | Raised e =>
            (fst acc,
             snd acc ++ ["Error decoding " ++ current_path ++ ": " ++ e]%string)
        end
      else acc
  | GitOther _ => acc
  end.

Definition walk_tree (tree_obj : list GitItem) (prefix : string)
    (acc : list FileEntry * Stdout) : list FileEntry * Stdout :=
  fold_left (walk_item prefix) tree_obj acc.

(** The list returned and the lines printed; opening the repository is
    not inside the [try] and may raise. *)
Definition get_repo_structure_at_commit (repo_path commit_hash : string)
    : Outcome (list FileEntry * Stdout) :=
  match git_Repo repo_path with
  | Returned repo =>
      match commit_tree repo commit_hash with
      | Returned tree => Returned (walk_tree tree "" ([], []))
      | Raised e =>
          Returned ([], ["Error retrieving structure at commit "
                         ++ commit_hash ++ ": " ++ e]%string)
      end
  | Raised e => Raised e
  end.

(** What [build_code_symbol_graph_data] returns, and what it printed. *)
Record Index : Type := mkIndex {
  code_graph_data : dict string FileSymbols;
  symbol_table : dict (option string) string;
  all_patterns : dict string (list PatternEntry);
  stdout : Stdout
}.

(** [symbol_table[s['name']] = f"{relative_filepath}::{s['name']}"] *)
Definition register (relative_filepath : string)
    (table : dict (option string) string) (name : option string) :=
  dict_set key_dec name (relative_filepath ++ "::" ++ render name)%string
           table.

(** The body of the [for] loop over [python_files]. *)
Definition index_file (ix : Index) (file : FileEntry) : Index :=
  let '(relative_filepath, file_content, _) := file in
  match extract_symbols_from_code parse file_content with
  | Returned symbols =>
      let patterns := detect_design_patterns relative_filepath symbols in
      let table := fold_left (register relative_filepath)
                             (map func_name (functions symbols))
                             (symbol_table ix) in
      let table := fold_left (register relative_filepath)
                             (map cls_name (classes symbols)) table in
      mkIndex
        (dict_set string_dec relative_filepath symbols (code_graph_data ix))
        table
        (dict_set string_dec relative_filepath patterns (all_patterns ix))
        (stdout ix)
  | Raised e =>
      mkIndex (code_graph_data ix) (symbol_table ix) (all_patterns ix)
        (stdout ix
         ++ ["Error parsing " ++ relative_filepath ++ ": " ++ e]%string)
  end.

(** The loop of [build_code_symbol_graph_data] over [python_files]. *)
Definition index_files (python_files : list FileEntry) (ix : Index)
    : Index :=
  fold_left index_file python_files ix.

Definition build_code_symbol_graph_data (repo_path : string)
    (commit_hash : option string) : Outcome Index :=
  let listing :=
    match commit_hash with
    | Some h =>
        if truthy commit_hash then get_repo_structure_at_commit repo_path h
        else Returned ([], [])
    | None => Returned ([], [])
    end in
  match listing with
  | Returned (python_files, out) =>
      let out :=
        out ++ ["Parsing " ++ string_of_nat (List.length python_files)
                ++ " Python files using Tree-sitter..."]%string in
      Returned (index_files python_files (mkIndex [] [] [] out))
  | Raised e => Raised e
  end.
End Repository.

(** ** The graph store, and [populate_graph_from_code_data] *)

Inductive PyVal : Type :=
| VNone
| VStr (s : string)
| VInt (n : nat)
| VBool (b : bool).

Definition VOpt (o : option string) : PyVal :=
  match o with
  | Some s => VStr s
  | None => VNone
  end.

(** A call of [merge_node] or of [merge_relationship], with its arguments. *)
Inductive Upsert : Type :=
| merge_node (label : string) (properties : list (string * PyVal))
    (unique_key : string)
| merge_relationship (node1_label node1_unique_key : string)
    (node1_unique_val : PyVal) (rel_type : string)
    (node2_label node2_unique_key : string) (node2_unique_val : PyVal)
    (rel_properties : list (string * PyVal)).

(** The Cypher text and the parameters [_execute_query] is called with. *)
Inductive QueryParam : Type :=
| PVal (v : PyVal)
| PProps (props : list (string * PyVal)).

Definition Query : Type := string * list (string * QueryParam).

(** What [merge_node] and [merge_relationship] build before they call
    [_execute_query]; [properties[unique_key]] raises for a missing key. *)
Definition cypher (u : Upsert) : Outcome Query :=
  match u with
  | merge_node label properties unique_key =>
      match dict_get string_dec unique_key properties with
      | Some unique_val =>
          Returned
            (("MERGE (n:" ++ label ++ " {" ++ unique_key ++ ": $unique_val}) "
              ++ "ON CREATE SET n = $props "
              ++ "ON MATCH SET n += $props "
              ++ "RETURN n")%string,
             [("props", PProps properties); ("unique_val", PVal unique_val)])
      | None => Raised "KeyError"
      end
  | merge_relationship node1_label node1_unique_key node1_unique_val rel_type
      node2_label node2_unique_key node2_unique_val rel_properties =>
      Returned
        (("MATCH (a:" ++ node1_label ++ " {" ++ node1_unique_key
          ++ ": $val1}), "
          ++ "(b:" ++ node2_label ++ " {" ++ node2_unique_key ++ ": $val2}) "
          ++ "MERGE (a)-[r:" ++ rel_type ++ "]->(b) "
          ++ "ON CREATE SET r = $rel_props "
          ++ "ON MATCH SET r += $rel_props "
          ++ "RETURN r")%string,
         [("val1", PVal node1_unique_val);
          ("val2", PVal node2_unique_val);
          ("rel_props", PProps rel_properties)])
  end.

(** The Neo4j driver behind [_execute_query], as one run meets it: after
    the calls of [merge_node] and [merge_relationship] made so far,
    running a query returns or raises.  [_execute_query] has no handler,
    and neither have its callers. *)
Definition Driver : Type := list Upsert -> Query -> Outcome unit.

(** A computation that calls the store and then returns or raises.  It
    is given the calls made before it and gives the calls it makes, in
    order, the last of which may be the one that raised. *)
Module Run.
Definition t (A : Type) : Type := list Upsert -> list Upsert * Outcome A.

Definition ret {A} (a : A) : t A := fun _ => ([], Returned a).
Definition raise {A} (e : string) : t A := fun _ => ([], Raised e).

(** One call of [merge_node] or [merge_relationship]: the query is built
    and handed to [_execute_query]; what that returns is dropped. *)
Definition emit (driver : Driver) (u : Upsert) : t unit :=
  fun before =>
    ([u], match cypher u with
          | Returned query => driver before query
          | Raised e => Raised e
          end).

Definition bind {A B} (m : t A) (k : A -> t B) : t B :=
  fun before =>
    let first := m before in
    match snd first with
    | Returned a =>
        let rest := k a (before ++ fst first) in
        (fst first ++ fst rest, snd rest)
    | Raised e => (fst first, Raised e)
    end.

(** [for x in l: body(x)] *)
Fixpoint for_each {A} (l : list A) (body : A -> t unit) : t unit :=
  match l with
  | [] => ret tt
  | x :: r => bind (body x) (fun _ => for_each r body)
  end.

(** [if c: body] *)
Definition when (c : bool) (body : t unit) : t unit :=
  if c then body else ret tt.

Definition issued {A} (m : t A) (before : list Upsert) : list Upsert :=
  fst (m before).
Definition outcome {A} (m : t A) (before : list Upsert) : Outcome A :=
  snd (m before).
End Run.

Notation "m ;; k" := (Run.bind m (fun _ => k))
  (at level 61, right associativity).
Notation "x <- m ;; k" := (Run.bind m (fun x => k))
  (at level 61, m at next level, right associativity).

Section Linker.
Variable driver : Driver.
Variable symbol_table : dict (option string) string.

(** [symbol_table.get(name)] *)
Definition lookup (name : string) : option string :=
  dict_get key_dec (Some name) symbol_table.

Definition function_node (filepath : string) (func : FunctionSymbol)
    : Run.t unit :=
  let func_id := (filepath ++ "::" ++ render (func_name func))%string in
  Run.emit driver
    (merge_node "Function"
       [("id", VStr func_id);
        ("name", VOpt (func_name func));
        ("lineno", VInt (func_lineno func));
        ("end_lineno", VInt (func_end_lineno func));
        ("file_path", VStr filepath);
        ("code_snippet", VStr (func_code_snippet func));
        ("is_static", VBool (func_is_static func))] "id") ;;
  Run.emit driver
    (merge_relationship "File" "path" (VStr filepath)
       "CONTAINS_FUNCTION" "Function" "id" (VStr func_id) []).

Definition attribute_node (filepath cls_id attr : string) : Run.t unit :=
  let attr_id := (cls_id ++ "::" ++ attr)%string in
  Run.emit driver
    (merge_node "Attribute"
       [("id", VStr attr_id);
        ("name", VStr attr);
        ("class_id", VStr cls_id);
        ("file_path", VStr filepath)] "id") ;;
  Run.emit driver
    (merge_relationship "Class" "id" (VStr cls_id)
       "HAS_ATTRIBUTE" "Attribute" "id" (VStr attr_id) []).

(** The body of the loop over the functions under a resolved base. *)
Definition override_edge (filepath : string) (cls : ClassSymbol)
    (base : string) (func : FunctionSymbol) : Run.t unit :=
  match func_name func with
  | None => Run.raise "TypeError"
  | Some name =>
      if contains "." name then
        match cls_name cls with
        | None => Run.raise "TypeError"
        | Some class_name =>
            if startswith (class_name ++ ".") name then
              let method_name := nth 1 (split_dot name) "" in
              let target_symbol := (base ++ "." ++ method_name)%string in
              let overridden_id := lookup target_symbol in
              Run.when (truthy overridden_id)
                (Run.emit driver
                   (merge_relationship "Function" "id"
                      (VStr (filepath ++ "::" ++ name))
                      "OVERRIDES" "Function" "id"
                      (VOpt overridden_id) []))
            else Run.ret tt
        end
      else Run.ret tt
  end.

Definition inherits_edges (filepath cls_id : string)
    (symbols : FileSymbols) (cls : ClassSymbol) (base : string)
    : Run.t unit :=
  let base_id := lookup base in
  Run.when (truthy base_id)
    (Run.emit driver
       (merge_relationship "Class" "id" (VStr cls_id)
          "INHERITS" "Class" "id" (VOpt base_id) []) ;;
     Run.for_each (functions symbols)
                  (override_edge filepath cls base)).

Definition class_node (filepath : string) (symbols : FileSymbols)
    (cls : ClassSymbol) : Run.t unit :=
  let cls_id := (filepath ++ "::" ++ render (cls_name cls))%string in
  Run.emit driver
    (merge_node "Class"
       [("id", VStr cls_id);
        ("name", VOpt (cls_name cls));
        ("lineno", VInt (cls_lineno cls));
        ("end_lineno", VInt (cls_end_lineno cls));
        ("file_path", VStr filepath);
        ("code_snippet", VStr (cls_code_snippet cls))] "id") ;;
  Run.emit driver
    (merge_relationship "File" "path" (VStr filepath)
       "CONTAINS_CLASS" "Class" "id" (VStr cls_id) []) ;;
  Run.for_each (cls_attributes cls) (attribute_node filepath cls_id) ;;
  Run.for_each (cls_bases cls) (inherits_edges filepath cls_id symbols cls).

Definition package_node (filepath : string) (pkg : option string)
    : Run.t unit :=
  Run.emit driver (merge_node "Package" [("name", VOpt pkg)] "name") ;;
  Run.emit driver
    (merge_relationship "File" "path" (VStr filepath)
       "IMPORTS" "Package" "name" (VOpt pkg) []).

(** The value of [callee_id] when the linker tests it. *)
Definition resolve_callee (aliases : dict (option string) (option string))
    (callee : string) : Outcome (option string) :=
  let callee_id := lookup callee in
  if negb (truthy callee_id) && contains "." callee then
    match split_dot_1 callee with
    | [base; member] =>
        let alias := dict_get_default key_dec (Some base) (Some base)
                                      aliases in
        let full_name := (render alias ++ "." ++ member)%string in
        Returned (lookup full_name)
    | _ => Raised "ValueError"
    end
  else Returned callee_id.

Definition call_edge (symbols : FileSymbols) (caller_id callee : string)
    : Run.t unit :=
  match resolve_callee (aliases symbols) callee with
  | Returned callee_id =>
      Run.when (truthy callee_id)
        (Run.emit driver
           (merge_relationship "Function" "id" (VStr caller_id)
              "CALLS" "Function" "id" (VOpt callee_id) []))
  | Raised e => Run.raise e
  end.

Definition call_edges (filepath : string) (symbols : FileSymbols)
    (entry : option string * list string) : Run.t unit :=
  let '(caller, callees) := entry in
  let caller_id := (filepath ++ "::" ++ render caller)%string in
  Run.for_each callees (call_edge symbols caller_id).

(** The body of the loop over [code_graph_data.items()]. *)
Definition link_file (entry : string * FileSymbols) : Run.t unit :=
  let '(filepath, symbols) := entry in
  Run.emit driver
    (merge_node "File"
       [("path", VStr filepath);
        ("name", VStr (basename filepath))] "path") ;;
  Run.for_each (functions symbols) (function_node filepath) ;;
  Run.for_each (classes symbols) (class_node filepath symbols) ;;
  Run.for_each (imports symbols) (package_node filepath) ;;
  Run.for_each (calls symbols) (call_edges filepath symbols).

Definition populate_graph_from_code_data
    (code_graph_data : dict string FileSymbols) : Run.t unit :=
  Run.for_each code_graph_data link_file.
End Linker.

(** ** Reference definitions the extraction is compared with *)

(** The callee texts of the call expressions of a subtree, as written in
    the source, in the order a depth-first scan meets them. *)
Fixpoint callee_texts (node : Node) : list string :=
  (if type node =? "call" then
     match child_by_field_name node "function" with
     | Some func_node => [get_node_text func_node]
     | None => []
     end
   else [])
  ++ flat_map callee_texts (children node).

(** Where a definition stands in the program text. *)
Inductive Scope : Type :=
| TopLevel
| InClass (class_name : option string).

(** The qualified name by position in the text: the name of the class
    around the definition, a dot, the function name. *)
Definition lexical_qualify (sc : Scope) (func_name : option string)
    : option string :=
  match sc with
  | TopLevel => func_name
  | InClass c => Some (render c ++ "." ++ render func_name)%string
  end.

(** What follows the first five characters of a text. *)
Definition after_self (func_text : string) : string :=
  substring 5 (String.length func_text - 5) func_text.

(** The callee text by position in the text: inside a class, [self.m]
    becomes the class name, a dot, [m]. *)
Definition lexical_callee (sc : Scope) (func_text : string) : string :=
  match sc with
  | TopLevel => func_text
  | InClass c =>
      if startswith "self." func_text
      then (render c ++ "." ++ after_self func_text)%string
      else func_text
  end.

(** The scope of what lies below a node. *)
Definition scope_below (node : Node) (sc : Scope) : Scope :=
  if type node =? "class_definition"
  then InClass (get_node_text_safe (child_by_field_name node "name"))
  else sc.

(** Every function definition of a subtree with the qualified name and
    the call list its position in the text gives it (the class around it
    is passed down and comes back when a nested class ends). *)
Fixpoint lexical_defs (sc : Scope) (node : Node)
    : list (option string * list string) :=
  (if type node =? "function_definition" then
     [(lexical_qualify sc
         (get_node_text_safe (child_by_field_name node "name")),
       map (lexical_callee sc) (callee_texts node))]
   else [])
  ++ flat_map (lexical_defs (scope_below node sc)) (children node).

(** The function definitions of a subtree in the order [traverse] visits
    them, each with the qualified name and the call list it is recorded
    with when the slot holds [slot] on arrival; and the slot on leaving. *)
Fixpoint definitions (node : Node) (slot : option string)
    : list (option string * list string) * option string :=
  let here :=
    if type node =? "function_definition" then
      [(qualify slot (get_node_text_safe (child_by_field_name node "name")),
        find_calls node [] slot)]
    else [] in
  let slot :=
    if type node =? "class_definition"
    then get_node_text_safe (child_by_field_name node "name")
    else slot in
  let below :=
    fold_left (fun acc child =>
                 let r := definitions child (snd acc) in
                 (fst acc ++ fst r, snd r))
              (children node) ([], slot) in
  (here ++ fst below,
   if type node =? "class_definition" then None else snd below).

(** No class definition in the subtree. *)
Fixpoint class_free (node : Node) : bool :=
  negb (type node =? "class_definition")
  && forallb class_free (children node).

(** No class definition lies inside another one, and every class
    definition has a name that is not empty. *)
Fixpoint classes_flat (node : Node) : bool :=
  if type node =? "class_definition" then
    truthy (get_node_text_safe (child_by_field_name node "name"))
    && forallb class_free (children node)
  else forallb classes_flat (children node).

(** [sub] occurs in [s]. *)
Definition occurs_in (sub s : string) : Prop :=
  exists before after, s = (before ++ sub ++ after)%string.

(** ** Sample syntax trees

    The trees the tree-sitter Python grammar gives for a few small sources.
    In that grammar the statements of a class or function body are the
    children of the [block] node under the field [body]; a class
    definition itself has the children [class], [name], [superclasses]
    (an [argument_list], when present), [:] and [body]. *)

Module Samples.

Definition nl : string := String (ascii_of_nat 10) EmptyString.

(** An anonymous token, a named leaf, a named inner node. *)
Definition tok (ty : string) (txt : string) (s e : nat * nat) : Node :=
  mkNode ty false None txt s e [].
Definition leaf (ty : string) (fld : option string) (txt : string)
    (s e : nat * nat) : Node :=
  mkNode ty true fld txt s e [].
Definition inner (ty : string) (fld : option string) (txt : string)
    (s e : nat * nat) (kids : list Node) : Node :=
  mkNode ty true fld txt s e kids.

(** {[
class Dog:
    x = 1
]} *)
Definition attr_source : string :=
  "class Dog:" ++ nl ++ "    x = 1" ++ nl.

Definition attr_class : Node :=
  inner "class_definition" None ("class Dog:" ++ nl ++ "    x = 1")
    (0, 0) (1, 9)
    [ tok "class" "class" (0, 0) (0, 5);
      leaf "identifier" (Some "name") "Dog" (0, 6) (0, 9);
      tok ":" ":" (0, 9) (0, 10);
      inner "block" (Some "body") "x = 1" (1, 4) (1, 9)
        [ inner "expression_statement" None "x = 1" (1, 4) (1, 9)
            [ inner "assignment" None "x = 1" (1, 4) (1, 9)
                [ leaf "identifier" (Some "left") "x" (1, 4) (1, 5);
                  tok "=" "=" (1, 6) (1, 7);
                  leaf "integer" (Some "right") "1" (1, 8) (1, 9) ] ] ] ].

Definition attr_tree : Node :=
  inner "module" None attr_source (0, 0) (2, 0) [attr_class].

(** {[
def run():
    pass
]} *)
Definition run_source : string :=
  "def run():" ++ nl ++ "    pass" ++ nl.

Definition run_tree : Node :=
  inner "module" None run_source (0, 0) (2, 0)
    [ inner "function_definition" None ("def run():" ++ nl ++ "    pass")
        (0, 0) (1, 8)
        [ tok "def" "def" (0, 0) (0, 3);
          leaf "identifier" (Some "name") "run" (0, 4) (0, 7);
          inner "parameters" (Some "parameters") "()" (0, 7) (0, 9)
            [ tok "(" "(" (0, 7) (0, 8); tok ")" ")" (0, 8) (0, 9) ];
          tok ":" ":" (0, 9) (0, 10);
          inner "block" (Some "body") "pass" (1, 4) (1, 8)
            [ inner "pass_statement" None "pass" (1, 4) (1, 8)
                [ tok "pass" "pass" (1, 4) (1, 8) ] ] ] ].

(** The method [def name(self): self.callee()] at a given line, indented
    by four columns. *)
Definition method (line : nat) (name callee : string) : Node :=
  inner "function_definition" None
    ("def " ++ name ++ "(self):" ++ nl ++ "        self." ++ callee ++ "()")
    (line, 4) (line + 1, 15 + String.length callee)
    [ tok "def" "def" (line, 4) (line, 7);
      leaf "identifier" (Some "name") name
        (line, 8) (line, 8 + String.length name);
      inner "parameters" (Some "parameters") "(self)"
        (line, 8 + String.length name) (line, 14 + String.length name)
        [ tok "(" "(" (line, 8 + String.length name)
            (line, 9 + String.length name);
          leaf "identifier" None "self" (line, 9 + String.length name)
            (line, 13 + String.length name);
          tok ")" ")" (line, 13 + String.length name)
            (line, 14 + String.length name) ];
      tok ":" ":" (line, 14 + String.length name)
        (line, 15 + String.length name);
      inner "block" (Some "body") ("self." ++ callee ++ "()")
        (line + 1, 8) (line + 1, 15 + String.length callee)
        [ inner "expression_statement" None ("self." ++ callee ++ "()")
            (line + 1, 8) (line + 1, 15 + String.length callee)
            [ inner "call" None ("self." ++ callee ++ "()")
                (line + 1, 8) (line + 1, 15 + String.length callee)
                [ inner "attribute" (Some "function") ("self." ++ callee)
                    (line + 1, 8) (line + 1, 13 + String.length callee)
                    [ leaf "identifier" (Some "object") "self"
                        (line + 1, 8) (line + 1, 12);
                      tok "." "." (line + 1, 12) (line + 1, 13);
                      leaf "identifier" (Some "attribute") callee
                        (line + 1, 13)
                        (line + 1, 13 + String.length callee) ];
                  inner "argument_list" (Some "arguments") "()"
                    (line + 1, 13 + String.length callee)
                    (line + 1, 15 + String.length callee)
                    [ tok "(" "(" (line + 1, 13 + String.length callee)
                        (line + 1, 14 + String.length callee);
                      tok ")" ")" (line + 1, 14 + String.length callee)
                        (line + 1, 15 + String.length callee) ] ] ] ] ].

(** {[
class Dog(Animal):
    def speak(self):
        self.bark()
]} *)
Definition dog_body : string :=
  "def speak(self):" ++ nl ++ "        self.bark()".

Definition dog_source : string :=
  "class Dog(Animal):" ++ nl ++ "    " ++ dog_body ++ nl.

Definition dog_tree : Node :=
  inner "module" None dog_source (0, 0) (3, 0)
    [ inner "class_definition" None
        ("class Dog(Animal):" ++ nl ++ "    " ++ dog_body) (0, 0) (2, 19)
        [ tok "class" "class" (0, 0) (0, 5);
          leaf "identifier" (Some "name") "Dog" (0, 6) (0, 9);
          inner "argument_list" (Some "superclasses") "(Animal)"
            (0, 9) (0, 17)
            [ tok "(" "(" (0, 9) (0, 10);
              leaf "identifier" None "Animal" (0, 10) (0, 16);
              tok ")" ")" (0, 16) (0, 17) ];
          tok ":" ":" (0, 17) (0, 18);
          inner "block" (Some "body") dog_body (1, 4) (2, 19)
            [ method 1 "speak" "bark" ] ] ].

(** {[
class A:
    class B:
        pass
    def f(self):
        self.g()
]} *)
Definition nested_inner : string :=
  "class B:" ++ nl ++ "        pass".
Definition nested_method : string :=
  "def f(self):" ++ nl ++ "        self.g()".
Definition nested_body : string :=
  nested_inner ++ nl ++ "    " ++ nested_method.

Definition nested_source : string :=
  "class A:" ++ nl ++ "    " ++ nested_body ++ nl.

Definition nested_tree : Node :=
  inner "module" None nested_source (0, 0) (5, 0)
    [ inner "class_definition" None
        ("class A:" ++ nl ++ "    " ++ nested_body) (0, 0) (4, 16)
        [ tok "class" "class" (0, 0) (0, 5);
          leaf "identifier" (Some "name") "A" (0, 6) (0, 7);
          tok ":" ":" (0, 7) (0, 8);
          inner "block" (Some "body") nested_body (1, 4) (4, 16)
            [ inner "class_definition" None nested_inner (1, 4) (2, 12)
                [ tok "class" "class" (1, 4) (1, 9);
                  leaf "identifier" (Some "name") "B" (1, 10) (1, 11);
                  tok ":" ":" (1, 11) (1, 12);
                  inner "block" (Some "body") "pass" (2, 8) (2, 12)
                    [ inner "pass_statement" None "pass" (2, 8) (2, 12)
                        [ tok "pass" "pass" (2, 8) (2, 12) ] ] ];
              method 3 "f" "g" ] ] ].

(** The function [def name(): callee()] at a given line. *)
Definition simple_def (line : nat) (name callee : string) : Node :=
  inner "function_definition" None ("def " ++ name ++ "(): " ++ callee ++ "()")
    (line, 0) (line, 11 + String.length name + String.length callee)
    [ tok "def" "def" (line, 0) (line, 3);
      leaf "identifier" (Some "name") name
        (line, 4) (line, 4 + String.length name);
      inner "parameters" (Some "parameters") "()"
        (line, 4 + String.length name) (line, 6 + String.length name)
        [ tok "(" "(" (line, 4 + String.length name)
            (line, 5 + String.length name);
          tok ")" ")" (line, 5 + String.length name)
            (line, 6 + String.length name) ];
      tok ":" ":" (line, 6 + String.length name)
        (line, 7 + String.length name);
      inner "block" (Some "body") (callee ++ "()")
        (line, 8 + String.length name)
        (line, 10 + String.length name + String.length callee)
        [ inner "expression_statement" None (callee ++ "()")
            (line, 8 + String.length name)
            (line, 10 + String.length name + String.length callee)
            [ inner "call" None (callee ++ "()")
                (line, 8 + String.length name)
                (line, 10 + String.length name + String.length callee)
                [ leaf "identifier" (Some "function") callee
                    (line, 8 + String.length name)
                    (line, 8 + String.length name + String.length callee);
                  inner "argument_list" (Some "arguments") "()"
                    (line, 8 + String.length name + String.length callee)
                    (line, 10 + String.length name + String.length callee)
                    [ tok "(" "("
                        (line, 8 + String.length name + String.length callee)
                        (line, 9 + String.length name + String.length callee);
                      tok ")" ")"
                        (line, 9 + String.length name + String.length callee)
                        (line, 10 + String.length name
                               + String.length callee) ] ] ] ] ].

(** {[
def run(): first()
def run(): second()
]} *)
Definition twice_source : string :=
  "def run(): first()" ++ nl ++ "def run(): second()" ++ nl.

Definition twice_tree : Node :=
  inner "module" None twice_source (0, 0) (2, 0)
    [ simple_def 0 "run" "first"; simple_def 1 "run" "second" ].

(** [os.path.join] on names without separators, as the names of the
    items of a git tree are: POSIX and Windows. *)
Definition posix_join (a b : string) : string :=
  if a =? "" then b else a ++ "/" ++ b.
Definition nt_join (a b : string) : string :=
  if a =? "" then b else a ++ "\" ++ b.

(** [os.path.normpath] on the paths so joined, which are normal already. *)
Definition normpath (path : string) : string := path.

(** The root tree of a commit with the directory [a], holding [x.py], and
    the file [aZ.py], in the order git stores them (a directory is sorted
    as its name followed by a slash). *)
Definition commit_items : list GitItem :=
  [ GitTree "a" [ GitBlob "x.py" (Returned run_source) "1f7a" ];
    GitBlob "aZ.py" (Returned run_source) "2e0c" ].

(** A text the parser gives up on. *)
Definition broken_source : string := "def (:" ++ nl.

(** The root tree of a commit with three files, the second of which
    cannot be parsed. *)
Definition broken_items : list GitItem :=
  [ GitBlob "a_dog.py" (Returned dog_source) "77aa";
    GitBlob "b_bad.py" (Returned broken_source) "88bb";
    GitBlob "c_run.py" (Returned run_source) "99cc" ].

(** A repository with these two commits, found at the path [repo]. *)
Definition repo : Repo :=
  mkRepo (fun commit_hash =>
            if commit_hash =? "c0ffee" then Returned commit_items
            else if commit_hash =? "badf00d" then Returned broken_items
            else Raised "BadName").

Definition git_Repo (repo_path : string) : Outcome Repo :=
  if repo_path =? "repo" then Returned repo
  else Raised "NoSuchPathError".

(** A file that imports [numpy] as [np] and whose function [run] calls
    [np.array] and [print]; and a symbol table that knows [numpy.array]. *)
Definition numpy_user : FileSymbols :=
  mkFileSymbols [] [] [Some "numpy"]
    [(Some "run", ["np.array"; "print"])]
    [(Some "np", Some "numpy")].

Definition numpy_table : dict (option string) string :=
  [(Some "numpy.array", "lib.py::numpy.array")].

(** The symbol table of a corpus with [Animal] and [Dog], both with a
    method [speak]. *)
Definition animal_table : dict (option string) string :=
  [(Some "Animal", "animal.py::Animal");
   (Some "Animal.speak", "animal.py::Animal.speak");
   (Some "Dog", "dog.py::Dog");
   (Some "Dog.speak", "dog.py::Dog.speak")].

(** {[
class Dog(Animal):
    class Tag:
        pass
    def speak(self):
        self.bark()
]} *)
Definition tagged_inner : string :=
  "class Tag:" ++ nl ++ "        pass".
Definition tagged_method : string :=
  "def speak(self):" ++ nl ++ "        self.bark()".
Definition tagged_body : string :=
  tagged_inner ++ nl ++ "    " ++ tagged_method.

Definition tagged_source : string :=
  "class Dog(Animal):" ++ nl ++ "    " ++ tagged_body ++ nl.

Definition tagged_tree : Node :=
  inner "module" None tagged_source (0, 0) (5, 0)
    [ inner "class_definition" None
        ("class Dog(Animal):" ++ nl ++ "    " ++ tagged_body) (0, 0) (4, 19)
        [ tok "class" "class" (0, 0) (0, 5);
          leaf "identifier" (Some "name") "Dog" (0, 6) (0, 9);
          inner "argument_list" (Some "superclasses") "(Animal)"
            (0, 9) (0, 17)
            [ tok "(" "(" (0, 9) (0, 10);
              leaf "identifier" None "Animal" (0, 10) (0, 16);
              tok ")" ")" (0, 16) (0, 17) ];
          tok ":" ":" (0, 17) (0, 18);
          inner "block" (Some "body") tagged_body (1, 4) (4, 19)
            [ inner "class_definition" None tagged_inner (1, 4) (2, 12)
                [ tok "class" "class" (1, 4) (1, 9);
                  leaf "identifier" (Some "name") "Tag" (1, 10) (1, 13);
                  tok ":" ":" (1, 13) (1, 14);
                  inner "block" (Some "body") "pass" (2, 8) (2, 12)
                    [ inner "pass_statement" None "pass" (2, 8) (2, 12)
                        [ tok "pass" "pass" (2, 8) (2, 12) ] ] ];
              method 3 "speak" "bark" ] ] ].

(** The symbol table of a corpus with [Animal] and its method [speak]
    in one file and the source above in another. *)
Definition tagged_table : dict (option string) string :=
  [(Some "Animal", "animal.py::Animal");
   (Some "Animal.speak", "animal.py::Animal.speak");
   (Some "Dog", "dog.py::Dog");
   (Some "Tag", "dog.py::Tag");
   (Some "speak", "dog.py::speak")].

(** A store that takes every write, and one that is not reachable. *)
Definition accepting : Driver := fun _ _ => Returned tt.
Definition unreachable : Driver := fun _ _ => Raised "ServiceUnavailable".

(** A parser that knows these sources. *)
Definition parse (code : string) : Outcome Node :=
  if code =? attr_source then Returned attr_tree
  else if code =? run_source then Returned run_tree
  else if code =? dog_source then Returned dog_tree
  else if code =? nested_source then Returned nested_tree
  else if code =? twice_source then Returned twice_tree
  else Raised "SyntaxError".


End Samples.

(** ** What a stretch of the traversal leaves behind *)

(** [calls[name] = call_list], for a pair of both. *)
Definition store_entry (d : dict (option string) (list string))
    (e : option string * list string) :=
  dict_set key_dec (fst e) (snd e) d.

(** Between [st] and [st'] the traversal has appended functions with the
    names of [defs], in order, stored their call lists in that order, and
    left the slot at [slot']. *)
Definition records (st : State) (defs : list (option string * list string))
    (slot' : option string) (st' : State) : Prop :=
  map func_name (functions (file_symbols st')) =
    map func_name (functions (file_symbols st)) ++ map fst defs
  /\ calls (file_symbols st') =
     fold_left store_entry defs (calls (file_symbols st))
  /\ current_class st' = slot'.

(** One step of the loop over the children in [definitions]. *)
Definition definitions_step
    (acc : list (option string * list string) * option string)
    (child : Node) :=
  (fst acc ++ fst (definitions child (snd acc)),
   snd (definitions child (snd acc))).

(** The slot holds what the position in the text says: nothing at top
    level, the non-empty class name inside a class. *)
Definition slot_agrees (sc : Scope) (slot : option string) : Prop :=
  match sc with
  | TopLevel => slot = None
  | InClass c => truthy c = true /\ slot = c
  end.

(** ** The claims about names and call lists, read by position *)

(** Every extracted function is named by its position in the text. *)
Definition qualified_by_position (root_node : Node) : Prop :=
  map func_name (functions (symbols_of root_node)) =
  map fst (lexical_defs TopLevel root_node).

(** Every stored call list is the one the position in the text asks for. *)
Definition calls_by_position (root_node : Node) : Prop :=
  map snd (calls (symbols_of root_node)) =
  map snd (fold_left store_entry (lexical_defs TopLevel root_node) []).

(** The test of [detect_design_patterns] on one class. *)
Definition has_singleton_markers (cls : ClassSymbol) : bool :=
  contains "__new__" (cls_code_snippet cls)
  && contains "cls._instance" (cls_code_snippet cls).

(** ** The corpus, file by file *)

Definition file_path (file : FileEntry) : string := fst (fst file).
Definition file_content (file : FileEntry) : string := snd (fst file).

(** The bare names a file's symbols enter the symbol table under. *)
Definition produced_names (symbols : FileSymbols) : list (option string) :=
  map func_name (functions symbols) ++ map cls_name (classes symbols).

(** The file is extracted and its symbols include the bare name. *)
Definition produces (parse : string -> Outcome Node) (file : FileEntry)
    (name : option string) : Prop :=
  exists symbols,
    extract_symbols_from_code parse (file_content file) = Returned symbols
    /\ In name (produced_names symbols).

(** The symbol-table entries a file contributes, in the order stored. *)
Definition file_entries (parse : string -> Outcome Node) (file : FileEntry)
    : list (option string * string) :=
  match extract_symbols_from_code parse (file_content file) with
  | Returned symbols =>
      map (fun name => (name, (file_path file ++ "::" ++ render name)%string))
          (produced_names symbols)
  | Raised _ => []
  end.

(** The entry of [code_graph_data] a file contributes. *)
Definition file_data (parse : string -> Outcome Node) (file : FileEntry)
    : list (string * FileSymbols) :=
  match extract_symbols_from_code parse (file_content file) with
  | Returned symbols => [(file_path file, symbols)]
  | Raised _ => []
  end.

(** The line a file that cannot be extracted leaves on standard output. *)
Definition file_errors (parse : string -> Outcome Node) (file : FileEntry)
    : list string :=
  match extract_symbols_from_code parse (file_content file) with
  | Returned _ => []
  | Raised e => ["Error parsing " ++ file_path file ++ ": " ++ e]%string
  end.

(** C1 as stated: where several files produce a name, the table holds the
    entry of the one whose path is last in path order. *)
Definition latest_path_wins (os_path_join : string -> string -> string)
    (os_path_normpath : string -> string)
    (git_Repo : string -> Outcome Repo)
    (parse : string -> Outcome Node) (repo_path commit_hash : string)
    : Prop :=
  forall python_files out file name,
    get_repo_structure_at_commit os_path_join os_path_normpath git_Repo
      repo_path commit_hash = Returned (python_files, out) ->
    In file python_files ->
    produces parse file name ->
    (forall other,
        In other python_files ->
        produces parse other name ->
        String.leb (file_path other) (file_path file) = true) ->
    exists ix,
      build_code_symbol_graph_data os_path_join os_path_normpath git_Repo
        parse repo_path (Some commit_hash) = Returned ix
      /\ dict_get key_dec name (symbol_table ix)
         = Some (file_path file ++ "::" ++ render name)%string.

(** The index before the first file, with what was printed so far. *)
Definition fresh_index (out : Stdout) : Index := mkIndex [] [] [] out.

(** ** Resolution of a call reference, as the linker is described *)

(** The reference [callee] resolves to the identifier [id]: by the exact
    lookup of its text; or, when that finds nothing and the text is
    [base.member] cut at its first dot, by the lookup of the alias target
    of [base], a dot and [member]. *)
Inductive resolves (symbol_table : dict (option string) string)
    (aliases : dict (option string) (option string)) (callee : string)
    : string -> Prop :=
| resolves_exact (id : string) :
    lookup symbol_table callee = Some id -> id <> "" ->
    resolves symbol_table aliases callee id
| resolves_alias (base member : string) (target : option string)
    (id : string) :
    truthy (lookup symbol_table callee) = false ->
    callee = (base ++ "." ++ member)%string ->
    contains "." base = false ->
    dict_get key_dec (Some base) aliases = Some target ->
    lookup symbol_table (render target ++ "." ++ member) = Some id ->
    id <> "" ->
    resolves symbol_table aliases callee id.

(** The one upsert a resolved call reference leads to. *)
Definition calls_edge (caller_id id : string) : Upsert :=
  merge_relationship "Function" "id" (VStr caller_id) "CALLS"
                     "Function" "id" (VStr id) [].

(** A [CALLS] relationship. *)
Definition is_calls_edge (u : Upsert) : bool :=
  match u with
  | merge_relationship _ _ _ rel_type _ _ _ _ => rel_type =? "CALLS"
  | merge_node _ _ _ => false
  end.

(** The text before the first dot of a reference and the text after it. *)
Fixpoint cut_at_first_dot (s : string) : option (string * string) :=
  match s with
  | EmptyString => None
  | String c r =>
      if Ascii.eqb c dot then Some (EmptyString, r)
      else match cut_at_first_dot r with
           | Some (base, member) => Some (String c base, member)
           | None => None
           end
  end.

(** What a lookup found, when that is an identifier and not empty. *)
Definition found (id : option string) : option string :=
  if truthy id then id else None.

(** The identifier the two steps give for a reference: the exact lookup
    of its text; failing that, for a text with a dot whose part before
    the first dot is an alias of the file, the lookup of the alias
    target, a dot and the rest. *)
Definition resolved_target (symbol_table : dict (option string) string)
    (aliases : dict (option string) (option string)) (callee : string)
    : option string :=
  match found (lookup symbol_table callee) with
  | Some id => Some id
  | None =>
      match cut_at_first_dot callee with
      | Some (base, member) =>
          match dict_get key_dec (Some base) aliases with
          | Some target =>
              found (lookup symbol_table (render target ++ "." ++ member))
          | None => None
          end
      | None => None
      end
  end.

(** The upserts a call reference of a caller is to lead to: one [CALLS]
    edge when it resolves, nothing otherwise. *)
Definition reference_edges (symbol_table : dict (option string) string)
    (filepath : string) (symbols : FileSymbols) (caller : option string)
    (callee : string) : list Upsert :=
  match resolved_target symbol_table (aliases symbols) callee with
  | Some id => [calls_edge (filepath ++ "::" ++ render caller) id]
  | None => []
  end.

(** The same for a corpus: file by file, caller by caller, reference by
    reference. *)
Definition corpus_call_edges (symbol_table : dict (option string) string)
    (code_graph_data : dict string FileSymbols) : list Upsert :=
  flat_map
    (fun file =>
       flat_map
         (fun entry =>
            flat_map
              (reference_edges symbol_table (fst file) (snd file) (fst entry))
              (snd entry))
         (calls (snd file)))
    code_graph_data.

(** ** Parts of a run *)

(** The list [a] is the beginning of the list [b]. *)
Definition initial_part {A : Type} (a b : list A) : Prop :=
  exists rest, b = a ++ rest.

(** The computation [part], started after the calls [start], ran to its
    end inside the run of [whole] started after [before]. *)
Definition within (part : Run.t unit) (start : list Upsert)
    (whole : Run.t unit) (before : list Upsert) : Prop :=
  Run.outcome part start = Returned tt
  /\ incl (Run.issued part start) (Run.issued whole before).

(** The exception [e] of a run is the one of the store: the last call
    made is the one whose query the driver refused with [e]. *)
Definition raised_by_store (driver : Driver) (m : Run.t unit)
    (before : list Upsert) (e : string) : Prop :=
  exists done u query,
    Run.issued m before = done ++ [u]
    /\ cypher u = Returned query
    /\ driver (before ++ done) query = Raised e.

(** A computation that raises nothing of its own. *)
Definition fails_only_with_store (driver : Driver) (m : Run.t unit) : Prop :=
  forall before e,
    Run.outcome m before = Raised e -> raised_by_store driver m before e.

(** ** The claim about overrides, read by position *)

(** For every class of the file, every base it names that the symbol
    table knows, and every function definition that stands inside a
    class of that name in the text, with [base.method] known to the
    table: linking that runs to its end issues the [INHERITS] edge and
    the [OVERRIDES] edge from [filepath::class.method]. *)
Definition overrides_by_position (driver : Driver)
    (symbol_table : dict (option string) string)
    (code_graph_data : dict string FileSymbols)
    (filepath : string) (root_node : Node) : Prop :=
  forall (cls : ClassSymbol)
         (class_name base method_name base_id overridden_id : string)
         (before : list Upsert),
    In (filepath, symbols_of root_node) code_graph_data ->
    In cls (classes (symbols_of root_node)) ->
    cls_name cls = Some class_name ->
    In base (cls_bases cls) ->
    In (Some (class_name ++ "." ++ method_name)%string)
       (map fst (lexical_defs TopLevel root_node)) ->
    contains "." class_name = false ->
    contains "." method_name = false ->
    lookup symbol_table base = Some base_id ->
    base_id <> "" ->
    lookup symbol_table (base ++ "." ++ method_name) = Some overridden_id ->
    overridden_id <> "" ->
    Run.outcome
      (populate_graph_from_code_data driver symbol_table code_graph_data)
      before = Returned tt ->
    In (merge_relationship "Class" "id"
          (VStr (filepath ++ "::" ++ class_name)) "INHERITS"
          "Class" "id" (VStr base_id) [])
       (Run.issued
          (populate_graph_from_code_data driver symbol_table code_graph_data)
          before)
    /\ In (merge_relationship "Function" "id"
             (VStr (filepath ++ "::" ++ class_name ++ "." ++ method_name))
             "OVERRIDES" "Function" "id" (VStr overridden_id) [])
          (Run.issued
             (populate_graph_from_code_data driver symbol_table
                code_graph_data)
             before).

(** ** Scans in document order *)

(** What a depth-first scan collects when every node gives [here]. *)
Fixpoint preorder {A : Type} (here : Node -> list A) (node : Node) : list A :=
  here node ++ flat_map (preorder here) (children node).

(** The nodes of one type, in document order. *)
Definition nodes_of_type (ty : string) : Node -> list Node :=
  preorder (fun node => if type node =? ty then [node] else []).

(** Text and position as the symbol records hold them: the snippet, the
    line (from 1) and column (from 0) of the start, and those of the end. *)
Definition node_extent (node : Node)
    : string * (nat * nat) * (nat * nat) :=
  (get_node_text node,
   (fst (start_point node) + 1, snd (start_point node)),
   (fst (end_point node) + 1, snd (end_point node))).

Definition func_extent (f : FunctionSymbol)
    : string * (nat * nat) * (nat * nat) :=
  (func_code_snippet f,
   (func_lineno f, func_col_offset f),
   (func_end_lineno f, func_end_col_offset f)).

Definition cls_extent (c : ClassSymbol)
    : string * (nat * nat) * (nat * nat) :=
  (cls_code_snippet c,
   (cls_lineno c, cls_col_offset c),
   (cls_end_lineno c, cls_end_col_offset c)).

(** [inner_node] lies somewhere below [outer]. *)
Inductive inside (inner_node : Node) : Node -> Prop :=
| inside_child (outer : Node) :
    In inner_node (children outer) -> inside inner_node outer
| inside_deeper (middle outer : Node) :
    inside inner_node middle -> In middle (children outer) ->
    inside inner_node outer.

(** Every alias stands for a module that is among the imports. *)
Definition aliases_imported (fs : FileSymbols) : Prop :=
  forall alias module,
    In (alias, module) (aliases fs) -> In module (imports fs).

(** ** The blobs of a tree *)




(** Induction over a git item and the items below it. *)
Section GitItemInd.
Variable P : GitItem -> Prop.
Hypothesis on_tree :
  forall name items, Forall P items -> P (GitTree name items).
Hypothesis on_blob : forall name data hexsha, P (GitBlob name data hexsha).
Hypothesis on_other : forall name, P (GitOther name).

End GitItemInd.

(** ** [populate_design_patterns] *)




Section Patterns.
Variable driver : Driver.


End Patterns.


(** ** [populate_graph_from_commits] *)

Record Diff : Type := mkDiff {
  a_path : option string;
  b_path : option string;
  change_type : string;
  diff_text : string
}.

(** A commit as the loader hands it over; [committed_date] stands for
    the text [committed_date.isoformat()] gives. *)
Record Commit : Type := mkCommit {
  hexsha : string;
  author : string;
  message : string;
  committed_date : string;
  parents : list string;
  diffs : list Diff
}.

Section Commits.
Variable driver : Driver.

Definition parent_upserts (commit : Commit) (parent_sha : string)
    : Run.t unit :=
  Run.emit driver
    (merge_node "Commit" [("hexsha", VStr parent_sha)] "hexsha") ;;
  Run.emit driver
    (merge_relationship "Commit" "hexsha" (VStr (hexsha commit))
       "PARENT_OF" "Commit" "hexsha" (VStr parent_sha) []).

(** The two upserts for a file a commit touches. *)
Definition file_change (commit : Commit) (diff : Diff) (rel_type : string)
    (path : string) : Run.t unit :=
  Run.emit driver
    (merge_node "File"
       [("path", VStr path); ("name", VStr (basename path))]
       "path") ;;
  Run.emit driver
    (merge_relationship "Commit" "hexsha" (VStr (hexsha commit))
       rel_type "File" "path" (VStr path)
       [("change_type", VStr (change_type diff));
        ("diff_text", VStr (diff_text diff))]).

Definition diff_upserts (commit : Commit) (diff : Diff) : Run.t unit :=
  if truthy (b_path diff) then
    file_change commit diff "MODIFIES" (render (b_path diff))
  else if truthy (a_path diff) && (change_type diff =? "D") then
    file_change commit diff "DELETES" (render (a_path diff))
  else Run.ret tt.

Definition commit_upserts (commit : Commit) : Run.t unit :=
  Run.emit driver
    (merge_node "Commit"
       [("hexsha", VStr (hexsha commit));
        ("author", VStr (author commit));
        ("message", VStr (message commit));
        ("timestamp", VStr (committed_date commit))] "hexsha") ;;
  Run.for_each (parents commit) (parent_upserts commit) ;;
  Run.for_each (diffs commit) (diff_upserts commit).

Definition populate_graph_from_commits (commits_data : list Commit)
    : Run.t unit :=
  Run.for_each commits_data commit_upserts.
End Commits.

(** ** Well-formed upserts *)

(** The labels and relationship types of the code graph. *)
Definition code_node_labels : list string :=
  ["File"; "Function"; "Class"; "Attribute"; "Package"].

Definition code_rel_types : list string :=
  ["CONTAINS_FUNCTION"; "CONTAINS_CLASS"; "HAS_ATTRIBUTE"; "INHERITS";
   "OVERRIDES"; "IMPORTS"; "CALLS"].

(** An upsert of the code graph is well formed: a node of a known label
    that carries its unique key among its properties, or a relationship
    of a known type. *)
Definition well_formed_upsert (u : Upsert) : Prop :=
  match u with
  | merge_node label properties unique_key =>
      In label code_node_labels
      /\ exists v, dict_get string_dec unique_key properties = Some v
  | merge_relationship _ _ _ rel_type _ _ _ _ => In rel_type code_rel_types
  end.

(** The identifiers a symbol table holds. *)
Definition table_ids (symbol_table : dict (option string) string)
    : list string :=
  map snd symbol_table.

(** An edge that points at a resolved symbol ends at an identifier of the
    symbol table. *)
Definition target_from_table (symbol_table : dict (option string) string)
    (u : Upsert) : Prop :=
  match u with
  | merge_relationship _ _ _ rel_type _ _ target _ =>
      In rel_type ["INHERITS"; "OVERRIDES"; "CALLS"] ->
      exists id, target = VStr id /\ In id (table_ids symbol_table)
  | merge_node _ _ _ => True
  end.

(** ** More samples *)

Module MoreSamples.

(** {[
def outer():
    def inner(): helper()
]}
    with the inner definition on the second line. *)
Definition inner_def : Node := Samples.simple_def 1 "inner" "helper".

Definition outer_def : Node :=
  Samples.inner "function_definition" None
    ("def outer():" ++ Samples.nl ++ "    def inner(): helper()")
    (0, 0) (1, 25)
    [ Samples.tok "def" "def" (0, 0) (0, 3);
      Samples.leaf "identifier" (Some "name") "outer" (0, 4) (0, 9);
      Samples.inner "parameters" (Some "parameters") "()" (0, 9) (0, 11)
        [ Samples.tok "(" "(" (0, 9) (0, 10);
          Samples.tok ")" ")" (0, 10) (0, 11) ];
      Samples.tok ":" ":" (0, 11) (0, 12);
      Samples.inner "block" (Some "body") "def inner(): helper()"
        (1, 4) (1, 25) [ inner_def ] ].

(** The root tree of a commit with a text file, a readable and an
    unreadable Python file, a submodule, and a package directory. *)
Definition mixed_items : list GitItem :=
  [ GitBlob "README.md" (Returned "docs") "a0";
    GitBlob "a.py" (Returned Samples.run_source) "a1";
    GitBlob "b.py" (Raised "OSError") "a2";
    GitOther "vendored";
    GitTree "pkg" [ GitBlob "c.py" (Returned Samples.dog_source) "a3";
                    GitBlob "notes.txt" (Returned "todo") "a4" ] ].

Definition git_Repo (repo_path : string) : Outcome Repo :=
  if repo_path =? "mixed" then
    Returned (mkRepo (fun commit_hash =>
                        if commit_hash =? "feed" then Returned mixed_items
                        else Raised "BadName"))
  else Raised "NoSuchPathError".

(** A file whose class [Cache] holds both markers of the detector. *)
Definition cache_class : ClassSymbol :=
  mkClassSymbol (Some "Cache") 1 0 4 30
    "class Cache: __new__ ... cls._instance" [] [].

Definition cache_symbols : FileSymbols :=
  mkFileSymbols [] [cache_class] [] [] [].

(** A commit with one parent that changes one file, deletes another and
    carries a diff without paths. *)
Definition sample_commit : Commit :=
  mkCommit "c1" "ann" "fix" "2024-01-01T00:00:00" ["c0"]
    [ mkDiff (Some "a.py") (Some "a.py") "M" "+x";
      mkDiff (Some "old.py") None "D" "-y";
      mkDiff None None "A" "" ].

End MoreSamples.


Module LinkSamples.

(** Symbols with a class that names a base and a function without a
    name, as a tree without the name child would give. *)
Definition nameless_symbols : FileSymbols :=
  mkFileSymbols
    [ mkFunctionSymbol None 3 4 4 12 "def" false ]
    [ mkClassSymbol (Some "Cat") 1 0 4 12 "class Cat(Animal): def" ["Animal"]
        ["legs"] ]
    [Some "os"] [] [].

End LinkSamples.

(** ** [extract_inline_comments]

    A Python [str] is taken here as the list of its code points, since
    [splitlines], [strip] and [len] go by code points. *)

Module Comments.

Definition text : Type := list N.

Definition hash : N := 35%N.

(** The code points [str.splitlines] breaks a line at. *)
Definition is_linebreak (c : N) : bool :=
  existsb (N.eqb c) [10; 11; 12; 13; 28; 29; 30; 133; 8232; 8233]%N.

(** The code points [str.strip] removes. *)
Definition is_space (c : N) : bool :=
  existsb (N.eqb c)
    [9; 10; 11; 12; 13; 28; 29; 30; 31; 32; 133; 160; 5760;
     8192; 8193; 8194; 8195; 8196; 8197; 8198; 8199; 8200; 8201; 8202;
     8232; 8233; 8239; 8287; 12288]%N.

(** [s.splitlines()]: [current] is the line begun, [after_cr] tells that
    the last code point was a carriage return, whose line feed belongs
    to the same break. *)
Fixpoint splitlines_from (s : text) (current : text) (after_cr : bool)
    : list text :=
  match s with
  | [] => match current with
          | [] => []
          | _ :: _ => [current]
          end
  | c :: r =>
      if after_cr && N.eqb c 10 then splitlines_from r [] false
      else if is_linebreak c
           then current :: splitlines_from r [] (N.eqb c 13)
           else splitlines_from r (current ++ [c]) false
  end.

Definition splitlines (s : text) : list text := splitlines_from s [] false.

(** [s.lstrip()], [s.rstrip()], [s.strip()] *)
Fixpoint lstrip (s : text) : text :=
  match s with
  | [] => []
  | c :: r => if is_space c then lstrip r else s
  end.

Definition rstrip (s : text) : text := rev (lstrip (rev s)).

Definition strip (s : text) : text := rstrip (lstrip s).

(** [line[line.index("#"):]], empty when there is no "#" in the line. *)
Fixpoint from_hash (line : text) : text :=
  match line with
  | [] => []
  | c :: r => if N.eqb c hash then line else from_hash r
  end.

(** The body of the loop over the lines. *)
Definition comment_of_line (line : text) : list text :=
  let line := strip line in
  match from_hash line with
  | [] => []
  | _ :: _ =>
      let comment := from_hash line in
      if Nat.ltb 2 (List.length comment) then [comment] else []
  end.

Definition extract_inline_comments (code_snippet : text) : list text :=
  flat_map comment_of_line (splitlines code_snippet).

(** {[
x = 1  # set x
#!
y = 2 # ok
]} *)
Definition sample : text :=
  [120; 32; 61; 32; 49; 32; 32; 35; 32; 115; 101; 116; 32; 120; 10;
   35; 33; 10;
   121; 32; 61; 32; 50; 32; 35; 32; 111; 107; 32; 13; 10]%N.

End Comments.

(** Every function definition and every class definition of the
    subtree has a name child, as the grammar gives them. *)
Fixpoint named_definitions (node : Node) : bool :=
  (if (type node =? "function_definition")
      || (type node =? "class_definition")
   then match child_by_field_name node "name" with
        | Some _ => true
        | None => false
        end
   else true)
  && forallb named_definitions (children node).

(** * Properties *)

Unset Implicit Arguments.

(** ** Strings *)

Lemma startswith_spec (p s : string) :
  startswith p s = true <-> exists r, s = (p ++ r)%string.
Proof.
  revert s; induction p as [|a p IH]; intros s; simpl.
  - split; [intros _; now exists s | reflexivity].
  - destruct s as [|b s].
    + split; [discriminate | intros [r Hr]; discriminate].
    + rewrite andb_true_iff, Ascii.eqb_eq, IH. split.
      * intros [-> [r ->]]. now exists r.
      * intros [r Hr]. injection Hr as -> ->. split; [reflexivity | now exists r].
Qed.

Lemma contains_spec (sub s : string) :
  contains sub s = true <-> occurs_in sub s.
Proof.
  unfold occurs_in. induction s as [|c s IH]; simpl.
  - rewrite orb_false_r, startswith_spec. split.
    + intros [r Hr]. exists EmptyString, r. exact Hr.
    + intros [[|b before] [after H]]; [now exists after | discriminate].
  - rewrite orb_true_iff, startswith_spec, IH. split.
    + intros [[r Hr] | [before [after H]]].
      * exists EmptyString, r. exact Hr.
      * exists (String c before), after. simpl. now rewrite H.
    + intros [[|b before] [after H]].
      * left. now exists after.
      * right. simpl in H. injection H as _ H. now exists before, after.
Qed.

Lemma after_self_app (member : string) :
  after_self ("self." ++ member) = member.
Proof.
  unfold after_self. simpl. rewrite Nat.sub_0_r.
  induction member as [|c m IH]; simpl; [reflexivity | now rewrite IH].
Qed.

(** Cutting at the first dot and joining with a dot gives the text back. *)
Lemma split_dot_1_join (s base member : string) :
  split_dot_1 s = [base; member] -> s = (base ++ "." ++ member)%string.
Proof.
  revert base; induction s as [|c s IH]; intros base; simpl.
  - discriminate.
  - destruct (Ascii.eqb_spec c dot) as [-> | Hc].
    + intros H. injection H as <- <-. reflexivity.
    + destruct (split_dot_1 s) as [|h t] eqn:E.
      * discriminate.
      * intros H. injection H as <- ->. simpl. f_equal. now apply IH.
Qed.

Lemma contains_dot_cons (c : ascii) (s : string) :
  contains "." (String c s) = Ascii.eqb c dot || contains "." s.
Proof.
  change (contains "." (String c s))
    with (Ascii.eqb dot c && true || contains "." s).
  now rewrite andb_true_r, Ascii.eqb_sym.
Qed.

(** A text with a dot is cut in exactly two pieces. *)
Lemma split_dot_1_two (s : string) :
  contains "." s = true -> exists base member, split_dot_1 s = [base; member].
Proof.
  induction s as [|c s IH].
  - discriminate.
  - rewrite contains_dot_cons. cbn [split_dot_1].
    destruct (Ascii.eqb c dot).
    + intros _. now exists EmptyString, s.
    + simpl. intros H. destruct (IH H) as [b [m E]].
      rewrite E. now exists (String c b), m.
Qed.

(** A text without a dot is left whole. *)
Lemma split_dot_1_one (s : string) :
  contains "." s = false -> split_dot_1 s = [s].
Proof.
  induction s as [|c s IH].
  - reflexivity.
  - rewrite contains_dot_cons. cbn [split_dot_1].
    destruct (Ascii.eqb c dot).
    + discriminate.
    + simpl. intros H. now rewrite (IH H).
Qed.

Lemma truthy_Some (c : string) : c <> "" -> truthy (Some c) = true.
Proof.
  intros H. simpl. apply negb_true_iff. now apply String.eqb_neq.
Qed.

Lemma truthy_inv (o : option string) :
  truthy o = true -> exists c, o = Some c /\ c <> "".
Proof.
  destruct o as [c|]; simpl; [|discriminate].
  intros H. exists c. split; [reflexivity|].
  apply negb_true_iff in H. now apply String.eqb_neq.
Qed.

(** With a class name in the slot, [find_calls] records what the position
    in the text asks for. *)
Lemma recorded_callee_in_class (c func_text : string) :
  c <> "" ->
  recorded_callee (Some c) func_text = lexical_callee (InClass (Some c)) func_text.
Proof.
  intros Hc. unfold recorded_callee, lexical_callee.
  rewrite (truthy_Some c Hc), andb_true_r.
  destruct (startswith "self." func_text) eqn:E; [|reflexivity].
  apply startswith_spec in E. destruct E as [member ->].
  now rewrite after_self_app.
Qed.

Lemma recorded_callee_verbatim (slot : option string) (func_text : string) :
  startswith "self." func_text = false \/ truthy slot = false ->
  recorded_callee slot func_text = func_text.
Proof.
  unfold recorded_callee. intros [-> | ->]; [reflexivity|].
  now rewrite andb_false_r.
Qed.

(** ** [find_calls] *)

Lemma find_calls_eq (node : Node) (call_list : list string)
    (slot : option string) :
  find_calls node call_list slot =
  fold_left (fun l child => find_calls child l slot) (children node)
    (if type node =? "call" then
       match child_by_field_name node "function" with
       | Some func_node =>
           call_list ++ [recorded_callee slot (get_node_text func_node)]
       | None => call_list
       end
     else call_list).
Proof. destruct node; reflexivity. Qed.

Lemma callee_texts_eq (node : Node) :
  callee_texts node =
  (if type node =? "call" then
     match child_by_field_name node "function" with
     | Some func_node => [get_node_text func_node]
     | None => []
     end
   else [])
  ++ flat_map callee_texts (children node).
Proof. destruct node; reflexivity. Qed.

Lemma find_calls_children (slot : option string) (l : list Node) :
  Forall (fun child => forall call_list,
            find_calls child call_list slot =
            call_list ++ map (recorded_callee slot) (callee_texts child)) l ->
  forall call_list,
    fold_left (fun acc child => find_calls child acc slot) l call_list =
    call_list ++ map (recorded_callee slot) (flat_map callee_texts l).
Proof.
  induction 1 as [|child rest Hchild _ IH]; intros call_list; simpl.
  - now rewrite app_nil_r.
  - rewrite Hchild, IH, map_app, app_assoc. reflexivity.
Qed.

(** [find_calls] appends, to the list it is given, the recorded form of
    every callee text of the subtree, in scan order. *)
Lemma find_calls_appends (slot : option string) (node : Node) :
  forall call_list,
    find_calls node call_list slot =
    call_list ++ map (recorded_callee slot) (callee_texts node).
Proof.
  induction node as [node IH] using Node_induction. intros call_list.
  rewrite find_calls_eq, callee_texts_eq, map_app.
  rewrite (find_calls_children slot _ IH).
  destruct (type node =? "call"); [|reflexivity].
  destruct (child_by_field_name node "function"); [|reflexivity].
  simpl. now rewrite <- app_assoc.
Qed.

(** ** [traverse] and the definitions it meets *)

Lemma traverse_eq (node : Node) (st : State) :
  traverse node st =
  let st1 := fold_left (fun s child => traverse child s) (children node)
                       (visit node st) in
  if type node =? "class_definition" then set_current_class None st1 else st1.
Proof. destruct node; reflexivity. Qed.

Lemma definitions_eq (node : Node) (slot : option string) :
  definitions node slot =
  let below :=
    fold_left definitions_step (children node)
      ([], if type node =? "class_definition"
           then get_node_text_safe (child_by_field_name node "name")
           else slot) in
  ((if type node =? "function_definition" then
      [(qualify slot (get_node_text_safe (child_by_field_name node "name")),
        find_calls node [] slot)]
    else []) ++ fst below,
   if type node =? "class_definition" then None else snd below).
Proof. destruct node; reflexivity. Qed.

Lemma records_refl (st : State) : records st [] (current_class st) st.
Proof. unfold records. simpl. now rewrite app_nil_r. Qed.

Lemma records_trans st d1 s1 st1 d2 s2 st2 :
  records st d1 s1 st1 -> records st1 d2 s2 st2 ->
  records st (d1 ++ d2) s2 st2.
Proof.
  intros (Hn1 & Hc1 & _) (Hn2 & Hc2 & Hs2). unfold records.
  rewrite Hn2, Hn1, Hc2, Hc1, map_app, fold_left_app, app_assoc. auto.
Qed.

Lemma visit_import_child_keeps (st : State) (child : Node) :
  records st [] (current_class st) (visit_import_child st child).
Proof.
  unfold visit_import_child, records.
  destruct (type child =? "aliased_import"); simpl;
    [now rewrite app_nil_r|].
  destruct (type child =? "dotted_name"); simpl; now rewrite app_nil_r.
Qed.

Lemma visit_imports_keep (l : list Node) (st : State) :
  records st [] (current_class st) (fold_left visit_import_child l st).
Proof.
  revert st; induction l as [|child l IH]; intros st; simpl.
  - apply records_refl.
  - pose proof (visit_import_child_keeps st child) as H1.
    pose proof (IH (visit_import_child st child)) as H2.
    destruct H1 as (_ & _ & Hs). rewrite Hs in H2.
    exact (records_trans _ _ _ _ _ _ _ (visit_import_child_keeps st child) H2).
Qed.

Lemma visit_import_from_keeps (node : Node) (st : State) :
  records st [] (current_class st) (visit_import_from node st).
Proof.
  unfold visit_import_from, records.
  destruct (child_by_field_name node "module"); simpl;
    [|now rewrite app_nil_r].
  destruct (child_by_field_name node "alias"); simpl; now rewrite app_nil_r.
Qed.

Lemma type_exclusive (node : Node) (a b : string) :
  a <> b -> (type node =? a) = true -> (type node =? b) = false.
Proof.
  intros Hab Ha. apply String.eqb_eq in Ha. apply String.eqb_neq. congruence.
Qed.

(** What [visit] records at a node. *)
Lemma visit_records (node : Node) (st : State) :
  records st
    (if type node =? "function_definition" then
       [(qualify (current_class st)
           (get_node_text_safe (child_by_field_name node "name")),
         find_calls node [] (current_class st))]
     else [])
    (if type node =? "class_definition"
     then get_node_text_safe (child_by_field_name node "name")
     else current_class st)
    (visit node st).
Proof.
  unfold visit.
  destruct (type node =? "import_statement") eqn:E1.
  { rewrite (type_exclusive node "import_statement" "function_definition")
      by first [discriminate | assumption].
    rewrite (type_exclusive node "import_statement" "class_definition")
      by first [discriminate | assumption].
    apply visit_imports_keep. }
  destruct (type node =? "import_from_statement") eqn:E2.
  { rewrite (type_exclusive node "import_from_statement" "function_definition")
      by first [discriminate | assumption].
    rewrite (type_exclusive node "import_from_statement" "class_definition")
      by first [discriminate | assumption].
    apply visit_import_from_keeps. }
  destruct (type node =? "class_definition") eqn:E3.
  { rewrite (type_exclusive node "class_definition" "function_definition")
      by first [discriminate | assumption].
    unfold visit_class, records. simpl. now rewrite app_nil_r. }
  destruct (type node =? "function_definition") eqn:E4.
  { unfold visit_function, records. simpl. now rewrite map_app. }
  apply records_refl.
Qed.

Lemma definitions_step_shift (l : list Node) :
  forall acc slot,
    fold_left definitions_step l (acc, slot) =
    (acc ++ fst (fold_left definitions_step l ([], slot)),
     snd (fold_left definitions_step l ([], slot))).
Proof.
  induction l as [|child l IH]; intros acc slot; simpl.
  - now rewrite app_nil_r.
  - unfold definitions_step at 2 4 6. simpl.
    rewrite (IH (acc ++ _)), (IH (fst (definitions child slot))).
    simpl. now rewrite app_assoc.
Qed.

Lemma traverse_children_records (l : list Node) :
  Forall (fun child => forall st,
            records st (fst (definitions child (current_class st)))
                       (snd (definitions child (current_class st)))
                       (traverse child st)) l ->
  forall st,
    records st
      (fst (fold_left definitions_step l ([], current_class st)))
      (snd (fold_left definitions_step l ([], current_class st)))
      (fold_left (fun s child => traverse child s) l st).
Proof.
  induction 1 as [|child l Hchild _ IH]; intros st; simpl.
  - apply records_refl.
  - unfold definitions_step at 2 4. simpl.
    rewrite definitions_step_shift. simpl.
    pose proof (Hchild st) as H1. pose proof (IH (traverse child st)) as H2.
    destruct H1 as (Hn & Hc & Hs). rewrite Hs in H2.
    exact (records_trans _ _ _ _ _ _ _ (conj Hn (conj Hc Hs)) H2).
Qed.

(** [traverse] records the definitions of the subtree, in visit order,
    under the names and call lists the slot gives them. *)
Lemma traverse_records (node : Node) :
  forall st,
    records st (fst (definitions node (current_class st)))
               (snd (definitions node (current_class st)))
               (traverse node st).
Proof.
  induction node as [node IH] using Node_induction. intros st.
  rewrite traverse_eq, definitions_eq. cbv zeta. simpl fst. simpl snd.
  pose proof (visit_records node st) as Hv.
  pose proof (traverse_children_records _ IH (visit node st)) as Hc.
  assert (Hs : current_class (visit node st) =
               if type node =? "class_definition"
               then get_node_text_safe (child_by_field_name node "name")
               else current_class st) by apply Hv.
  rewrite Hs in Hc.
  pose proof (records_trans _ _ _ _ _ _ _ Hv Hc) as H.
  destruct (type node =? "class_definition"); [|exact H].
  destruct H as (Hn & Hcalls & _). unfold records. simpl. auto.
Qed.

(** ** The slot against the position in the text *)

Lemma lexical_defs_eq (sc : Scope) (node : Node) :
  lexical_defs sc node =
  (if type node =? "function_definition" then
     [(lexical_qualify sc
         (get_node_text_safe (child_by_field_name node "name")),
       map (lexical_callee sc) (callee_texts node))]
   else [])
  ++ flat_map (lexical_defs (scope_below node sc)) (children node).
Proof. destruct node; reflexivity. Qed.

Lemma class_free_eq (node : Node) :
  class_free node =
  negb (type node =? "class_definition")
  && forallb class_free (children node).
Proof. destruct node; reflexivity. Qed.

Lemma classes_flat_eq (node : Node) :
  classes_flat node =
  if type node =? "class_definition" then
    truthy (get_node_text_safe (child_by_field_name node "name"))
    && forallb class_free (children node)
  else forallb classes_flat (children node).
Proof. destruct node; reflexivity. Qed.

Lemma qualify_lexical (sc : Scope) (slot name : option string) :
  slot_agrees sc slot -> qualify slot name = lexical_qualify sc name.
Proof.
  destruct sc as [|c]; simpl.
  - intros ->. reflexivity.
  - intros [Hc ->]. unfold qualify. now rewrite Hc.
Qed.

Lemma recorded_callee_lexical (sc : Scope) (slot : option string)
    (func_text : string) :
  slot_agrees sc slot ->
  recorded_callee slot func_text = lexical_callee sc func_text.
Proof.
  destruct sc as [|c]; simpl slot_agrees.
  - intros ->. apply recorded_callee_verbatim. now right.
  - intros [Hc ->]. destruct (truthy_inv c Hc) as [name [-> Hname]].
    now apply recorded_callee_in_class.
Qed.

Lemma find_calls_lexical (sc : Scope) (slot : option string) (node : Node) :
  slot_agrees sc slot ->
  find_calls node [] slot = map (lexical_callee sc) (callee_texts node).
Proof.
  intros H. rewrite find_calls_appends. simpl.
  apply map_ext. intros t. now apply recorded_callee_lexical.
Qed.

Lemma definitions_children (sc : Scope) (slot : option string)
    (l : list Node) :
  Forall (fun child => definitions child slot = (lexical_defs sc child, slot))
         l ->
  forall acc,
    fold_left definitions_step l (acc, slot) =
    (acc ++ flat_map (lexical_defs sc) l, slot).
Proof.
  induction 1 as [|child l Hchild _ IH]; intros acc; simpl.
  - now rewrite app_nil_r.
  - unfold definitions_step at 2. simpl. rewrite Hchild. simpl.
    rewrite IH, app_assoc. reflexivity.
Qed.

(** Below a point without class definitions the slot stays as it is. *)
Lemma class_free_definitions (node : Node) :
  class_free node = true ->
  forall sc slot, slot_agrees sc slot ->
    definitions node slot = (lexical_defs sc node, slot).
Proof.
  induction node as [node IH] using Node_induction.
  rewrite class_free_eq. intros H sc slot Hs.
  apply andb_true_iff in H. destruct H as [Hty Hkids].
  apply negb_true_iff in Hty.
  rewrite definitions_eq, lexical_defs_eq. unfold scope_below.
  rewrite Hty. cbv zeta.
  rewrite (definitions_children sc slot).
  - simpl. destruct (type node =? "function_definition"); [|reflexivity].
    now rewrite (qualify_lexical sc), (find_calls_lexical sc).
  - rewrite forallb_forall in Hkids. rewrite Forall_forall in IH |- *.
    intros child Hin. apply IH; auto.
Qed.

(** Where no class lies inside another and every class has a name, the
    slot gives every definition the name and the call list its position
    in the text asks for. *)
Lemma classes_flat_definitions (node : Node) :
  classes_flat node = true ->
  definitions node None = (lexical_defs TopLevel node, None).
Proof.
  induction node as [node IH] using Node_induction.
  rewrite classes_flat_eq, definitions_eq, lexical_defs_eq.
  unfold scope_below. cbv zeta.
  destruct (type node =? "class_definition") eqn:Hty; intros H.
  - apply andb_true_iff in H. destruct H as [Hname Hkids].
    rewrite (type_exclusive node "class_definition" "function_definition")
      by first [discriminate | assumption].
    set (name := get_node_text_safe (child_by_field_name node "name")) in *.
    rewrite (definitions_children (InClass name) name); [reflexivity|].
    rewrite forallb_forall in Hkids. apply Forall_forall.
    intros child Hin. apply class_free_definitions; [auto|].
    simpl. auto.
  - rewrite (definitions_children TopLevel None).
    + simpl. destruct (type node =? "function_definition"); [|reflexivity].
      now rewrite (find_calls_lexical TopLevel).
    + rewrite forallb_forall in H. rewrite Forall_forall in IH |- *.
      intros child Hin. apply IH; auto.
Qed.

(** ** Dictionaries *)

Section DictFacts.
Context {K V : Type}.
Variable K_dec : forall a b : K, {a = b} + {a <> b}.

Lemma dict_get_set_same (k : K) (v : V) (d : dict K V) :
  dict_get K_dec k (dict_set K_dec k v d) = Some v.
Proof.
  induction d as [|[k' v'] d IH]; simpl.
  - now destruct (K_dec k k).
  - destruct (K_dec k k') as [E|N]; simpl.
    + now destruct (K_dec k k).
    + now destruct (K_dec k k').
Qed.

Lemma dict_get_set_other (k k' : K) (v : V) (d : dict K V) :
  k <> k' -> dict_get K_dec k (dict_set K_dec k' v d) = dict_get K_dec k d.
Proof.
  intros N. induction d as [|[k2 v2] d IH]; simpl.
  - now destruct (K_dec k k').
  - destruct (K_dec k' k2) as [E|N2]; simpl.
    + subst k2. destruct (K_dec k k'); [contradiction | reflexivity].
    + destruct (K_dec k k2); [reflexivity | exact IH].
Qed.

Lemma dict_keys_set (k k' : K) (v : V) (d : dict K V) :
  In k' (dict_keys (dict_set K_dec k v d)) <-> k' = k \/ In k' (dict_keys d).
Proof.
  unfold dict_keys. induction d as [|[k2 v2] d IH]; simpl.
  - intuition.
  - destruct (K_dec k k2) as [E|N]; simpl.
    + subst k2. intuition.
    + rewrite IH. intuition.
Qed.

Lemma dict_keys_set_NoDup (k : K) (v : V) (d : dict K V) :
  NoDup (dict_keys d) -> NoDup (dict_keys (dict_set K_dec k v d)).
Proof.
  unfold dict_keys. induction d as [|[k2 v2] d IH]; simpl; intros H.
  - constructor; [intros [] | constructor].
  - inversion H as [|? ? Hnotin Hrest]; subst.
    destruct (K_dec k k2) as [E|N]; simpl.
    + subst k2. now constructor.
    + constructor; [|now apply IH].
      intros Hin. apply (dict_keys_set k k2 v d) in Hin.
      destruct Hin as [E|Hin]; [now apply N | now apply Hnotin].
Qed.

Lemma dict_get_in_keys (k : K) (d : dict K V) :
  In k (dict_keys d) <-> exists v, dict_get K_dec k d = Some v.
Proof.
  unfold dict_keys. induction d as [|[k2 v2] d IH]; simpl.
  - split; [intros [] | intros [v H]; discriminate].
  - destruct (K_dec k k2) as [E|N].
    + split; [intros _; now exists v2 | intros _; now left].
    + rewrite <- IH. split; [intros [E|H]; [now subst|exact H] | now right].
Qed.

Lemma store_all_app (l1 l2 : list (K * V)) (d : dict K V) :
  store_all K_dec (l1 ++ l2) d = store_all K_dec l2 (store_all K_dec l1 d).
Proof. apply fold_left_app. Qed.

Lemma store_all_keys (l : list (K * V)) (d : dict K V) (k : K) :
  In k (dict_keys (store_all K_dec l d)) <-> In k (map fst l) \/ In k (dict_keys d).
Proof.
  revert d; induction l as [|[k1 v1] l IH]; intros d; simpl.
  - intuition.
  - unfold store_all in *. simpl. rewrite IH, dict_keys_set. intuition.
Qed.

Lemma store_all_NoDup (l : list (K * V)) (d : dict K V) :
  NoDup (dict_keys d) -> NoDup (dict_keys (store_all K_dec l d)).
Proof.
  revert d; induction l as [|[k1 v1] l IH]; intros d H; simpl.
  - exact H.
  - apply IH. now apply dict_keys_set_NoDup.
Qed.

Lemma store_all_untouched (l : list (K * V)) (d : dict K V) (k : K) :
  ~ In k (map fst l) ->
  dict_get K_dec k (store_all K_dec l d) = dict_get K_dec k d.
Proof.
  revert d; induction l as [|[k1 v1] l IH]; intros d H; simpl.
  - reflexivity.
  - unfold store_all in *. simpl in *. rewrite IH by tauto.
    apply dict_get_set_other. intros E. apply H. now left.
Qed.

(** The last pair stored under a key is the one found there. *)
Lemma store_all_last (earlier later : list (K * V)) (d : dict K V)
    (k : K) (v : V) :
  ~ In k (map fst later) ->
  dict_get K_dec k (store_all K_dec (earlier ++ (k, v) :: later) d) = Some v.
Proof.
  intros H. rewrite store_all_app.
  change (store_all K_dec ((k, v) :: later) (store_all K_dec earlier d))
    with (store_all K_dec later
            (dict_set K_dec k v (store_all K_dec earlier d))).
  rewrite store_all_untouched by exact H.
  apply dict_get_set_same.
Qed.
End DictFacts.

(** ** What the extraction of a tree holds *)

Lemma symbols_of_records (root_node : Node) :
  map func_name (functions (symbols_of root_node)) =
    map fst (fst (definitions root_node None))
  /\ calls (symbols_of root_node) =
     store_all key_dec (fst (definitions root_node None)) [].
Proof.
  destruct (traverse_records root_node (mkState None empty_file_symbols))
    as (Hn & Hc & _).
  split; [exact Hn | exact Hc].
Qed.

Lemma class_entry_sets_slot (node : Node) (st : State) :
  (type node =? "class_definition") = true ->
  current_class (visit node st) =
  get_node_text_safe (child_by_field_name node "name").
Proof.
  intros H. destruct (visit_records node st) as (_ & _ & Hs).
  now rewrite H in Hs.
Qed.

Lemma class_exit_clears_slot (node : Node) (st : State) :
  (type node =? "class_definition") = true ->
  current_class (traverse node st) = None.
Proof. intros H. rewrite traverse_eq. cbv zeta. now rewrite H. Qed.

(** C4, as amended.  [find_calls], given a class name that is not empty,
    records a callee text that begins with "self." as the class name, a
    dot and the member text, and every other callee text as written;
    given no class name it records every callee text as written.  In a
    tree where no class lies inside another and every class is named, the
    class name it is given is the class around the function, so every
    stored call list is the one the position in the text asks for. *)
Theorem self_calls_rewritten_by_slot :
  (forall node call_list c,
      c <> "" ->
      find_calls node call_list (Some c) =
      call_list ++ map (lexical_callee (InClass (Some c))) (callee_texts node))
  /\ (forall node call_list slot,
         truthy slot = false ->
         find_calls node call_list slot = call_list ++ callee_texts node)
  /\ (forall root_node,
         classes_flat root_node = true -> calls_by_position root_node).
Proof.
  split; [|split].
  - intros node call_list c Hc. rewrite find_calls_appends. f_equal.
    apply map_ext. intros t. now apply recorded_callee_in_class.
  - intros node call_list slot Hs. rewrite find_calls_appends. f_equal.
    rewrite <- (map_id (callee_texts node)) at 2.
    apply map_ext. intros t. apply recorded_callee_verbatim. now right.
  - intros root_node H. unfold calls_by_position.
    destruct (symbols_of_records root_node) as [_ Hc].
    rewrite Hc, (classes_flat_definitions root_node H). reflexivity.
Qed.

Lemma self_calls_rewritten_by_slot_witness :
  find_calls (Samples.method 1 "speak" "bark") [] (Some "Dog") = ["Dog.bark"]
  /\ find_calls (Samples.method 1 "speak" "bark") [] None = ["self.bark"]
  /\ calls_by_position Samples.dog_tree.
Proof.
  split; [|split].
  - apply (proj1 self_calls_rewritten_by_slot
             (Samples.method 1 "speak" "bark") [] "Dog").
    discriminate.
  - apply (proj1 (proj2 self_calls_rewritten_by_slot)
             (Samples.method 1 "speak" "bark") [] None).
    reflexivity.
  - apply (proj2 (proj2 self_calls_rewritten_by_slot) Samples.dog_tree).
    reflexivity.
Defined.

(** C4 as stated fails: in
    {[
class A:
    class B:
        pass
    def f(self):
        self.g()
    ]}
    the method [f] stands inside class [A] and calls [self.g], yet the
    call is stored as "self.g", not as "A.g": the slot was cleared when
    class [B] ended. *)
Lemma self_call_after_nested_class :
  calls (symbols_of Samples.nested_tree) = [(Some "f", ["self.g"])]
  /\ ~ calls_by_position Samples.nested_tree.
Proof.
  split; [reflexivity|].
  unfold calls_by_position. vm_compute. discriminate.
Qed.

(** C5, as amended.  The qualified name of a function definition is the
    name in the slot, a dot and the function name when the slot holds a
    non-empty name, and the bare function name otherwise; the slot is set
    to the class name on entering a class definition and cleared on
    leaving it.  In a tree where no class lies inside another and every
    class is named, this is the name the position in the text asks for:
    class, dot, function inside a class, the bare name outside. *)
Theorem qualified_names_by_slot :
  (forall root_node,
      map func_name (functions (symbols_of root_node)) =
      map fst (fst (definitions root_node None)))
  /\ (forall node st,
         (type node =? "class_definition") = true ->
         current_class (visit node st) =
           get_node_text_safe (child_by_field_name node "name")
         /\ current_class (traverse node st) = None)
  /\ (forall root_node,
         classes_flat root_node = true -> qualified_by_position root_node).
Proof.
  split; [|split].
  - intros root_node. apply symbols_of_records.
  - intros node st H. split.
    + now apply class_entry_sets_slot.
    + now apply class_exit_clears_slot.
  - intros root_node H. unfold qualified_by_position.
    destruct (symbols_of_records root_node) as [Hn _].
    rewrite Hn, (classes_flat_definitions root_node H). reflexivity.
Qed.

Lemma qualified_names_by_slot_witness :
  (current_class
     (visit Samples.attr_class (mkState None empty_file_symbols)) = Some "Dog"
   /\ current_class
        (traverse Samples.attr_class (mkState None empty_file_symbols)) = None)
  /\ qualified_by_position Samples.dog_tree.
Proof.
  split.
  - apply (proj1 (proj2 qualified_names_by_slot) Samples.attr_class).
    reflexivity.
  - apply (proj2 (proj2 qualified_names_by_slot) Samples.dog_tree).
    reflexivity.
Defined.

(** C5 as stated fails on the same source: [f] is defined inside class
    [A] but is extracted as "f", not as "A.f". *)
Lemma method_after_nested_class :
  map func_name (functions (symbols_of Samples.nested_tree)) = [Some "f"]
  /\ ~ qualified_by_position Samples.nested_tree.
Proof.
  split; [reflexivity|].
  unfold qualified_by_position. vm_compute. discriminate.
Qed.

(** C10.  The keys of [calls] are the qualified names of the extracted
    functions, each key once; and the call list found under a name is
    that of the last definition visited with this name. *)
Theorem calls_keys_are_function_names (root_node : Node) :
  (forall k,
      In k (dict_keys (calls (symbols_of root_node))) <->
      In k (map func_name (functions (symbols_of root_node))))
  /\ NoDup (dict_keys (calls (symbols_of root_node)))
  /\ map func_name (functions (symbols_of root_node)) =
     map fst (fst (definitions root_node None))
  /\ (forall earlier k call_list later,
         fst (definitions root_node None) =
           earlier ++ (k, call_list) :: later ->
         ~ In k (map fst later) ->
         dict_get key_dec k (calls (symbols_of root_node)) = Some call_list).
Proof.
  destruct (symbols_of_records root_node) as [Hn Hc].
  rewrite Hn, Hc. repeat split.
  - intros H. apply store_all_keys in H. destruct H as [H|[]]. exact H.
  - intros H. apply store_all_keys. now left.
  - apply store_all_NoDup. constructor.
  - intros earlier k call_list later E Hlast. rewrite E.
    now apply store_all_last.
Qed.

Lemma calls_keys_are_function_names_witness :
  dict_get key_dec (Some "run") (calls (symbols_of Samples.twice_tree))
  = Some ["second"].
Proof.
  apply (proj2 (proj2 (proj2
           (calls_keys_are_function_names Samples.twice_tree)))
         [(Some "run", ["first"])] (Some "run") ["second"] []).
  - reflexivity.
  - simpl. tauto.
Defined.

(** ** Class attributes *)

(** C6, at the source
    {[
class Dog:
    x = 1
    ]}
    The class body holds the assignment [x = 1].  The scan of
    [visit_class] goes over the children of the class definition itself,
    which are the name and the body block; the statement is a child of
    the block, where the same scan would have found "x".  The class is
    extracted without attributes, and the linker issues no upsert for an
    [Attribute] node or a [HAS_ATTRIBUTE] edge. *)
Theorem class_body_assignment_not_collected :
  map type (named_children Samples.attr_class) = ["identifier"; "block"]
  /\ option_map (fun body => flat_map attrs_of_child (named_children body))
       (child_by_field_name Samples.attr_class "body") = Some ["x"]
  /\ map cls_attributes (classes (symbols_of Samples.attr_tree)) = [[]]
  /\ (forall (driver : Driver) (before : list Upsert),
         let calls_made :=
           Run.issued
             (populate_graph_from_code_data driver []
                [("dog.py", symbols_of Samples.attr_tree)]) before in
         let file_and_class :=
           [ merge_node "File"
               [("path", VStr "dog.py"); ("name", VStr "dog.py")] "path";
             merge_node "Class"
               [("id", VStr "dog.py::Dog");
                ("name", VStr "Dog");
                ("lineno", VInt 1);
                ("end_lineno", VInt 2);
                ("file_path", VStr "dog.py");
                ("code_snippet", VStr (get_node_text Samples.attr_class))]
               "id";
             merge_relationship "File" "path" (VStr "dog.py")
               "CONTAINS_CLASS" "Class" "id" (VStr "dog.py::Dog") [] ] in
         (exists n, calls_made = firstn n file_and_class)
         /\ (Run.outcome
               (populate_graph_from_code_data driver []
                  [("dog.py", symbols_of Samples.attr_tree)]) before
               = Returned tt ->
             calls_made = file_and_class)).
Proof.
  split; [reflexivity|]. split; [reflexivity|]. split; [reflexivity|].
  intros driver before. unfold Run.issued, Run.outcome. vm_compute.
  repeat match goal with
         | |- context [match driver ?h ?q with _ => _ end] =>
             destruct (driver h q) as [[]|]
         end;
    (split;
     [ first [ now exists 1 | now exists 2 | now exists 3 ]
     | first [ discriminate | reflexivity ] ]).
Qed.

(** ** Determinism of the extraction *)




(** ** The pattern detector *)

Lemma detect_loop (l : list ClassSymbol) (patterns : list PatternEntry) :
  fold_left
    (fun patterns cls =>
       let cls_code := cls_code_snippet cls in
       if contains "__new__" cls_code && contains "cls._instance" cls_code
       then patterns ++ [singleton_entry cls]
       else patterns) l patterns
  = patterns ++ map singleton_entry (filter has_singleton_markers l).
Proof.
  revert patterns; induction l as [|cls l IH]; intros patterns; simpl.
  - now rewrite app_nil_r.
  - rewrite IH. unfold has_singleton_markers at 2.
    destruct (contains "__new__" (cls_code_snippet cls)
              && contains "cls._instance" (cls_code_snippet cls)); simpl.
    + now rewrite <- app_assoc.
    + reflexivity.
Qed.

(** C9.  The detector returns, in class order, one Singleton entry (class
    name as subject, role Singleton) for each class whose code snippet
    contains both "__new__" and "cls._instance", and nothing else. *)
Theorem singleton_tag_iff_both_markers (filepath : string)
    (code_symbols : FileSymbols) :
  detect_design_patterns filepath code_symbols =
    map singleton_entry (filter has_singleton_markers (classes code_symbols))
  /\ (forall cls,
         has_singleton_markers cls = true <->
         occurs_in "__new__" (cls_code_snippet cls)
         /\ occurs_in "cls._instance" (cls_code_snippet cls))
  /\ (forall entry,
         In entry (detect_design_patterns filepath code_symbols) <->
         exists cls,
           In cls (classes code_symbols)
           /\ entry = mkPatternEntry "Singleton" (cls_name cls) "Singleton"
           /\ occurs_in "__new__" (cls_code_snippet cls)
           /\ occurs_in "cls._instance" (cls_code_snippet cls)).
Proof.
  assert (Hm : forall cls,
             has_singleton_markers cls = true <->
             occurs_in "__new__" (cls_code_snippet cls)
             /\ occurs_in "cls._instance" (cls_code_snippet cls)).
  { intros cls. unfold has_singleton_markers.
    now rewrite andb_true_iff, !contains_spec. }
  assert (Hd : detect_design_patterns filepath code_symbols =
               map singleton_entry
                   (filter has_singleton_markers (classes code_symbols))).
  { unfold detect_design_patterns. now rewrite detect_loop. }
  split; [exact Hd|]. split; [exact Hm|].
  intros entry. rewrite Hd, in_map_iff. split.
  - intros [cls [<- Hin]]. apply filter_In in Hin. destruct Hin as [Hin Hb].
    exists cls. apply Hm in Hb. unfold singleton_entry. tauto.
  - intros [cls (Hin & -> & H1 & H2)]. exists cls. split; [reflexivity|].
    apply filter_In. split; [exact Hin|]. apply Hm. tauto.
Qed.

(** ** More on dictionaries: where a stored value comes from *)

Section DictOrigin.
Context {K V : Type}.
Variable K_dec : forall a b : K, {a = b} + {a <> b}.

Lemma last_occurrence (l : list (K * V)) (k : K) :
  In k (map fst l) ->
  exists a v b, l = a ++ (k, v) :: b /\ ~ In k (map fst b).
Proof.
  induction l as [|[k1 v1] l IH]; simpl; [intros []|].
  intros H. destruct (in_dec K_dec k (map fst l)) as [Hin|Hnot].
  - destruct (IH Hin) as (a & v & b & -> & Hb).
    now exists ((k1, v1) :: a), v, b.
  - destruct H as [->|H]; [|contradiction].
    now exists [], v1, l.
Qed.

Lemma store_all_origin (l : list (K * V)) (k : K) (v : V) :
  dict_get K_dec k (store_all K_dec l []) = Some v -> In (k, v) l.
Proof.
  intros H. destruct (in_dec K_dec k (map fst l)) as [Hin|Hnot].
  - destruct (last_occurrence l k Hin) as (a & w & b & -> & Hb).
    rewrite (store_all_last K_dec) in H by exact Hb.
    injection H as ->. apply in_or_app. right. now left.
  - rewrite (store_all_untouched K_dec) in H by exact Hnot. discriminate.
Qed.

End DictOrigin.

(** ** The corpus indexer *)

Lemma register_all (relative_filepath : string) (names : list (option string)) :
  forall table,
    fold_left (register relative_filepath) names table =
    store_all key_dec
      (map (fun name =>
              (name, (relative_filepath ++ "::" ++ render name)%string)) names)
      table.
Proof.
  induction names as [|name names IH]; intros table; simpl.
  - reflexivity.
  - now rewrite IH.
Qed.

Lemma index_file_effect (parse : string -> Outcome Node) (ix : Index)
    (file : FileEntry) :
  symbol_table (index_file parse ix file) =
    store_all key_dec (file_entries parse file) (symbol_table ix)
  /\ code_graph_data (index_file parse ix file) =
     store_all string_dec (file_data parse file) (code_graph_data ix)
  /\ stdout (index_file parse ix file) = stdout ix ++ file_errors parse file.
Proof.
  destruct file as [[path content] sha].
  unfold index_file, file_entries, file_data, file_errors, file_content,
    file_path, produced_names. simpl.
  destruct (extract_symbols_from_code parse content) as [symbols|e]; simpl.
  - rewrite !register_all, map_app, (store_all_app key_dec), app_nil_r. auto.
  - auto.
Qed.

Lemma index_files_effect (parse : string -> Outcome Node)
    (python_files : list FileEntry) :
  forall ix,
    symbol_table (index_files parse python_files ix) =
      store_all key_dec (flat_map (file_entries parse) python_files)
                (symbol_table ix)
    /\ code_graph_data (index_files parse python_files ix) =
       store_all string_dec (flat_map (file_data parse) python_files)
                 (code_graph_data ix)
    /\ stdout (index_files parse python_files ix) =
       stdout ix ++ flat_map (file_errors parse) python_files.
Proof.
  unfold index_files.
  induction python_files as [|file rest IH]; intros ix; simpl.
  - now rewrite app_nil_r.
  - destruct (IH (index_file parse ix file)) as (Ht & Hd & Ho).
    destruct (index_file_effect parse ix file) as (Ht1 & Hd1 & Ho1).
    rewrite Ht, Hd, Ho, Ht1, Hd1, Ho1.
    rewrite (store_all_app key_dec), (store_all_app string_dec), app_assoc.
    auto.
Qed.

Lemma build_is_index_files os_path_join os_path_normpath git_Repo parse
    (repo_path commit_hash : string) (python_files : list FileEntry)
    (printed : Stdout) :
  commit_hash <> "" ->
  get_repo_structure_at_commit os_path_join os_path_normpath git_Repo
    repo_path commit_hash = Returned (python_files, printed) ->
  exists out,
    build_code_symbol_graph_data os_path_join os_path_normpath git_Repo
      parse repo_path (Some commit_hash) =
    Returned (index_files parse python_files (fresh_index out)).
Proof.
  intros H Hlist. unfold build_code_symbol_graph_data.
  rewrite (truthy_Some commit_hash H), Hlist.
  eexists. reflexivity.
Qed.

Lemma file_entries_value parse file name id :
  In (name, id) (file_entries parse file) ->
  produces parse file name
  /\ id = (file_path file ++ "::" ++ render name)%string.
Proof.
  unfold file_entries, produces.
  destruct (extract_symbols_from_code parse (file_content file))
    as [symbols|e]; [|intros []].
  intros H. apply in_map_iff in H. destruct H as (n & E & Hin).
  injection E as -> <-. split; [|reflexivity]. now exists symbols.
Qed.

Lemma file_entries_keys parse file name :
  In name (map fst (file_entries parse file)) <-> produces parse file name.
Proof.
  split.
  - intros H. apply in_map_iff in H. destruct H as ([n id] & E & Hin).
    simpl in E. subst n. now apply file_entries_value in Hin.
  - intros (symbols & E & Hin). unfold file_entries. rewrite E.
    rewrite map_map. simpl. now rewrite map_id.
Qed.

Lemma later_files_silent parse (later : list FileEntry) name :
  (forall other, In other later -> ~ produces parse other name) ->
  ~ In name (map fst (flat_map (file_entries parse) later)).
Proof.
  intros H Hin. apply in_map_iff in Hin. destruct Hin as ([n id] & E & Hin).
  simpl in E. subst n. apply in_flat_map in Hin.
  destruct Hin as (other & Hother & Hin).
  apply file_entries_value in Hin. now apply (H other Hother).
Qed.

(** C1, as amended.  The symbol table is filled in one pass over the
    files in the order in which [get_repo_structure_at_commit] lists them
    (no sorting takes place); every function and class name of a file
    that is extracted is mapped to path, "::", name; and where several
    files produce a name, the entry of the file listed last stands.  A
    name no listed file produces has no entry. *)
Theorem last_listed_file_wins os_path_join os_path_normpath git_Repo parse
    (repo_path commit_hash : string) (printed : Stdout)
    (earlier later : list FileEntry) (file : FileEntry)
    (name : option string) :
  commit_hash <> "" ->
  get_repo_structure_at_commit os_path_join os_path_normpath git_Repo
    repo_path commit_hash = Returned (earlier ++ file :: later, printed) ->
  produces parse file name ->
  (forall other, In other later -> ~ produces parse other name) ->
  exists ix,
    build_code_symbol_graph_data os_path_join os_path_normpath git_Repo
      parse repo_path (Some commit_hash) = Returned ix
    /\ dict_get key_dec name (symbol_table ix)
       = Some (file_path file ++ "::" ++ render name)%string
    /\ (forall any id,
           dict_get key_dec any (symbol_table ix) = Some id ->
           exists source,
             In source (earlier ++ file :: later)
             /\ produces parse source any
             /\ id = (file_path source ++ "::" ++ render any)%string).
Proof.
  intros Hhash Hfiles Hfile Hlater.
  destruct (build_is_index_files os_path_join os_path_normpath git_Repo
              parse repo_path commit_hash _ _ Hhash Hfiles) as [out ->].
  eexists. split; [reflexivity|].
  destruct (index_files_effect parse (earlier ++ file :: later)
              (fresh_index out)) as (-> & _ & _).
  simpl symbol_table. split.
  - rewrite flat_map_app. simpl flat_map.
    apply file_entries_keys in Hfile.
    destruct (last_occurrence key_dec _ _ Hfile) as (a & id & b & E & Hb).
    assert (Hid : id = (file_path file ++ "::" ++ render name)%string).
    { apply (file_entries_value parse file name id).
      rewrite E. apply in_or_app. right. now left. }
    rewrite E, <- app_assoc, app_assoc. simpl.
    rewrite (store_all_last key_dec), Hid; [reflexivity|].
    rewrite map_app. intros Hin. apply in_app_or in Hin.
    destruct Hin as [Hin|Hin]; [now apply Hb|].
    now apply (later_files_silent parse later name Hlater).
  - intros any id H. apply (store_all_origin key_dec) in H.
    apply in_flat_map in H. destruct H as (source & Hsrc & Hin).
    apply file_entries_value in Hin. exists source. tauto.
Qed.

Lemma last_listed_file_wins_witness :
  exists ix,
    build_code_symbol_graph_data Samples.posix_join Samples.normpath
      Samples.git_Repo Samples.parse "repo" (Some "c0ffee") = Returned ix
    /\ dict_get key_dec (Some "run") (symbol_table ix) = Some "aZ.py::run".
Proof.
  destruct (last_listed_file_wins Samples.posix_join Samples.normpath
              Samples.git_Repo Samples.parse "repo" "c0ffee" []
              [("a/x.py", Samples.run_source, "1f7a")] []
              ("aZ.py", Samples.run_source, "2e0c") (Some "run"))
    as (ix & Hix & Hget & _).
  - discriminate.
  - reflexivity.
  - exists (symbols_of Samples.run_tree). split; [reflexivity|]. now left.
  - intros other [].
  - exists ix. split; [exact Hix | exact Hget].
Defined.

(** C1 as stated fails.  With the path separator of Windows, the tree
    that holds the directory [a] (with [x.py]) and the file [aZ.py] is
    listed as [a\x.py], [aZ.py]: git keeps the directory first.  In path
    order [aZ.py] comes before [a\x.py], so the later path is [a\x.py];
    both files define [run], and the table holds [aZ.py::run]. *)
Lemma walk_order_is_not_path_order :
  get_repo_structure_at_commit Samples.nt_join Samples.normpath
    Samples.git_Repo "repo" "c0ffee"
  = Returned ([("a\x.py", Samples.run_source, "1f7a");
               ("aZ.py", Samples.run_source, "2e0c")], [])
  /\ String.ltb "aZ.py" "a\x.py" = true
  /\ option_map (dict_get key_dec (Some "run"))
       (match build_code_symbol_graph_data Samples.nt_join Samples.normpath
                Samples.git_Repo Samples.parse "repo" (Some "c0ffee") with
        | Returned ix => Some (symbol_table ix)
        | Raised _ => None
        end) = Some (Some "aZ.py::run")
  /\ ~ latest_path_wins Samples.nt_join Samples.normpath Samples.git_Repo
         Samples.parse "repo" "c0ffee".
Proof.
  repeat split.
  intros H.
  assert (Hrun : forall file,
             file_content file = Samples.run_source ->
             produces Samples.parse file (Some "run")).
  { intros file E. exists (symbols_of Samples.run_tree). rewrite E.
    split; [reflexivity | now left]. }
  destruct (H _ _ ("a\x.py", Samples.run_source, "1f7a") (Some "run")
              eq_refl) as (ix & Hix & Hget).
  - now left.
  - now apply Hrun.
  - intros other [<-|[<-|[]]] _; reflexivity.
  - vm_compute in Hix. injection Hix as <-.
    vm_compute in Hget. discriminate.
Qed.

(** ** A file that cannot be extracted *)







(** ** More on strings: dots *)

Lemma string_app_assoc (a b c : string) :
  ((a ++ b) ++ c = a ++ b ++ c)%string.
Proof. induction a as [|x a IH]; simpl; [reflexivity | now rewrite IH]. Qed.

Lemma split_dot_1_app (base member : string) :
  contains "." base = false ->
  split_dot_1 (base ++ "." ++ member) = [base; member].
Proof.
  induction base as [|c base IH].
  - reflexivity.
  - rewrite contains_dot_cons. intros H. apply orb_false_iff in H.
    destruct H as [Hc Hbase]. simpl. rewrite Hc.
    change (split_dot_1 (base ++ String "." member))
      with (split_dot_1 (base ++ "." ++ member)).
    now rewrite (IH Hbase).
Qed.

Lemma split_dot_app (a b : string) :
  contains "." a = false ->
  split_dot (a ++ "." ++ b) = a :: split_dot b.
Proof.
  induction a as [|c a IH].
  - reflexivity.
  - rewrite contains_dot_cons. intros H. apply orb_false_iff in H.
    destruct H as [Hc Ha]. simpl. rewrite Hc.
    change (split_dot (a ++ String "." b)) with (split_dot (a ++ "." ++ b)).
    now rewrite (IH Ha).
Qed.

Lemma split_dot_whole (s : string) :
  contains "." s = false -> split_dot s = [s].
Proof.
  induction s as [|c s IH].
  - reflexivity.
  - rewrite contains_dot_cons. intros H. apply orb_false_iff in H.
    destruct H as [Hc Hs]. simpl. now rewrite Hc, (IH Hs).
Qed.

(** What stands before the first dot holds no dot. *)
Lemma split_dot_1_base (s : string) :
  forall base member,
    split_dot_1 s = [base; member] -> contains "." base = false.
Proof.
  induction s as [|c s IH]; intros base member; simpl; [discriminate|].
  destruct (Ascii.eqb c dot) eqn:Ec.
  - intros H. injection H as <- _. reflexivity.
  - destruct (split_dot_1 s) as [|h t] eqn:Es; [discriminate|].
    intros H. injection H as <- ->. rewrite contains_dot_cons, Ec.
    simpl. now apply (IH h member).
Qed.

Lemma contains_dot_app (a b : string) :
  contains "." (a ++ "." ++ b) = true.
Proof.
  apply contains_spec. exists a, b. reflexivity.
Qed.

(** ** Computations that call the store *)

Lemma bind_returns {A B : Type} (m : Run.t A) (k : A -> Run.t B)
    (before : list Upsert) (b : B) :
  Run.outcome (Run.bind m k) before = Returned b ->
  exists a,
    Run.outcome m before = Returned a
    /\ Run.outcome (k a) (before ++ Run.issued m before) = Returned b.
Proof.
  unfold Run.outcome, Run.issued, Run.bind.
  destruct (m before) as [w [a|e]]; simpl.
  - intros H. now exists a.
  - discriminate.
Qed.

Lemma bind_issued {A B : Type} (m : Run.t A) (k : A -> Run.t B)
    (before : list Upsert) (a : A) :
  Run.outcome m before = Returned a ->
  Run.issued (Run.bind m k) before
  = Run.issued m before ++ Run.issued (k a) (before ++ Run.issued m before)
  /\ Run.outcome (Run.bind m k) before
     = Run.outcome (k a) (before ++ Run.issued m before).
Proof.
  unfold Run.outcome, Run.issued, Run.bind.
  destruct (m before) as [w r]; simpl. intros ->. auto.
Qed.

Lemma bind_raises {A B : Type} (m : Run.t A) (k : A -> Run.t B)
    (before : list Upsert) (e : string) :
  Run.outcome m before = Raised e ->
  Run.issued (Run.bind m k) before = Run.issued m before
  /\ Run.outcome (Run.bind m k) before = Raised e.
Proof.
  unfold Run.outcome, Run.issued, Run.bind.
  destruct (m before) as [w r]; simpl. intros ->. auto.
Qed.

Lemma bind_issued_left {A B : Type} (m : Run.t A) (k : A -> Run.t B)
    (before : list Upsert) (u : Upsert) :
  In u (Run.issued m before) -> In u (Run.issued (Run.bind m k) before).
Proof.
  unfold Run.issued, Run.bind.
  destruct (m before) as [w [a|e]]; simpl; intros H.
  - apply in_or_app. now left.
  - exact H.
Qed.

Lemma bind_issued_right {A B : Type} (m : Run.t A) (k : A -> Run.t B)
    (before : list Upsert) (a : A) (u : Upsert) :
  Run.outcome m before = Returned a ->
  In u (Run.issued (k a) (before ++ Run.issued m before)) ->
  In u (Run.issued (Run.bind m k) before).
Proof.
  intros Hm H. destruct (bind_issued m k before a Hm) as [-> _].
  apply in_or_app. now right.
Qed.

(** What a sequence issued was issued by its first part or by the rest. *)
Lemma bind_issued_inv {A B : Type} (m : Run.t A) (k : A -> Run.t B)
    (before : list Upsert) (u : Upsert) :
  In u (Run.issued (Run.bind m k) before) ->
  In u (Run.issued m before)
  \/ exists a, In u (Run.issued (k a) (before ++ Run.issued m before)).
Proof.
  unfold Run.issued, Run.bind.
  destruct (m before) as [w [a|e]]; simpl; intros H.
  - apply in_app_or in H. destruct H as [H|H]; [now left|].
    right. now exists a.
  - now left.
Qed.

Lemma seq_returns (m k : Run.t unit) (before : list Upsert) :
  Run.outcome (m ;; k) before = Returned tt ->
  Run.outcome m before = Returned tt
  /\ Run.outcome k (before ++ Run.issued m before) = Returned tt.
Proof.
  intros H. destruct (bind_returns _ _ _ _ H) as ([] & Hm & Hk). auto.
Qed.

Lemma seq_in_right (m k : Run.t unit) (before : list Upsert) (u : Upsert) :
  Run.outcome m before = Returned tt ->
  In u (Run.issued k (before ++ Run.issued m before)) ->
  In u (Run.issued (m ;; k) before).
Proof. intros Hm. now apply (bind_issued_right m (fun _ => k) before tt). Qed.

(** ** Parts of a run that reached its end *)

Lemma within_trans (a b c : Run.t unit) (at_a at_b at_c : list Upsert) :
  within a at_a b at_b -> within b at_b c at_c -> within a at_a c at_c.
Proof.
  intros [Ha Hab] [_ Hbc]. split; [exact Ha|].
  intros u Hu. apply Hbc, Hab, Hu.
Qed.

Lemma within_first (m k : Run.t unit) (before : list Upsert) :
  Run.outcome (m ;; k) before = Returned tt ->
  within m before (m ;; k) before.
Proof.
  intros H. apply seq_returns in H. destruct H as [Hm _].
  split; [exact Hm|]. intros u. apply bind_issued_left.
Qed.

Lemma within_rest (m k : Run.t unit) (before : list Upsert) :
  Run.outcome (m ;; k) before = Returned tt ->
  within k (before ++ Run.issued m before) (m ;; k) before.
Proof.
  intros H. apply seq_returns in H. destruct H as [Hm Hk].
  split; [exact Hk|]. intros u. now apply seq_in_right.
Qed.

(** A loop that runs to its end has run every body to its end, and has
    issued what each body issued. *)
Lemma within_for_each {A : Type} (l : list A) (body : A -> Run.t unit)
    (x : A) :
  forall before,
    Run.outcome (Run.for_each l body) before = Returned tt ->
    In x l ->
    exists start, within (body x) start (Run.for_each l body) before.
Proof.
  induction l as [|y l IH]; intros before H Hin; [destruct Hin|].
  change (Run.for_each (y :: l) body)
    with (body y ;; Run.for_each l body) in *.
  destruct Hin as [->|Hin].
  - exists before. now apply within_first.
  - pose proof (within_rest _ _ _ H) as Hrest.
    destruct (IH _ (proj1 Hrest) Hin) as [start Hx].
    exists start. exact (within_trans _ _ _ _ _ _ Hx Hrest).
Qed.

(** What a loop issued was issued by one of its bodies. *)
Lemma for_each_issued_inv {A : Type} (l : list A) (body : A -> Run.t unit)
    (u : Upsert) :
  forall before,
    In u (Run.issued (Run.for_each l body) before) ->
    exists x start, In x l /\ In u (Run.issued (body x) start).
Proof.
  induction l as [|y l IH]; intros before H; [destruct H|].
  change (Run.for_each (y :: l) body)
    with (body y ;; Run.for_each l body) in H.
  apply bind_issued_inv in H. destruct H as [H|[_ H]].
  - exists y, before. split; [now left | exact H].
  - destruct (IH _ H) as (x & start & Hx & Hu).
    exists x, start. split; [now right | exact Hu].
Qed.

(** A call is issued whether or not the store takes it. *)
Lemma emit_issued (driver : Driver) (u : Upsert) (before : list Upsert) :
  Run.issued (Run.emit driver u) before = [u].
Proof. reflexivity. Qed.

Lemma emit_then_issued (driver : Driver) (u : Upsert) (k : Run.t unit)
    (before : list Upsert) :
  In u (Run.issued (Run.emit driver u ;; k) before).
Proof. apply bind_issued_left. now left. Qed.

(** ** What a run that reached its end has issued *)

Section Filtered.
Variable P : Upsert -> bool.

Lemma filter_bind {A B : Type} (m : Run.t A) (k : A -> Run.t B)
    (before : list Upsert) (a : A) :
  Run.outcome m before = Returned a ->
  filter P (Run.issued (Run.bind m k) before)
  = filter P (Run.issued m before)
    ++ filter P (Run.issued (k a) (before ++ Run.issued m before)).
Proof.
  intros Hm. destruct (bind_issued m k before a Hm) as [-> _].
  apply filter_app.
Qed.

Lemma filter_for_each {A : Type} (l : list A) (body : A -> Run.t unit)
    (F : A -> list Upsert) :
  (forall x start,
      In x l -> Run.outcome (body x) start = Returned tt ->
      filter P (Run.issued (body x) start) = F x) ->
  forall before,
    Run.outcome (Run.for_each l body) before = Returned tt ->
    filter P (Run.issued (Run.for_each l body) before) = flat_map F l.
Proof.
  induction l as [|y l IH]; intros HF before H; [reflexivity|].
  change (Run.for_each (y :: l) body)
    with (body y ;; Run.for_each l body) in *.
  destruct (seq_returns _ _ _ H) as [Hy Hrest].
  rewrite (filter_bind _ _ _ tt Hy). simpl. f_equal.
  - apply HF; [now left | exact Hy].
  - apply IH; [|exact Hrest]. intros x start Hx. apply HF. now right.
Qed.

Lemma filter_nothing (l : list Upsert) :
  Forall (fun u => P u = false) l -> filter P l = [].
Proof.
  induction 1 as [|u l Hu _ IH]; simpl; [reflexivity|]. now rewrite Hu.
Qed.

(** The same for a run that may have stopped on the way: what it has
    issued is the beginning of what it issues when it reaches its end. *)
Lemma filter_for_each_initial {A : Type} (l : list A)
    (body : A -> Run.t unit) (F : A -> list Upsert) :
  (forall x start,
      In x l -> initial_part (filter P (Run.issued (body x) start)) (F x)) ->
  (forall x start,
      In x l -> Run.outcome (body x) start = Returned tt ->
      filter P (Run.issued (body x) start) = F x) ->
  forall before,
    initial_part (filter P (Run.issued (Run.for_each l body) before))
                 (flat_map F l).
Proof.
  induction l as [|y l IH]; intros Hpart Hall before.
  - now exists [].
  - change (Run.for_each (y :: l) body)
      with (body y ;; Run.for_each l body).
    destruct (Run.outcome (body y) before) as [[]|e] eqn:Hy.
    + rewrite (filter_bind _ _ _ tt Hy), (Hall y before (or_introl eq_refl) Hy).
      destruct (IH (fun x start Hx => Hpart x start (or_intror Hx))
                   (fun x start Hx => Hall x start (or_intror Hx))
                   (before ++ Run.issued (body y) before)) as [rest Hrest].
      exists rest. simpl. now rewrite Hrest, app_assoc.
    + destruct (bind_raises (body y) (fun _ => Run.for_each l body) before e
                  Hy) as [-> _].
      destruct (Hpart y before (or_introl eq_refl)) as [rest Hrest].
      exists (rest ++ flat_map F l). simpl. now rewrite Hrest, app_assoc.
Qed.

Lemma initial_after_silent (m k : Run.t unit) (G : list Upsert) :
  (forall start, Forall (fun u => P u = false) (Run.issued m start)) ->
  (forall start, initial_part (filter P (Run.issued k start)) G) ->
  forall before, initial_part (filter P (Run.issued (m ;; k) before)) G.
Proof.
  intros Hm Hk before.
  destruct (Run.outcome m before) as [[]|e] eqn:E.
  - rewrite (filter_bind _ _ _ tt E), (filter_nothing _ (Hm before)).
    apply Hk.
  - destruct (bind_raises m (fun _ => k) before e E) as [-> _].
    rewrite (filter_nothing _ (Hm before)). now exists G.
Qed.
End Filtered.

(** ** Properties of all that is issued *)

Lemma bind_issued_Forall {A B : Type} (Q : Upsert -> Prop) (m : Run.t A)
    (k : A -> Run.t B) (before : list Upsert) :
  Forall Q (Run.issued m before) ->
  (forall a start, Forall Q (Run.issued (k a) start)) ->
  Forall Q (Run.issued (Run.bind m k) before).
Proof.
  unfold Run.issued, Run.bind.
  destruct (m before) as [w [a|e]]; simpl; intros Hm Hk.
  - apply Forall_app. split; [exact Hm | apply Hk].
  - exact Hm.
Qed.

Lemma for_each_issued_Forall {A : Type} (Q : Upsert -> Prop) (l : list A)
    (body : A -> Run.t unit) (before : list Upsert) :
  (forall x start, In x l -> Forall Q (Run.issued (body x) start)) ->
  Forall Q (Run.issued (Run.for_each l body) before).
Proof.
  revert before.
  induction l as [|x l IH]; intros before H; [constructor|].
  change (Run.for_each (x :: l) body)
    with (body x ;; Run.for_each l body).
  apply bind_issued_Forall; [apply H; now left|].
  intros _ start. apply IH. intros y at_y Hy. apply H. now right.
Qed.

Lemma emit_issued_Forall (Q : Upsert -> Prop) (driver : Driver) (u : Upsert)
    (before : list Upsert) :
  Q u -> Forall Q (Run.issued (Run.emit driver u) before).
Proof. intros H. constructor; [exact H | constructor]. Qed.

Lemma when_issued_Forall (Q : Upsert -> Prop) (c : bool) (body : Run.t unit)
    (before : list Upsert) :
  (c = true -> Forall Q (Run.issued body before)) ->
  Forall Q (Run.issued (Run.when c body) before).
Proof. destruct c; [auto | constructor]. Qed.

(** A property of every upsert of every step holds of all that linking
    issues. *)
Ltac issued_all :=
  repeat first
    [ apply bind_issued_Forall; [|intros _ ?]
    | apply for_each_issued_Forall; intros ? ? _
    | apply when_issued_Forall; intros ?Hwhen
    | apply emit_issued_Forall ].

Lemma override_edge_issued (Q : Upsert -> Prop) driver symbol_table filepath
    cls base func (before : list Upsert) :
  (forall name target,
      func_name func = Some name ->
      truthy (lookup symbol_table target) = true ->
      Q (merge_relationship "Function" "id" (VStr (filepath ++ "::" ++ name))
           "OVERRIDES" "Function" "id" (VOpt (lookup symbol_table target))
           [])) ->
  Forall Q
    (Run.issued (override_edge driver symbol_table filepath cls base func)
       before).
Proof.
  intros H. unfold override_edge.
  destruct (func_name func) as [name|]; [|constructor].
  destruct (contains "." name); [|constructor].
  destruct (cls_name cls) as [class_name|]; [|constructor].
  destruct (startswith (class_name ++ ".") name); [|constructor].
  destruct (truthy (lookup symbol_table _)) eqn:E; [|constructor].
  apply emit_issued_Forall. now apply H.
Qed.

Lemma resolve_callee_is_lookup symbol_table aliases callee callee_id :
  resolve_callee symbol_table aliases callee = Returned callee_id ->
  exists name, callee_id = lookup symbol_table name.
Proof.
  unfold resolve_callee.
  destruct (negb (truthy (lookup symbol_table callee)) && contains "." callee).
  - destruct (split_dot_1 callee) as [|base [|member [|]]]; cbv iota beta;
      try (intros H; discriminate H).
    intros H. injection H as <-. eexists; reflexivity.
  - intros H. injection H as <-. eexists; reflexivity.
Qed.

Lemma call_edge_issued (Q : Upsert -> Prop) driver symbol_table symbols
    caller_id callee (before : list Upsert) :
  (forall name,
      truthy (lookup symbol_table name) = true ->
      Q (merge_relationship "Function" "id" (VStr caller_id) "CALLS"
           "Function" "id" (VOpt (lookup symbol_table name)) [])) ->
  Forall Q
    (Run.issued (call_edge driver symbol_table symbols caller_id callee)
       before).
Proof.
  intros H. unfold call_edge.
  destruct (resolve_callee symbol_table (aliases symbols) callee)
    as [callee_id|e] eqn:E; [|constructor].
  destruct (resolve_callee_is_lookup _ _ _ _ E) as [name ->].
  destruct (truthy (lookup symbol_table name)) eqn:Ht; [|constructor].
  apply emit_issued_Forall. now apply H.
Qed.

(** ** Exceptions that are the store's *)

Lemma emit_fails_only_with_store (driver : Driver) (u : Upsert) :
  (exists query, cypher u = Returned query) ->
  fails_only_with_store driver (Run.emit driver u).
Proof.
  intros [query Hq] before e H.
  unfold Run.outcome, Run.emit in H. simpl in H. rewrite Hq in H.
  exists [], u, query. rewrite app_nil_r. auto.
Qed.

Lemma ret_fails_only_with_store (driver : Driver) :
  fails_only_with_store driver (Run.ret tt).
Proof. intros before e H. discriminate H. Qed.

Lemma seq_fails_only_with_store (driver : Driver) (m k : Run.t unit) :
  fails_only_with_store driver m -> fails_only_with_store driver k ->
  fails_only_with_store driver (m ;; k).
Proof.
  intros Hm Hk before e H.
  destruct (Run.outcome m before) as [[]|e'] eqn:Em.
  - destruct (bind_issued m (fun _ => k) before tt Em) as [Hi Ho].
    rewrite Ho in H.
    destruct (Hk _ _ H) as (done & u & query & Hd & Hq & Hr).
    exists (Run.issued m before ++ done), u, query.
    rewrite Hi, Hd, !app_assoc. auto.
  - destruct (bind_raises m (fun _ => k) before e' Em) as [Hi Ho].
    rewrite Ho in H. injection H as <-.
    destruct (Hm _ _ Em) as (done & u & query & Hd & Hq & Hr).
    exists done, u, query. rewrite Hi. auto.
Qed.

Lemma for_each_fails_only_with_store {A : Type} (driver : Driver)
    (l : list A) (body : A -> Run.t unit) :
  (forall x, In x l -> fails_only_with_store driver (body x)) ->
  fails_only_with_store driver (Run.for_each l body).
Proof.
  induction l as [|x l IH]; intros H.
  - apply ret_fails_only_with_store.
  - change (Run.for_each (x :: l) body)
      with (body x ;; Run.for_each l body).
    apply seq_fails_only_with_store; [apply H; now left|].
    apply IH. intros y Hy. apply H. now right.
Qed.

Lemma when_fails_only_with_store (driver : Driver) (c : bool)
    (body : Run.t unit) :
  (c = true -> fails_only_with_store driver body) ->
  fails_only_with_store driver (Run.when c body).
Proof.
  destruct c; [auto | intros _; apply ret_fails_only_with_store].
Qed.

(** A run of a computation that raises nothing of its own ends well or
    with the exception of the store. *)
Lemma ends_well_or_store_raised (driver : Driver) (m : Run.t unit)
    (before : list Upsert) :
  fails_only_with_store driver m ->
  Run.outcome m before = Returned tt
  \/ exists e,
       Run.outcome m before = Raised e
       /\ raised_by_store driver m before e.
Proof.
  intros H. destruct (Run.outcome m before) as [[]|e] eqn:E.
  - now left.
  - right. exists e. split; [reflexivity|]. now apply H.
Qed.

(** ** Call references *)

(** Cutting a dotted reference never fails. *)
Lemma resolve_callee_returns symbol_table aliases callee :
  exists callee_id,
    resolve_callee symbol_table aliases callee = Returned callee_id.
Proof.
  unfold resolve_callee.
  destruct (negb (truthy (lookup symbol_table callee))); simpl;
    [|eexists; reflexivity].
  destruct (contains "." callee) eqn:Hdot; [|eexists; reflexivity].
  destruct (split_dot_1_two callee Hdot) as (base & member & ->).
  eexists; reflexivity.
Qed.

Lemma truthy_id (id : string) : id <> "" -> truthy (Some id) = true.
Proof. apply truthy_Some. Qed.

Lemma resolve_callee_resolves symbol_table aliases callee id :
  resolves symbol_table aliases callee id ->
  resolve_callee symbol_table aliases callee = Returned (Some id).
Proof.
  unfold resolve_callee.
  intros [id' Hl Hid | base member target id' Hmiss -> Hbase Halias Hl Hid].
  - now rewrite Hl, (truthy_id id' Hid).
  - rewrite Hmiss, contains_dot_app, (split_dot_1_app base member Hbase).
    cbn [negb andb]. unfold dict_get_default. now rewrite Halias, Hl.
Qed.

Lemma resolve_callee_misses symbol_table aliases callee :
  (forall id, ~ resolves symbol_table aliases callee id) ->
  exists callee_id,
    resolve_callee symbol_table aliases callee = Returned callee_id
    /\ truthy callee_id = false.
Proof.
  intros Hno. unfold resolve_callee.
  assert (Hmiss : truthy (lookup symbol_table callee) = false).
  { destruct (truthy (lookup symbol_table callee)) eqn:E; [|reflexivity].
    destruct (truthy_inv _ E) as (id & Hl & Hid).
    exfalso. apply (Hno id). now apply resolves_exact. }
  rewrite Hmiss. simpl.
  destruct (contains "." callee) eqn:Hdot; [|eexists; split; eauto].
  destruct (split_dot_1_two callee Hdot) as (base & member & Hsplit).
  rewrite Hsplit. eexists; split; [reflexivity|].
  pose proof (split_dot_1_join callee base member Hsplit) as Hjoin.
  pose proof (split_dot_1_base callee base member Hsplit) as Hbase.
  unfold dict_get_default.
  destruct (dict_get key_dec (Some base) aliases) as [target|] eqn:Halias.
  - destruct (truthy (lookup symbol_table (render target ++ "." ++ member)))
      eqn:E; [|exact E].
    destruct (truthy_inv _ E) as (id & Hl & Hid).
    exfalso. apply (Hno id).
    eapply resolves_alias; eauto.
  - change (truthy (lookup symbol_table (base ++ "." ++ member)) = false).
    now rewrite <- Hjoin.
Qed.

(** The cut at the first dot, against the text it cuts. *)
Lemma cut_at_first_dot_app (base member : string) :
  contains "." base = false ->
  cut_at_first_dot (base ++ "." ++ member) = Some (base, member).
Proof.
  induction base as [|c base IH]; intros H.
  - reflexivity.
  - rewrite contains_dot_cons in H. apply orb_false_iff in H.
    destruct H as [Hc Hb].
    change (cut_at_first_dot (String c base ++ "." ++ member))
      with (if Ascii.eqb c dot
            then Some (EmptyString, (base ++ "." ++ member)%string)
            else match cut_at_first_dot (base ++ "." ++ member) with
                 | Some (b, m) => Some (String c b, m)
                 | None => None
                 end).
    now rewrite Hc, (IH Hb).
Qed.

Lemma cut_at_first_dot_inv (s base member : string) :
  cut_at_first_dot s = Some (base, member) ->
  s = (base ++ "." ++ member)%string /\ contains "." base = false.
Proof.
  revert base. induction s as [|c s IH]; intros base; [discriminate|].
  cbn [cut_at_first_dot].
  destruct (Ascii.eqb c dot) eqn:Hc.
  - intros H. injection H as <- <-. apply Ascii.eqb_eq in Hc. subst c.
    split; reflexivity.
  - destruct (cut_at_first_dot s) as [[b m]|]; [|discriminate].
    intros H. injection H as <- <-.
    destruct (IH b eq_refl) as [-> Hb]. split; [reflexivity|].
    rewrite contains_dot_cons, Hc, Hb. reflexivity.
Qed.

Lemma found_Some (o : option string) (id : string) :
  found o = Some id <-> o = Some id /\ id <> "".
Proof.
  unfold found. split.
  - destruct (truthy o) eqn:E; [|discriminate].
    intros ->. destruct (truthy_inv _ E) as (id' & Hid & Hne).
    injection Hid as <-. auto.
  - intros [-> Hid]. now rewrite (truthy_id id Hid).
Qed.

Lemma found_None (o : option string) : found o = None <-> truthy o = false.
Proof.
  unfold found. destruct (truthy o) eqn:E.
  - destruct (truthy_inv _ E) as (id & -> & _).
    split; intros H; discriminate H.
  - tauto.
Qed.

(** The function that gives the target of a reference agrees with the
    two steps as the relation states them. *)
Lemma resolved_target_resolves symbol_table aliases callee id :
  resolved_target symbol_table aliases callee = Some id
  <-> resolves symbol_table aliases callee id.
Proof.
  unfold resolved_target. split.
  - destruct (found (lookup symbol_table callee)) as [id'|] eqn:Hexact.
    + intros H. injection H as <-. apply found_Some in Hexact.
      now apply resolves_exact.
    + apply found_None in Hexact.
      destruct (cut_at_first_dot callee) as [[base member]|] eqn:Hcut;
        [|discriminate].
      destruct (cut_at_first_dot_inv _ _ _ Hcut) as [Hcallee Hbase].
      destruct (dict_get key_dec (Some base) aliases) as [target|] eqn:Ha;
        [|discriminate].
      intros H. apply found_Some in H. destruct H as [Hl Hid].
      eapply resolves_alias; eauto.
  - intros [id' Hl Hid | base member target id' Hmiss -> Hbase Halias Hl Hid].
    + assert (E : found (lookup symbol_table callee) = Some id')
        by (apply found_Some; auto).
      now rewrite E.
    + apply found_None in Hmiss. rewrite Hmiss.
      rewrite (cut_at_first_dot_app base member Hbase), Halias.
      apply found_Some. auto.
Qed.

(** What the linker issues for one reference. *)
Lemma call_edge_reference driver symbol_table (filepath : string)
    (symbols : FileSymbols) (caller : option string) (callee : string)
    (before : list Upsert) :
  Run.issued
    (call_edge driver symbol_table symbols
       (filepath ++ "::" ++ render caller) callee) before
  = reference_edges symbol_table filepath symbols caller callee.
Proof.
  unfold reference_edges, call_edge.
  destruct (resolved_target symbol_table (aliases symbols) callee)
    as [id|] eqn:E.
  - apply resolved_target_resolves in E.
    assert (Hid : id <> "") by (destruct E; assumption).
    rewrite (resolve_callee_resolves _ _ _ _ E), (truthy_id id Hid).
    reflexivity.
  - destruct (resolve_callee_misses symbol_table (aliases symbols) callee)
      as (callee_id & -> & ->); [|reflexivity].
    intros id H. apply resolved_target_resolves in H. congruence.
Qed.

Lemma reference_edges_are_calls symbol_table filepath symbols caller callee :
  filter is_calls_edge
    (reference_edges symbol_table filepath symbols caller callee)
  = reference_edges symbol_table filepath symbols caller callee.
Proof.
  unfold reference_edges.
  now destruct (resolved_target symbol_table (aliases symbols) callee).
Qed.

(** The loops of a file before the one over its calls issue no [CALLS]
    edge. *)
Lemma no_calls_edge_before_the_calls driver symbol_table filepath symbols :
  (forall start,
      Forall (fun u => is_calls_edge u = false)
        (Run.issued (Run.for_each (functions symbols)
                       (function_node driver filepath)) start))
  /\ (forall start,
         Forall (fun u => is_calls_edge u = false)
           (Run.issued (Run.for_each (classes symbols)
                          (class_node driver symbol_table filepath symbols))
              start))
  /\ (forall start,
         Forall (fun u => is_calls_edge u = false)
           (Run.issued (Run.for_each (imports symbols)
                          (package_node driver filepath)) start)).
Proof.
  split; [|split]; intros start;
    unfold function_node, class_node, attribute_node, inherits_edges,
      package_node;
    issued_all; try reflexivity.
  apply override_edge_issued. reflexivity.
Qed.

(** What linking a file has issued as [CALLS] edges when it reached its
    end. *)
Lemma link_file_calls driver symbol_table (filepath : string)
    (symbols : FileSymbols) (start : list Upsert) :
  Run.outcome (link_file driver symbol_table (filepath, symbols)) start
    = Returned tt ->
  filter is_calls_edge
    (Run.issued (link_file driver symbol_table (filepath, symbols)) start)
  = flat_map
      (fun entry =>
         flat_map (reference_edges symbol_table filepath symbols (fst entry))
                  (snd entry))
      (calls symbols).
Proof.
  unfold link_file. intros H.
  destruct (no_calls_edge_before_the_calls driver symbol_table filepath
              symbols) as (Hfuncs & Hclasses & Himports).
  destruct (seq_returns _ _ _ H) as [H0 H1].
  rewrite (filter_bind _ _ _ _ tt H0).
  destruct (seq_returns _ _ _ H1) as [H2 H3].
  rewrite (filter_bind _ _ _ _ tt H2).
  destruct (seq_returns _ _ _ H3) as [H4 H5].
  rewrite (filter_bind _ _ _ _ tt H4).
  destruct (seq_returns _ _ _ H5) as [H6 H7].
  rewrite (filter_bind _ _ _ _ tt H6).
  rewrite (filter_nothing _ _ (Hfuncs _)), (filter_nothing _ _ (Hclasses _)),
    (filter_nothing _ _ (Himports _)).
  cbn [Run.issued Run.emit fst filter is_calls_edge app].
  apply filter_for_each; [|exact H7].
  intros [caller callees] at_caller _ Hcaller. unfold call_edges in *.
  cbn [fst snd].
  apply filter_for_each; [|exact Hcaller].
  intros callee at_callee _ _.
  rewrite call_edge_reference. apply reference_edges_are_calls.
Qed.

(** Whether or not linking a file reached its end, the [CALLS] edges it
    has issued are the beginning of those. *)
Lemma link_file_calls_initial driver symbol_table (filepath : string)
    (symbols : FileSymbols) (start : list Upsert) :
  initial_part
    (filter is_calls_edge
       (Run.issued (link_file driver symbol_table (filepath, symbols)) start))
    (flat_map
       (fun entry =>
          flat_map (reference_edges symbol_table filepath symbols (fst entry))
                   (snd entry))
       (calls symbols)).
Proof.
  unfold link_file.
  destruct (no_calls_edge_before_the_calls driver symbol_table filepath
              symbols) as (Hfuncs & Hclasses & Himports).
  revert start.
  apply initial_after_silent;
    [intros start; apply emit_issued_Forall; reflexivity|].
  apply initial_after_silent; [exact Hfuncs|].
  apply initial_after_silent; [exact Hclasses|].
  apply initial_after_silent; [exact Himports|].
  intros start. apply filter_for_each_initial.
  - intros [caller callees] at_caller _. unfold call_edges. cbn [fst snd].
    apply filter_for_each_initial.
    + intros callee at_callee _. exists [].
      now rewrite call_edge_reference, reference_edges_are_calls, app_nil_r.
    + intros callee at_callee _ _.
      now rewrite call_edge_reference, reference_edges_are_calls.
  - intros [caller callees] at_caller _ Hdone. unfold call_edges in *.
    cbn [fst snd]. apply filter_for_each; [|exact Hdone].
    intros callee at_callee _ _.
    now rewrite call_edge_reference, reference_edges_are_calls.
Qed.

(** C2.  The [CALLS] edges linking issues are, file by file, caller by
    caller and reference by reference in the order of [calls], one edge
    from the node [filepath::caller] to the identifier found for every
    reference that resolves -- by the exact lookup of its text or,
    failing that, through the alias of what stands before its first dot
    -- and nothing for a reference that does not resolve: what has been
    issued is the beginning of that list in every run, and the whole of
    it when linking runs to its end.  A reference that does not resolve
    raises nothing and makes no call to the store. *)
Theorem call_reference_resolution (driver : Driver)
    (symbol_table : dict (option string) string)
    (code_graph_data : dict string FileSymbols) (before : list Upsert) :
  initial_part
    (filter is_calls_edge
       (Run.issued
          (populate_graph_from_code_data driver symbol_table code_graph_data)
          before))
    (corpus_call_edges symbol_table code_graph_data)
  /\ (Run.outcome
        (populate_graph_from_code_data driver symbol_table code_graph_data)
        before = Returned tt ->
      filter is_calls_edge
        (Run.issued
           (populate_graph_from_code_data driver symbol_table code_graph_data)
           before)
      = corpus_call_edges symbol_table code_graph_data)
  /\ (forall filepath symbols caller callee,
         (forall id,
             resolves symbol_table (aliases symbols) callee id ->
             reference_edges symbol_table filepath symbols caller callee
             = [calls_edge (filepath ++ "::" ++ render caller) id])
         /\ ((forall id, ~ resolves symbol_table (aliases symbols) callee id) ->
             reference_edges symbol_table filepath symbols caller callee = []
             /\ forall start,
                  call_edge driver symbol_table symbols
                    (filepath ++ "::" ++ render caller) callee start
                  = ([], Returned tt))).
Proof.
  split; [|split].
  - unfold populate_graph_from_code_data, corpus_call_edges.
    apply filter_for_each_initial.
    + intros [filepath symbols] start _. apply link_file_calls_initial.
    + intros [filepath symbols] start _ Hlink. now apply link_file_calls.
  - intros Hrun. unfold populate_graph_from_code_data, corpus_call_edges in *.
    apply filter_for_each; [|exact Hrun].
    intros [filepath symbols] start _ Hlink. now apply link_file_calls.
  - intros filepath symbols caller callee. split.
    + intros id H. unfold reference_edges.
      apply resolved_target_resolves in H. now rewrite H.
    + intros Hno.
      assert (E : resolved_target symbol_table (aliases symbols) callee
                  = None).
      { destruct (resolved_target symbol_table (aliases symbols) callee)
          as [id|] eqn:E; [|reflexivity].
        apply resolved_target_resolves in E. now destruct (Hno id). }
      split; [unfold reference_edges; now rewrite E|].
      intros start. unfold call_edge.
      destruct (resolve_callee_misses _ _ _ Hno) as (callee_id & -> & ->).
      reflexivity.
Qed.

Lemma call_reference_resolution_witness :
  filter is_calls_edge
    (Run.issued
       (populate_graph_from_code_data Samples.accepting Samples.numpy_table
          [("app.py", Samples.numpy_user)]) [])
  = [calls_edge "app.py::run" "lib.py::numpy.array"].
Proof.
  exact (proj1 (proj2 (call_reference_resolution Samples.accepting
                         Samples.numpy_table
                         [("app.py", Samples.numpy_user)] []))
           eq_refl).
Defined.

(** ** Inheritance and overrides *)

Lemma override_edge_emits driver symbol_table (filepath : string)
    (cls : ClassSymbol) (base : string) (func : FunctionSymbol)
    (class_name method_name overridden_id : string) :
  cls_name cls = Some class_name ->
  func_name func = Some (class_name ++ "." ++ method_name)%string ->
  contains "." class_name = false ->
  contains "." method_name = false ->
  lookup symbol_table (base ++ "." ++ method_name) = Some overridden_id ->
  overridden_id <> "" ->
  override_edge driver symbol_table filepath cls base func
  = Run.emit driver
      (merge_relationship "Function" "id"
         (VStr (filepath ++ "::" ++ class_name ++ "." ++ method_name))
         "OVERRIDES" "Function" "id" (VStr overridden_id) []).
Proof.
  intros Hcls Hfunc Hc Hm Hl Hid. unfold override_edge.
  rewrite Hfunc, contains_dot_app, Hcls.
  assert (Hs : startswith (class_name ++ ".")
                 (class_name ++ "." ++ method_name) = true).
  { apply startswith_spec. exists method_name.
    now rewrite string_app_assoc. }
  rewrite Hs, (split_dot_app class_name method_name Hc),
    (split_dot_whole method_name Hm).
  cbn [nth]. rewrite Hl, (truthy_id overridden_id Hid). reflexivity.
Qed.

(** The loops over a file, in the linking of the file that runs to its
    end. *)
Lemma link_file_loops driver symbol_table (filepath : string)
    (symbols : FileSymbols) (before : list Upsert) :
  Run.outcome (link_file driver symbol_table (filepath, symbols)) before
    = Returned tt ->
  (exists start,
      within (Run.for_each (functions symbols)
                (function_node driver filepath)) start
        (link_file driver symbol_table (filepath, symbols)) before)
  /\ (exists start,
         within (Run.for_each (classes symbols)
                   (class_node driver symbol_table filepath symbols)) start
           (link_file driver symbol_table (filepath, symbols)) before)
  /\ (exists start,
         within (Run.for_each (imports symbols)
                   (package_node driver filepath)) start
           (link_file driver symbol_table (filepath, symbols)) before).
Proof.
  unfold link_file. intros H.
  pose proof (within_rest _ _ _ H) as W1.
  pose proof (within_first _ _ _ (proj1 W1)) as Wf.
  pose proof (within_rest _ _ _ (proj1 W1)) as W2.
  pose proof (within_first _ _ _ (proj1 W2)) as Wc.
  pose proof (within_rest _ _ _ (proj1 W2)) as W3.
  pose proof (within_first _ _ _ (proj1 W3)) as Wi.
  pose proof (within_trans _ _ _ _ _ _ W2 W1) as W12.
  pose proof (within_trans _ _ _ _ _ _ W3 W12) as W123.
  split; [|split]; eexists.
  - exact (within_trans _ _ _ _ _ _ Wf W1).
  - exact (within_trans _ _ _ _ _ _ Wc W12).
  - exact (within_trans _ _ _ _ _ _ Wi W123).
Qed.

(** The loops over the attributes and over the base classes of a class,
    in the linking of the class. *)
Lemma class_node_loops driver symbol_table (filepath : string)
    (symbols : FileSymbols) (cls : ClassSymbol) (before : list Upsert) :
  Run.outcome (class_node driver symbol_table filepath symbols cls) before
    = Returned tt ->
  (exists start,
      within
        (Run.for_each (cls_attributes cls)
           (attribute_node driver filepath
              (filepath ++ "::" ++ render (cls_name cls)))) start
        (class_node driver symbol_table filepath symbols cls) before)
  /\ (exists start,
         within
           (Run.for_each (cls_bases cls)
              (inherits_edges driver symbol_table filepath
                 (filepath ++ "::" ++ render (cls_name cls)) symbols cls))
           start
           (class_node driver symbol_table filepath symbols cls) before).
Proof.
  unfold class_node. intros H.
  pose proof (within_rest _ _ _ H) as W1.
  pose proof (within_rest _ _ _ (proj1 W1)) as W2.
  pose proof (within_first _ _ _ (proj1 W2)) as Wa.
  pose proof (within_rest _ _ _ (proj1 W2)) as Wb.
  pose proof (within_trans _ _ _ _ _ _ W2 W1) as W12.
  split; eexists.
  - exact (within_trans _ _ _ _ _ _ Wa W12).
  - exact (within_trans _ _ _ _ _ _ Wb W12).
Qed.

(** The linking of a class of a file, in a linking of the corpus that
    runs to its end. *)
Lemma class_node_within driver symbol_table
    (code_graph_data : dict string FileSymbols) (filepath : string)
    (symbols : FileSymbols) (cls : ClassSymbol) (before : list Upsert) :
  In (filepath, symbols) code_graph_data ->
  In cls (classes symbols) ->
  Run.outcome
    (populate_graph_from_code_data driver symbol_table code_graph_data) before
    = Returned tt ->
  exists start,
    within (class_node driver symbol_table filepath symbols cls) start
      (populate_graph_from_code_data driver symbol_table code_graph_data)
      before.
Proof.
  intros Hfile Hcls Hrun. unfold populate_graph_from_code_data in *.
  destruct (within_for_each _ _ _ _ Hrun Hfile) as [at_file Wfile].
  destruct (link_file_loops _ _ _ _ _ (proj1 Wfile))
    as (_ & [at_classes Wclasses] & _).
  destruct (within_for_each _ _ _ _ (proj1 Wclasses) Hcls)
    as [at_class Wclass].
  exists at_class.
  exact (within_trans _ _ _ _ _ _ Wclass
           (within_trans _ _ _ _ _ _ Wclasses Wfile)).
Qed.

(** The edges for a class, a base the table knows and a function named
    class, dot, method. *)
Lemma class_edges_issued driver symbol_table
    (code_graph_data : dict string FileSymbols)
    (filepath : string) (symbols : FileSymbols)
    (cls : ClassSymbol) (func : FunctionSymbol)
    (class_name base method_name base_id overridden_id : string)
    (before : list Upsert) :
  In (filepath, symbols) code_graph_data ->
  In cls (classes symbols) ->
  cls_name cls = Some class_name ->
  In base (cls_bases cls) ->
  In func (functions symbols) ->
  func_name func = Some (class_name ++ "." ++ method_name)%string ->
  contains "." class_name = false ->
  contains "." method_name = false ->
  lookup symbol_table base = Some base_id ->
  base_id <> "" ->
  lookup symbol_table (base ++ "." ++ method_name) = Some overridden_id ->
  overridden_id <> "" ->
  Run.outcome
    (populate_graph_from_code_data driver symbol_table code_graph_data) before
    = Returned tt ->
  In (merge_relationship "Class" "id"
        (VStr (filepath ++ "::" ++ class_name)) "INHERITS"
        "Class" "id" (VStr base_id) [])
     (Run.issued
        (populate_graph_from_code_data driver symbol_table code_graph_data)
        before)
  /\ In (merge_relationship "Function" "id"
           (VStr (filepath ++ "::" ++ class_name ++ "." ++ method_name))
           "OVERRIDES" "Function" "id" (VStr overridden_id) [])
        (Run.issued
           (populate_graph_from_code_data driver symbol_table code_graph_data)
           before).
Proof.
  intros Hfile Hcls Hname Hbase Hfunc Hfname Hc Hm Hb Hbid Ho Hoid Hrun.
  destruct (class_node_within _ _ _ _ _ _ _ Hfile Hcls Hrun)
    as [at_class Wclass].
  destruct (class_node_loops _ _ _ _ _ _ (proj1 Wclass))
    as (_ & [at_bases Wbases]).
  destruct (within_for_each _ _ _ _ (proj1 Wbases) Hbase)
    as [at_base Wbase].
  pose proof (within_trans _ _ _ _ _ _ Wbase
                (within_trans _ _ _ _ _ _ Wbases Wclass)) as W.
  unfold inherits_edges in W.
  rewrite Hb, (truthy_id base_id Hbid), Hname in W.
  cbn [Run.when render VOpt] in W.
  split.
  - apply (proj2 W). apply emit_then_issued.
  - pose proof (within_rest _ _ _ (proj1 W)) as Wover.
    destruct (within_for_each _ _ _ _ (proj1 Wover) Hfunc)
      as [at_func Wfunc].
    rewrite (override_edge_emits driver symbol_table filepath cls base func
               class_name method_name overridden_id) in Wfunc by assumption.
    apply (proj2 W), (proj2 Wover), (proj2 Wfunc). now left.
Qed.

(** C3, as amended.  When linking runs to its end: for a class of a
    file, a base it names that the symbol table knows, and a function of
    the file that was extracted under the name class, dot, method, with
    [base.method] known to the symbol table, the upserts issued include
    the [INHERITS] edge from the class node to the node of the base and
    the [OVERRIDES] edge from the node of the function to the node the
    table gives for [base.method]; only the bare method name and the name
    of the base enter.  In a tree where no class lies inside another and
    every class is named, every function definition that stands inside a
    class is extracted under that name, so there the edges are issued for
    every method by its position in the text. *)
Theorem inherits_and_overrides_emitted :
  (forall driver symbol_table (code_graph_data : dict string FileSymbols)
          (filepath : string) (symbols : FileSymbols)
          (cls : ClassSymbol) (func : FunctionSymbol)
          (class_name base method_name base_id overridden_id : string)
          (before : list Upsert),
      In (filepath, symbols) code_graph_data ->
      In cls (classes symbols) ->
      cls_name cls = Some class_name ->
      In base (cls_bases cls) ->
      In func (functions symbols) ->
      func_name func = Some (class_name ++ "." ++ method_name)%string ->
      contains "." class_name = false ->
      contains "." method_name = false ->
      lookup symbol_table base = Some base_id ->
      base_id <> "" ->
      lookup symbol_table (base ++ "." ++ method_name) = Some overridden_id ->
      overridden_id <> "" ->
      Run.outcome
        (populate_graph_from_code_data driver symbol_table code_graph_data)
        before = Returned tt ->
      In (merge_relationship "Class" "id"
            (VStr (filepath ++ "::" ++ class_name)) "INHERITS"
            "Class" "id" (VStr base_id) [])
         (Run.issued
            (populate_graph_from_code_data driver symbol_table
               code_graph_data) before)
      /\ In (merge_relationship "Function" "id"
               (VStr (filepath ++ "::" ++ class_name ++ "." ++ method_name))
               "OVERRIDES" "Function" "id" (VStr overridden_id) [])
            (Run.issued
               (populate_graph_from_code_data driver symbol_table
                  code_graph_data) before))
  /\ (forall driver symbol_table code_graph_data filepath root_node,
         classes_flat root_node = true ->
         overrides_by_position driver symbol_table code_graph_data filepath
           root_node).
Proof.
  split.
  - intros. eapply class_edges_issued; eassumption.
  - intros driver symbol_table code_graph_data filepath root_node Hflat
      cls class_name base method_name base_id overridden_id before
      Hfile Hcls Hname Hbase Hdef Hc Hm Hb Hbid Ho Hoid Hrun.
    assert (Hnames : map func_name (functions (symbols_of root_node))
                     = map fst (lexical_defs TopLevel root_node)).
    { destruct (symbols_of_records root_node) as [Hn _].
      rewrite Hn, (classes_flat_definitions root_node Hflat). reflexivity. }
    rewrite <- Hnames in Hdef. apply in_map_iff in Hdef.
    destruct Hdef as (func & Hfname & Hfunc).
    eapply class_edges_issued; eassumption.
Qed.

Lemma inherits_and_overrides_emitted_witness :
  overrides_by_position Samples.accepting Samples.animal_table
    [("dog.py", symbols_of Samples.dog_tree)] "dog.py" Samples.dog_tree
  /\ In (merge_relationship "Function" "id" (VStr "dog.py::Dog.speak")
           "OVERRIDES" "Function" "id" (VStr "animal.py::Animal.speak") [])
        (Run.issued
           (populate_graph_from_code_data Samples.accepting
              Samples.animal_table
              [("dog.py", symbols_of Samples.dog_tree)]) []).
Proof.
  split.
  - apply (proj2 inherits_and_overrides_emitted). reflexivity.
  - apply (proj1 inherits_and_overrides_emitted Samples.accepting
             Samples.animal_table
             [("dog.py", symbols_of Samples.dog_tree)]
             "dog.py" (symbols_of Samples.dog_tree)
             (hd (mkClassSymbol None 0 0 0 0 "" [] [])
                 (classes (symbols_of Samples.dog_tree)))
             (hd (mkFunctionSymbol None 0 0 0 0 "" false)
                 (functions (symbols_of Samples.dog_tree)))
             "Dog" "Animal" "speak" "animal.py::Animal"
             "animal.py::Animal.speak" []);
      first [reflexivity | discriminate | now left].
Defined.

(** C3 as stated fails at the source
    {[
class Dog(Animal):
    class Tag:
        pass
    def speak(self):
        self.bark()
    ]}
    The class [Dog] names the base [Animal] and defines [speak], and the
    symbol table knows [Animal] and [Animal.speak].  Leaving the class
    [Tag] cleared the slot, so the method is extracted as "speak"; the
    loop over the functions under the base skips a name without a dot.
    Linking runs to its end and issues the [INHERITS] edge but no
    [OVERRIDES] edge, and no node [dog.py::Dog.speak]. *)
Lemma override_missed_after_nested_class :
  map func_name (functions (symbols_of Samples.tagged_tree)) = [Some "speak"]
  /\ In (Some "Dog.speak")
        (map fst (lexical_defs TopLevel Samples.tagged_tree))
  /\ Run.outcome
       (populate_graph_from_code_data Samples.accepting Samples.tagged_table
          [("dog.py", symbols_of Samples.tagged_tree)]) [] = Returned tt
  /\ filter (fun u =>
               match u with
               | merge_relationship _ _ _ rel_type _ _ _ _ =>
                   (rel_type =? "INHERITS") || (rel_type =? "OVERRIDES")
               | merge_node _ _ _ => false
               end)
       (Run.issued
          (populate_graph_from_code_data Samples.accepting
             Samples.tagged_table
             [("dog.py", symbols_of Samples.tagged_tree)]) [])
     = [merge_relationship "Class" "id" (VStr "dog.py::Dog") "INHERITS"
          "Class" "id" (VStr "animal.py::Animal") []]
  /\ ~ overrides_by_position Samples.accepting Samples.tagged_table
         [("dog.py", symbols_of Samples.tagged_tree)] "dog.py"
         Samples.tagged_tree.
Proof.
  split; [reflexivity|]. split; [now left|]. split; [reflexivity|].
  split; [reflexivity|].
  intros H.
  destruct (H (hd (mkClassSymbol None 0 0 0 0 "" [] [])
                  (classes (symbols_of Samples.tagged_tree)))
              "Dog" "Animal" "speak" "animal.py::Animal"
              "animal.py::Animal.speak" []) as [_ Hover];
    try first [reflexivity | discriminate | now left].
  vm_compute in Hover.
  repeat (destruct Hover as [Hover|Hover]; [discriminate Hover|]).
  exact Hover.
Qed.

(** ** When linking runs to its end *)

(** X13.  For every attribute listed for a class, linking that runs to
    its end issues the [Attribute] node and the [HAS_ATTRIBUTE] edge. *)
Lemma attribute_upserts_issued driver symbol_table
    (code_graph_data : dict string FileSymbols) (filepath : string)
    (symbols : FileSymbols) (cls : ClassSymbol) (attr : string)
    (before : list Upsert) :
  In (filepath, symbols) code_graph_data ->
  In cls (classes symbols) ->
  In attr (cls_attributes cls) ->
  Run.outcome
    (populate_graph_from_code_data driver symbol_table code_graph_data) before
    = Returned tt ->
  incl
    [ merge_node "Attribute"
        [("id", VStr ((filepath ++ "::" ++ render (cls_name cls)) ++ "::"
                      ++ attr));
         ("name", VStr attr);
         ("class_id", VStr (filepath ++ "::" ++ render (cls_name cls)));
         ("file_path", VStr filepath)] "id";
      merge_relationship "Class" "id"
        (VStr (filepath ++ "::" ++ render (cls_name cls))) "HAS_ATTRIBUTE"
        "Attribute" "id"
        (VStr ((filepath ++ "::" ++ render (cls_name cls)) ++ "::" ++ attr))
        [] ]
    (Run.issued
       (populate_graph_from_code_data driver symbol_table code_graph_data)
       before).
Proof.
  intros Hfile Hcls Hattr Hrun.
  destruct (class_node_within _ _ _ _ _ _ _ Hfile Hcls Hrun)
    as [at_class Wclass].
  destruct (class_node_loops _ _ _ _ _ _ (proj1 Wclass))
    as ([at_attrs Wattrs] & _).
  destruct (within_for_each _ _ _ _ (proj1 Wattrs) Hattr)
    as [at_attr Wattr].
  pose proof (within_trans _ _ _ _ _ _ Wattr
                (within_trans _ _ _ _ _ _ Wattrs Wclass)) as W.
  unfold attribute_node in W.
  pose proof (within_rest _ _ _ (proj1 W)) as Wedge.
  intros u [<-|[<-|[]]].
  - apply (proj2 W). apply emit_then_issued.
  - apply (proj2 W), (proj2 Wedge). now left.
Qed.

(** * Further properties of the code *)

(** ** Everything defined is extracted *)

Lemma preorder_eq {A : Type} (here : Node -> list A) (node : Node) :
  preorder here node = here node ++ flat_map (preorder here) (children node).
Proof. destruct node; reflexivity. Qed.

Lemma preorder_map {A : Type} (ty : string) (f : Node -> A) (node : Node) :
  preorder (fun n => if type n =? ty then [f n] else []) node
  = map f (nodes_of_type ty node).
Proof.
  unfold nodes_of_type.
  induction node as [node IH] using Node_induction.
  rewrite !preorder_eq, map_app. f_equal.
  - now destruct (type node =? ty).
  - induction IH as [|child l Hchild _ IHl]; simpl; [reflexivity|].
    now rewrite Hchild, IHl, map_app.
Qed.

(** A list among the symbols that every visit extends by what the node
    gives is, after the traversal, extended by the scan of the tree. *)
Lemma traverse_appends {A : Type} (proj : FileSymbols -> list A)
    (here : Node -> list A) :
  (forall node st,
      proj (file_symbols (visit node st))
      = proj (file_symbols st) ++ here node) ->
  forall node st,
    proj (file_symbols (traverse node st))
    = proj (file_symbols st) ++ preorder here node.
Proof.
  intros Hvisit node.
  induction node as [node IH] using Node_induction. intros st.
  rewrite traverse_eq, preorder_eq. cbv zeta.
  assert (Hfold : forall l,
             Forall (fun child => forall st,
                       proj (file_symbols (traverse child st))
                       = proj (file_symbols st) ++ preorder here child) l ->
             forall st0,
               proj (file_symbols
                       (fold_left (fun s child => traverse child s) l st0))
               = proj (file_symbols st0) ++ flat_map (preorder here) l).
  { induction 1 as [|child l Hchild _ IHl]; intros st0; simpl.
    - now rewrite app_nil_r.
    - now rewrite IHl, Hchild, app_assoc. }
  assert (Hall : proj (file_symbols
                         (fold_left (fun s child => traverse child s)
                            (children node) (visit node st)))
                 = proj (file_symbols st)
                   ++ here node ++ flat_map (preorder here) (children node)).
  { now rewrite (Hfold _ IH), Hvisit, app_assoc. }
  now destruct (type node =? "class_definition").
Qed.

(** The import branches of [visit] leave functions and classes alone. *)
Lemma visit_imports_leave (l : list Node) (st : State) :
  functions (file_symbols (fold_left visit_import_child l st))
    = functions (file_symbols st)
  /\ classes (file_symbols (fold_left visit_import_child l st))
     = classes (file_symbols st).
Proof.
  revert st; induction l as [|child l IH]; intros st; simpl; [auto|].
  destruct (IH (visit_import_child st child)) as [-> ->].
  unfold visit_import_child.
  destruct (type child =? "aliased_import"); [auto|].
  destruct (type child =? "dotted_name"); auto.
Qed.

Lemma visit_import_from_leaves (node : Node) (st : State) :
  functions (file_symbols (visit_import_from node st))
    = functions (file_symbols st)
  /\ classes (file_symbols (visit_import_from node st))
     = classes (file_symbols st).
Proof.
  unfold visit_import_from.
  destruct (child_by_field_name node "module"); [|auto].
  destruct (child_by_field_name node "alias"); auto.
Qed.

Lemma visit_functions (node : Node) (st : State) :
  map func_extent (functions (file_symbols (visit node st)))
  = map func_extent (functions (file_symbols st))
    ++ (if type node =? "function_definition" then [node_extent node]
        else []).
Proof.
  unfold visit.
  destruct (type node =? "import_statement") eqn:E1.
  { rewrite (type_exclusive node "import_statement" "function_definition")
      by first [discriminate | assumption].
    destruct (visit_imports_leave (named_children node) st) as [-> _].
    now rewrite app_nil_r. }
  destruct (type node =? "import_from_statement") eqn:E2.
  { rewrite (type_exclusive node "import_from_statement"
               "function_definition")
      by first [discriminate | assumption].
    destruct (visit_import_from_leaves node st) as [-> _].
    now rewrite app_nil_r. }
  destruct (type node =? "class_definition") eqn:E3.
  { rewrite (type_exclusive node "class_definition" "function_definition")
      by first [discriminate | assumption].
    simpl. now rewrite app_nil_r. }
  destruct (type node =? "function_definition") eqn:E4.
  - simpl. now rewrite map_app.
  - now rewrite app_nil_r.
Qed.

Lemma visit_classes (node : Node) (st : State) :
  map (fun c => (cls_name c, cls_extent c))
      (classes (file_symbols (visit node st)))
  = map (fun c => (cls_name c, cls_extent c)) (classes (file_symbols st))
    ++ (if type node =? "class_definition"
        then [(get_node_text_safe (child_by_field_name node "name"),
               node_extent node)]
        else []).
Proof.
  unfold visit.
  destruct (type node =? "import_statement") eqn:E1.
  { rewrite (type_exclusive node "import_statement" "class_definition")
      by first [discriminate | assumption].
    destruct (visit_imports_leave (named_children node) st) as [_ ->].
    now rewrite app_nil_r. }
  destruct (type node =? "import_from_statement") eqn:E2.
  { rewrite (type_exclusive node "import_from_statement" "class_definition")
      by first [discriminate | assumption].
    destruct (visit_import_from_leaves node st) as [_ ->].
    now rewrite app_nil_r. }
  destruct (type node =? "class_definition") eqn:E3.
  { simpl. now rewrite map_app. }
  destruct (type node =? "function_definition") eqn:E4.
  - simpl. now rewrite app_nil_r.
  - now rewrite app_nil_r.
Qed.

(** X1.  Every function definition of the tree, however deep it lies in
    classes or in other functions, is extracted exactly once, in document
    order, with its whole text, its start and end line counted from 1
    and its columns counted from 0. *)
Theorem every_function_definition_extracted (root_node : Node) :
  map func_extent (functions (symbols_of root_node))
  = map node_extent (nodes_of_type "function_definition" root_node).
Proof.
  unfold symbols_of.
  rewrite (traverse_appends (fun fs => map func_extent (functions fs))
             (fun node => if type node =? "function_definition"
                          then [node_extent node] else [])
             visit_functions).
  simpl. apply preorder_map.
Qed.

(** X2.  Every class definition of the tree, nested or not, is extracted
    exactly once, in document order, under the text of its name child,
    with its whole text and its position. *)
Theorem every_class_definition_extracted (root_node : Node) :
  map (fun c => (cls_name c, cls_extent c)) (classes (symbols_of root_node))
  = map (fun node =>
           (get_node_text_safe (child_by_field_name node "name"),
            node_extent node))
        (nodes_of_type "class_definition" root_node).
Proof.
  unfold symbols_of.
  rewrite (traverse_appends
             (fun fs => map (fun c => (cls_name c, cls_extent c))
                            (classes fs))
             (fun node =>
                if type node =? "class_definition"
                then [(get_node_text_safe (child_by_field_name node "name"),
                       node_extent node)]
                else [])
             visit_classes).
  simpl.
  apply (preorder_map "class_definition"
           (fun node =>
              (get_node_text_safe (child_by_field_name node "name"),
               node_extent node))).
Qed.

(** ** Aliases and imports *)

Lemma dict_set_In {K V : Type} (K_dec : forall a b : K, {a = b} + {a <> b})
    (k : K) (v : V) (d : dict K V) (e : K * V) :
  In e (dict_set K_dec k v d) -> e = (k, v) \/ In e d.
Proof.
  induction d as [|[k1 v1] d IH]; simpl.
  - intros [<-|[]]. now left.
  - destruct (K_dec k k1) as [E|N]; simpl.
    + intros [<-|H]; [now left | right; now right].
    + intros [<-|H]; [right; now left|].
      destruct (IH H) as [->|H']; [now left | right; now right].
Qed.

(** What every visit keeps, the traversal keeps. *)
Lemma traverse_preserves (P : FileSymbols -> Prop) :
  (forall node st, P (file_symbols st) -> P (file_symbols (visit node st))) ->
  forall node st,
    P (file_symbols st) -> P (file_symbols (traverse node st)).
Proof.
  intros Hvisit node.
  induction node as [node IH] using Node_induction. intros st H.
  rewrite traverse_eq. cbv zeta.
  assert (Hfold : forall l,
             Forall (fun child => forall st,
                       P (file_symbols st) ->
                       P (file_symbols (traverse child st))) l ->
             forall st0,
               P (file_symbols st0) ->
               P (file_symbols
                    (fold_left (fun s child => traverse child s) l st0))).
  { induction 1 as [|child l Hchild _ IHl]; intros st0 H0; simpl; auto. }
  pose proof (Hfold _ IH _ (Hvisit node st H)) as Hend.
  now destruct (type node =? "class_definition").
Qed.

Lemma append_import_keeps (m : option string) (fs : FileSymbols) :
  aliases_imported fs -> aliases_imported (append_import m fs).
Proof.
  intros H alias module Hin. simpl in *.
  apply in_or_app. left. now apply (H alias).
Qed.

Lemma alias_then_import_keeps (alias m : option string) (fs : FileSymbols) :
  aliases_imported fs ->
  aliases_imported (append_import m (store_alias alias m fs)).
Proof.
  intros H a module Hin. simpl in *. apply in_or_app.
  apply dict_set_In in Hin. destruct Hin as [E|Hin].
  - injection E as _ ->. right. now left.
  - left. now apply (H a).
Qed.

Lemma import_then_alias_keeps (alias m : option string) (fs : FileSymbols) :
  aliases_imported fs ->
  aliases_imported (store_alias alias m (append_import m fs)).
Proof.
  intros H a module Hin. simpl in *. apply in_or_app.
  apply dict_set_In in Hin. destruct Hin as [E|Hin].
  - injection E as _ ->. right. now left.
  - left. now apply (H a).
Qed.

Lemma visit_keeps_aliases_imported (node : Node) (st : State) :
  aliases_imported (file_symbols st) ->
  aliases_imported (file_symbols (visit node st)).
Proof.
  unfold visit.
  destruct (type node =? "import_statement").
  { generalize (named_children node). intros l. revert st.
    induction l as [|child l IH]; intros st H; simpl; [exact H|].
    apply IH. unfold visit_import_child.
    destruct (type child =? "aliased_import");
      [now apply alias_then_import_keeps|].
    destruct (type child =? "dotted_name");
      [now apply append_import_keeps | exact H]. }
  destruct (type node =? "import_from_statement").
  { intros H. unfold visit_import_from.
    destruct (child_by_field_name node "module"); [|exact H].
    destruct (child_by_field_name node "alias").
    - now apply import_then_alias_keeps.
    - now apply append_import_keeps. }
  destruct (type node =? "class_definition"); [auto|].
  destruct (type node =? "function_definition"); auto.
Qed.

(** X3.  Whatever the tree, the module every recorded alias stands for
    is among the recorded imports. *)
Theorem alias_targets_are_imported (root_node : Node) :
  aliases_imported (symbols_of root_node).
Proof.
  unfold symbols_of.
  apply (traverse_preserves aliases_imported visit_keeps_aliases_imported).
  intros alias module [].
Qed.

(** ** Calls of nested definitions *)

Lemma callee_texts_of_child (child node : Node) :
  In child (children node) ->
  incl (callee_texts child) (callee_texts node).
Proof.
  intros Hin t Ht. rewrite (callee_texts_eq node).
  apply in_or_app. right. apply in_flat_map. now exists child.
Qed.

Lemma callee_texts_inside (inner_node outer : Node) :
  inside inner_node outer ->
  incl (callee_texts inner_node) (callee_texts outer).
Proof.
  induction 1 as [outer Hin | middle outer _ IH Hin].
  - now apply callee_texts_of_child.
  - intros t Ht. apply (callee_texts_of_child middle outer Hin).
    now apply IH.
Qed.

(** X4.  The scan of a function body does not stop at a definition
    nested in it: every call recorded for a node below is also recorded
    for the node around it, under the same slot. *)
Theorem nested_calls_belong_to_the_outer_function (inner_node outer : Node)
    (slot : option string) (recorded : string) :
  inside inner_node outer ->
  In recorded (find_calls inner_node [] slot) ->
  In recorded (find_calls outer [] slot).
Proof.
  intros Hinside. rewrite !find_calls_appends. simpl.
  rewrite !in_map_iff. intros (t & E & Ht).
  exists t. split; [exact E|]. now apply (callee_texts_inside inner_node).
Qed.

Lemma nested_calls_belong_to_the_outer_function_witness :
  In "helper" (find_calls MoreSamples.outer_def [] None).
Proof.
  apply (nested_calls_belong_to_the_outer_function MoreSamples.inner_def
           MoreSamples.outer_def None "helper").
  - apply inside_deeper
      with (middle := Samples.inner "block" (Some "body")
                        "def inner(): helper()" (1, 4) (1, 25)
                        [ MoreSamples.inner_def ]).
    + apply inside_child. now left.
    + simpl. tauto.
  - now left.
Defined.


(** ** The walk over the tree of a commit *)

Section Walk.
Variable os_path_join : string -> string -> string.
Variable os_path_normpath : string -> string.



End Walk.


(** ** What [build_code_symbol_graph_data] returns *)

Section Build.
Variable os_path_join : string -> string -> string.
Variable os_path_normpath : string -> string.
Variable git_Repo : string -> Outcome Repo.
Variable parse : string -> Outcome Node.

Lemma listing_raises (repo_path commit_hash e : string) :
  get_repo_structure_at_commit os_path_join os_path_normpath git_Repo
    repo_path commit_hash = Raised e
  <-> git_Repo repo_path = Raised e.
Proof.
  unfold get_repo_structure_at_commit.
  destruct (git_Repo repo_path) as [repo|e'].
  - destruct (commit_tree repo commit_hash); split; discriminate.
  - split; intros H; injection H as ->; reflexivity.
Qed.

Lemma build_returns_index (repo_path : string) (commit_hash : option string)
    (ix : Index) :
  build_code_symbol_graph_data os_path_join os_path_normpath git_Repo parse
    repo_path commit_hash = Returned ix ->
  exists python_files out,
    ix = index_files parse python_files (fresh_index out).
Proof.
  unfold build_code_symbol_graph_data.
  destruct (match commit_hash with
            | Some h =>
                if truthy commit_hash
                then get_repo_structure_at_commit os_path_join
                       os_path_normpath git_Repo repo_path h
                else Returned ([], [])
            | None => Returned ([], [])
            end) as [[python_files out]|e]; [|discriminate].
  intros H. injection H as <-. eexists _, _. reflexivity.
Qed.

(** X6.  The only exception [build_code_symbol_graph_data] lets through
    is the one raised by opening the repository, and only when a commit
    hash is given; without a commit hash the repository is not opened
    and the index is empty. *)
Theorem build_raises_only_when_repository_fails (repo_path : string)
    (commit_hash : option string) :
  (forall e,
      build_code_symbol_graph_data os_path_join os_path_normpath git_Repo
        parse repo_path commit_hash = Raised e
      <-> truthy commit_hash = true /\ git_Repo repo_path = Raised e)
  /\ (truthy commit_hash = false ->
      build_code_symbol_graph_data os_path_join os_path_normpath git_Repo
        parse repo_path commit_hash
      = Returned
          (mkIndex [] [] [] ["Parsing 0 Python files using Tree-sitter..."])).
Proof.
  unfold build_code_symbol_graph_data. split.
  - intros e. destruct commit_hash as [h|]; [|split; [discriminate|]].
    + destruct (truthy (Some h)) eqn:Ht.
      * destruct (get_repo_structure_at_commit os_path_join os_path_normpath
                    git_Repo repo_path h) as [[python_files out]|e'] eqn:E.
        -- split; [discriminate|]. intros [_ Hr].
           apply (listing_raises repo_path h e) in Hr. congruence.
        -- apply (listing_raises repo_path h e') in E. split.
           ++ intros H. injection H as <-. auto.
           ++ intros [_ Hr]. congruence.
      * split; [discriminate | intros [H _]; discriminate].
    + intros [H _]. discriminate.
  - intros Ht. destruct commit_hash as [h|]; [|reflexivity].
    now rewrite Ht.
Qed.

Lemma dict_set_map {K A B : Type}
    (K_dec : forall a b : K, {a = b} + {a <> b}) (g : K -> A -> B)
    (k : K) (v : A) (d : dict K A) :
  dict_set K_dec k (g k v) (map (fun e => (fst e, g (fst e) (snd e))) d)
  = map (fun e => (fst e, g (fst e) (snd e))) (dict_set K_dec k v d).
Proof.
  induction d as [|[k1 v1] d IH]; simpl; [reflexivity|].
  destruct (K_dec k k1); simpl; [reflexivity | now rewrite IH].
Qed.

Lemma index_files_patterns (python_files : list FileEntry) :
  forall ix,
    all_patterns ix
    = map (fun item =>
             (fst item, detect_design_patterns (fst item) (snd item)))
          (code_graph_data ix) ->
    all_patterns (index_files parse python_files ix)
    = map (fun item =>
             (fst item, detect_design_patterns (fst item) (snd item)))
          (code_graph_data (index_files parse python_files ix)).
Proof.
  unfold index_files.
  induction python_files as [|[[path content] sha] rest IH]; intros ix H;
    simpl; [exact H|].
  apply IH. unfold index_file.
  destruct (extract_symbols_from_code parse content) as [symbols|e]; simpl;
    [|exact H].
  rewrite H.
  apply (dict_set_map string_dec detect_design_patterns path symbols).
Qed.

(** X7.  In what is returned, [all_patterns] goes in step with
    [code_graph_data]: the same paths in the same order, each with the
    patterns detected in the symbols kept for that path. *)
Theorem patterns_follow_code_graph_data (repo_path : string)
    (commit_hash : option string) (ix : Index) :
  build_code_symbol_graph_data os_path_join os_path_normpath git_Repo parse
    repo_path commit_hash = Returned ix ->
  all_patterns ix
  = map (fun item =>
           (fst item, detect_design_patterns (fst item) (snd item)))
        (code_graph_data ix).
Proof.
  intros H. destruct (build_returns_index _ _ _ H) as (files & out & ->).
  now apply index_files_patterns.
Qed.

(** X8.  In what is returned, every identifier of the symbol table is
    the path of a file kept in [code_graph_data], "::" and the name it is
    stored under; and every function and class of a file kept in
    [code_graph_data] has an entry in the symbol table. *)
Theorem symbol_table_matches_code_graph_data (repo_path : string)
    (commit_hash : option string) (ix : Index) :
  build_code_symbol_graph_data os_path_join os_path_normpath git_Repo parse
    repo_path commit_hash = Returned ix ->
  (forall name id,
      dict_get key_dec name (symbol_table ix) = Some id ->
      exists path,
        In path (dict_keys (code_graph_data ix))
        /\ id = (path ++ "::" ++ render name)%string)
  /\ (forall path symbols name,
         dict_get string_dec path (code_graph_data ix) = Some symbols ->
         In name (produced_names symbols) ->
         exists id, dict_get key_dec name (symbol_table ix) = Some id).
Proof.
  intros H. destruct (build_returns_index _ _ _ H) as (files & out & ->).
  destruct (index_files_effect parse files (fresh_index out))
    as (Ht & Hd & _).
  rewrite Ht, Hd. unfold fresh_index.
  cbn [symbol_table code_graph_data]. split.
  - intros name id Hget. apply (store_all_origin key_dec) in Hget.
    apply in_flat_map in Hget. destruct Hget as (file & Hfile & Hentry).
    apply file_entries_value in Hentry.
    destruct Hentry as [(symbols & E & _) ->].
    exists (file_path file). split; [|reflexivity].
    apply (store_all_keys string_dec). left.
    apply in_map_iff. exists (file_path file, symbols).
    split; [reflexivity|]. apply in_flat_map. exists file.
    split; [exact Hfile|]. unfold file_data. rewrite E. now left.
  - intros path symbols name Hget Hname.
    apply (store_all_origin string_dec) in Hget.
    apply in_flat_map in Hget. destruct Hget as (file & Hfile & Hdata).
    unfold file_data in Hdata.
    destruct (extract_symbols_from_code parse (file_content file))
      as [symbols'|e] eqn:E; [|destruct Hdata].
    destruct Hdata as [Hdata|[]]. injection Hdata as _ ->.
    apply (dict_get_in_keys key_dec), (store_all_keys key_dec). left.
    apply in_map_iff.
    exists (name, (file_path file ++ "::" ++ render name)%string).
    split; [reflexivity|]. apply in_flat_map. exists file.
    split; [exact Hfile|]. unfold file_entries. rewrite E.
    apply in_map_iff. now exists name.
Qed.
End Build.

Lemma build_raises_only_when_repository_fails_witness :
  build_code_symbol_graph_data Samples.posix_join Samples.normpath
    Samples.git_Repo Samples.parse "nowhere" None
  = Returned
      (mkIndex [] [] [] ["Parsing 0 Python files using Tree-sitter..."]).
Proof.
  apply (proj2 (build_raises_only_when_repository_fails Samples.posix_join
                  Samples.normpath Samples.git_Repo Samples.parse
                  "nowhere" None)).
  reflexivity.
Defined.

Lemma patterns_follow_code_graph_data_witness :
  exists ix,
    build_code_symbol_graph_data Samples.posix_join Samples.normpath
      Samples.git_Repo Samples.parse "repo" (Some "badf00d") = Returned ix
    /\ all_patterns ix
       = map (fun item =>
                (fst item, detect_design_patterns (fst item) (snd item)))
             (code_graph_data ix).
Proof.
  eexists. split; [reflexivity|].
  apply (patterns_follow_code_graph_data Samples.posix_join
           Samples.normpath Samples.git_Repo Samples.parse "repo"
           (Some "badf00d") _ eq_refl).
Defined.

Lemma symbol_table_matches_code_graph_data_witness :
  exists ix,
    build_code_symbol_graph_data Samples.posix_join Samples.normpath
      Samples.git_Repo Samples.parse "repo" (Some "badf00d") = Returned ix
    /\ exists id, dict_get key_dec (Some "Dog.speak") (symbol_table ix) = Some id.
Proof.
  eexists. split; [reflexivity|].
  apply (proj2 (symbol_table_matches_code_graph_data Samples.posix_join
                  Samples.normpath Samples.git_Repo Samples.parse "repo"
                  (Some "badf00d") _ eq_refl)
           "a_dog.py" (symbols_of Samples.dog_tree) (Some "Dog.speak")).
  - reflexivity.
  - now left.
Defined.

(** ** What the linker issues, whatever it is given *)

Lemma dict_get_In {K V : Type} (K_dec : forall a b : K, {a = b} + {a <> b})
    (d : dict K V) (k : K) (v : V) :
  dict_get K_dec k d = Some v -> In (k, v) d.
Proof.
  induction d as [|[k1 v1] d IH]; simpl; [discriminate|].
  destruct (K_dec k k1) as [->|N].
  - intros E. injection E as ->. now left.
  - intros E. right. now apply IH.
Qed.

Lemma lookup_in_table symbol_table name :
  truthy (lookup symbol_table name) = true ->
  exists id,
    lookup symbol_table name = Some id /\ In id (table_ids symbol_table).
Proof.
  intros H. destruct (truthy_inv _ H) as (id & E & _).
  exists id. split; [exact E|].
  unfold lookup in E. unfold table_ids.
  apply (dict_get_In key_dec) in E.
  apply in_map_iff. now exists (Some name, id).
Qed.

Lemma well_formed_cypher (u : Upsert) :
  well_formed_upsert u -> exists query, cypher u = Returned query.
Proof.
  destruct u as [label props key|l1 k1 v1 rel l2 k2 v2 props]; simpl.
  - intros [_ [v ->]]. eexists; reflexivity.
  - intros _. eexists; reflexivity.
Qed.

(** X9.  Whatever symbols and symbol table it is given, and whatever the
    store does, every call the linker makes is for a node of one of the
    five labels that carries its unique key among its properties, or for
    a relationship of one of the seven types; so building the query of a
    node never fails for a missing key. *)
Theorem linker_upserts_are_well_formed (driver : Driver)
    (symbol_table : dict (option string) string)
    (code_graph_data : dict string FileSymbols) (before : list Upsert)
    (u : Upsert) :
  In u (Run.issued
          (populate_graph_from_code_data driver symbol_table code_graph_data)
          before) ->
  well_formed_upsert u /\ exists query, cypher u = Returned query.
Proof.
  assert (Hall : Forall well_formed_upsert
                   (Run.issued
                      (populate_graph_from_code_data driver symbol_table
                         code_graph_data) before)).
  { unfold populate_graph_from_code_data.
    apply for_each_issued_Forall. intros [filepath symbols] start _.
    unfold link_file, function_node, class_node, attribute_node,
      inherits_edges, package_node, call_edges.
    issued_all;
      try (simpl; intuition (try (eexists; reflexivity)); fail).
    - apply override_edge_issued. intros. simpl. tauto.
    - destruct x as [caller callees]. apply for_each_issued_Forall.
      intros callee at_callee _. apply call_edge_issued. intros.
      simpl. tauto. }
  intros Hin. rewrite Forall_forall in Hall.
  split; [|apply well_formed_cypher]; auto.
Qed.

(** X10.  The linker never invents a target: every [INHERITS],
    [OVERRIDES] and [CALLS] edge it issues ends at an identifier that the
    symbol table holds. *)
Theorem resolved_edges_end_in_the_symbol_table (driver : Driver)
    (symbol_table : dict (option string) string)
    (code_graph_data : dict string FileSymbols) (before : list Upsert)
    (u : Upsert) :
  In u (Run.issued
          (populate_graph_from_code_data driver symbol_table code_graph_data)
          before) ->
  target_from_table symbol_table u.
Proof.
  assert (Hedge : forall l1 k1 v1 rel l2 k2 props name,
             truthy (lookup symbol_table name) = true ->
             target_from_table symbol_table
               (merge_relationship l1 k1 v1 rel l2 k2
                  (VOpt (lookup symbol_table name)) props)).
  { intros l1 k1 v1 rel l2 k2 props name Ht _.
    destruct (lookup_in_table symbol_table name Ht) as (id & -> & Hid).
    now exists id. }
  assert (Hother : forall l1 k1 v1 rel l2 k2 v2 props,
             ~ In rel ["INHERITS"; "OVERRIDES"; "CALLS"] ->
             target_from_table symbol_table
               (merge_relationship l1 k1 v1 rel l2 k2 v2 props)).
  { intros l1 k1 v1 rel l2 k2 v2 props Hno Hin. contradiction. }
  assert (Hall : Forall (target_from_table symbol_table)
                   (Run.issued
                      (populate_graph_from_code_data driver symbol_table
                         code_graph_data) before)).
  { unfold populate_graph_from_code_data.
    apply for_each_issued_Forall. intros [filepath symbols] start _.
    unfold link_file, function_node, class_node, attribute_node,
      package_node, call_edges.
    issued_all;
      try exact I;
      try (apply Hother; simpl; intuition discriminate).
    - now apply Hedge.
    - apply override_edge_issued. intros name target _ Htarget.
      now apply Hedge.
    - destruct x as [caller callees]. apply for_each_issued_Forall.
      intros callee at_callee _. apply call_edge_issued. intros name Hname.
      now apply Hedge. }
  intros Hin. rewrite Forall_forall in Hall. auto.
Qed.

(** ** The nodes of a file *)

(** X12.  When linking runs to its end, every file of the dictionary has
    its [File] node, every function of it its [Function] node under
    [filepath::name] and the [CONTAINS_FUNCTION] edge from the file, every
    class its [Class] node and [CONTAINS_CLASS] edge, and every import its
    [Package] node and [IMPORTS] edge. *)
Theorem file_symbols_become_nodes (driver : Driver)
    (symbol_table : dict (option string) string)
    (code_graph_data : dict string FileSymbols) (before : list Upsert)
    (filepath : string) (symbols : FileSymbols) :
  In (filepath, symbols) code_graph_data ->
  Run.outcome
    (populate_graph_from_code_data driver symbol_table code_graph_data) before
    = Returned tt ->
  let issued :=
    Run.issued
      (populate_graph_from_code_data driver symbol_table code_graph_data)
      before in
  In (merge_node "File"
        [("path", VStr filepath); ("name", VStr (basename filepath))] "path")
     issued
  /\ (forall func,
         In func (functions symbols) ->
         In (merge_node "Function"
               [("id", VStr (filepath ++ "::" ++ render (func_name func)));
                ("name", VOpt (func_name func));
                ("lineno", VInt (func_lineno func));
                ("end_lineno", VInt (func_end_lineno func));
                ("file_path", VStr filepath);
                ("code_snippet", VStr (func_code_snippet func));
                ("is_static", VBool (func_is_static func))] "id")
            issued
         /\ In (merge_relationship "File" "path" (VStr filepath)
                  "CONTAINS_FUNCTION" "Function" "id"
                  (VStr (filepath ++ "::" ++ render (func_name func))) [])
               issued)
  /\ (forall cls,
         In cls (classes symbols) ->
         In (merge_relationship "File" "path" (VStr filepath)
               "CONTAINS_CLASS" "Class" "id"
               (VStr (filepath ++ "::" ++ render (cls_name cls))) [])
            issued
         /\ exists properties,
              In (merge_node "Class" properties "id") issued
              /\ dict_get string_dec "id" properties
                 = Some (VStr (filepath ++ "::" ++ render (cls_name cls))))
  /\ (forall pkg,
         In pkg (imports symbols) ->
         In (merge_node "Package" [("name", VOpt pkg)] "name") issued
         /\ In (merge_relationship "File" "path" (VStr filepath) "IMPORTS"
                  "Package" "name" (VOpt pkg) [])
               issued).
Proof.
  intros Hfile Hrun issued. subst issued.
  assert (Hfile' := Hfile).
  unfold populate_graph_from_code_data in Hrun |- *.
  destruct (within_for_each _ _ _ _ Hrun Hfile) as [at_file Wfile].
  destruct (link_file_loops _ _ _ _ _ (proj1 Wfile))
    as ([at_funcs Wfuncs] & [at_classes Wclasses] & [at_pkgs Wpkgs]).
  split; [|split; [|split]].
  - apply (proj2 Wfile). unfold link_file. apply emit_then_issued.
  - intros func Hfunc.
    destruct (within_for_each _ _ _ _ (proj1 Wfuncs) Hfunc)
      as [at_func Wfunc].
    pose proof (within_trans _ _ _ _ _ _ Wfunc
                  (within_trans _ _ _ _ _ _ Wfuncs Wfile)) as W.
    unfold function_node in W.
    pose proof (within_rest _ _ _ (proj1 W)) as Wedge.
    split.
    + apply (proj2 W). apply emit_then_issued.
    + apply (proj2 W), (proj2 Wedge). now left.
  - intros cls Hcls.
    destruct (within_for_each _ _ _ _ (proj1 Wclasses) Hcls)
      as [at_class Wclass].
    pose proof (within_trans _ _ _ _ _ _ Wclass
                  (within_trans _ _ _ _ _ _ Wclasses Wfile)) as W.
    unfold class_node in W.
    pose proof (within_rest _ _ _ (proj1 W)) as Wedge.
    split.
    + apply (proj2 W), (proj2 Wedge). apply emit_then_issued.
    + eexists. split.
      * apply (proj2 W). apply emit_then_issued.
      * reflexivity.
  - intros pkg Hpkg.
    destruct (within_for_each _ _ _ _ (proj1 Wpkgs) Hpkg)
      as [at_pkg Wpkg].
    pose proof (within_trans _ _ _ _ _ _ Wpkg
                  (within_trans _ _ _ _ _ _ Wpkgs Wfile)) as W.
    unfold package_node in W.
    pose proof (within_rest _ _ _ (proj1 W)) as Wedge.
    split.
    + apply (proj2 W). apply emit_then_issued.
    + apply (proj2 W), (proj2 Wedge). now left.
Qed.

Lemma file_symbols_become_nodes_witness :
  In (merge_relationship "File" "path" (VStr "dog.py") "CONTAINS_FUNCTION"
        "Function" "id" (VStr "dog.py::Dog.speak") [])
     (Run.issued
        (populate_graph_from_code_data Samples.accepting Samples.animal_table
           [("dog.py", symbols_of Samples.dog_tree)]) []).
Proof.
  apply (proj2
           (proj1 (proj2
              (file_symbols_become_nodes Samples.accepting
                 Samples.animal_table
                 [("dog.py", symbols_of Samples.dog_tree)] []
                 "dog.py" (symbols_of Samples.dog_tree)
                 (or_introl eq_refl) eq_refl))
              (hd (mkFunctionSymbol None 0 0 0 0 "" false)
                  (functions (symbols_of Samples.dog_tree)))
              (or_introl eq_refl))).
Defined.

Lemma attribute_upserts_issued_witness :
  In (merge_relationship "Class" "id" (VStr "cat.py::Cat") "HAS_ATTRIBUTE"
        "Attribute" "id" (VStr "cat.py::Cat::legs") [])
     (Run.issued
        (populate_graph_from_code_data Samples.accepting []
           [("cat.py", LinkSamples.nameless_symbols)]) []).
Proof.
  apply (attribute_upserts_issued Samples.accepting []
           [("cat.py", LinkSamples.nameless_symbols)] "cat.py"
           LinkSamples.nameless_symbols
           (hd (mkClassSymbol None 0 0 0 0 "" [] [])
               (classes LinkSamples.nameless_symbols)) "legs" []).
  - now left.
  - now left.
  - now left.
  - reflexivity.
  - right. now left.
Defined.

(** ** The exceptions of linking *)

Lemma override_edge_fails_only_with_store driver symbol_table filepath cls
    base func :
  cls_name cls <> None -> func_name func <> None ->
  fails_only_with_store driver
    (override_edge driver symbol_table filepath cls base func).
Proof.
  intros Hc Hf. unfold override_edge.
  destruct (func_name func) as [name|]; [|contradiction].
  destruct (contains "." name); [|apply ret_fails_only_with_store].
  destruct (cls_name cls) as [class_name|]; [|contradiction].
  destruct (startswith (class_name ++ ".") name);
    [|apply ret_fails_only_with_store].
  apply when_fails_only_with_store. intros _.
  apply emit_fails_only_with_store. eexists; reflexivity.
Qed.

Lemma call_edge_fails_only_with_store driver symbol_table symbols caller_id
    callee :
  fails_only_with_store driver
    (call_edge driver symbol_table symbols caller_id callee).
Proof.
  unfold call_edge.
  destruct (resolve_callee_returns symbol_table (aliases symbols) callee)
    as [callee_id ->].
  apply when_fails_only_with_store. intros _.
  apply emit_fails_only_with_store. eexists; reflexivity.
Qed.

Ltac store_only :=
  repeat first
    [ apply seq_fails_only_with_store
    | apply emit_fails_only_with_store; eexists; reflexivity ].

(** Linking a file whose functions and classes all have a name raises
    nothing of its own. *)
Lemma link_file_fails_only_with_store driver symbol_table filepath symbols :
  (forall func, In func (functions symbols) -> func_name func <> None) ->
  (forall cls, In cls (classes symbols) -> cls_name cls <> None) ->
  fails_only_with_store driver
    (link_file driver symbol_table (filepath, symbols)).
Proof.
  intros Hfuncs Hclasses. unfold link_file. store_only.
  - apply for_each_fails_only_with_store. intros func _.
    unfold function_node. store_only.
  - apply for_each_fails_only_with_store. intros cls Hcls.
    unfold class_node. store_only.
    + apply for_each_fails_only_with_store. intros attr _.
      unfold attribute_node. store_only.
    + apply for_each_fails_only_with_store. intros base _.
      unfold inherits_edges. apply when_fails_only_with_store. intros _.
      store_only.
      apply for_each_fails_only_with_store. intros func Hfunc.
      apply override_edge_fails_only_with_store; auto.
  - apply for_each_fails_only_with_store. intros pkg _.
    unfold package_node. store_only.
  - apply for_each_fails_only_with_store. intros [caller callees] _.
    unfold call_edges. apply for_each_fails_only_with_store.
    intros callee _. apply call_edge_fails_only_with_store.
Qed.

(** X14.  When every function and every class of every file has a name
    (is not [None]), [populate_graph_from_code_data] raises nothing of
    its own: it runs to its end, or it ends with the exception the driver
    raised for the query of the last call made, after the calls made
    before that one. *)
Theorem linking_fails_only_with_the_store (driver : Driver)
    (symbol_table : dict (option string) string)
    (code_graph_data : dict string FileSymbols) (before : list Upsert) :
  (forall filepath symbols,
      In (filepath, symbols) code_graph_data ->
      (forall func, In func (functions symbols) -> func_name func <> None)
      /\ (forall cls, In cls (classes symbols) -> cls_name cls <> None)) ->
  Run.outcome
    (populate_graph_from_code_data driver symbol_table code_graph_data) before
    = Returned tt
  \/ exists e done u query,
       Run.outcome
         (populate_graph_from_code_data driver symbol_table code_graph_data)
         before = Raised e
       /\ Run.issued
            (populate_graph_from_code_data driver symbol_table
               code_graph_data) before = done ++ [u]
       /\ cypher u = Returned query
       /\ driver (before ++ done) query = Raised e.
Proof.
  intros Hnamed.
  destruct (ends_well_or_store_raised driver
              (populate_graph_from_code_data driver symbol_table
                 code_graph_data) before) as [H|(e & He & Hs)].
  - unfold populate_graph_from_code_data.
    apply for_each_fails_only_with_store. intros [filepath symbols] Hin.
    destruct (Hnamed filepath symbols Hin) as [Hfuncs Hclasses].
    now apply link_file_fails_only_with_store.
  - now left.
  - right. destruct Hs as (done & u & query & Hd & Hq & Hr).
    exists e, done, u, query. auto.
Qed.

Lemma linking_fails_only_with_the_store_witness :
  Run.outcome
    (populate_graph_from_code_data Samples.unreachable Samples.animal_table
       [("dog.py", symbols_of Samples.dog_tree)]) [] = Returned tt
  \/ exists e done u query,
       Run.outcome
         (populate_graph_from_code_data Samples.unreachable
            Samples.animal_table
            [("dog.py", symbols_of Samples.dog_tree)]) [] = Raised e
       /\ Run.issued
            (populate_graph_from_code_data Samples.unreachable
               Samples.animal_table
               [("dog.py", symbols_of Samples.dog_tree)]) [] = done ++ [u]
       /\ cypher u = Returned query
       /\ Samples.unreachable ([] ++ done) query = Raised e.
Proof.
  apply (linking_fails_only_with_the_store Samples.unreachable
           Samples.animal_table
           [("dog.py", symbols_of Samples.dog_tree)] []).
  intros filepath symbols [E|[]]. injection E as <- <-.
  split.
  - intros func [<-|[]]. discriminate.
  - intros cls [<-|[]]. discriminate.
Defined.

(** ** From detected patterns to the graph *)


(** What a sequence of two calls issued is one of the two. *)
Lemma two_emits_inv driver (u1 u2 u : Upsert) (before : list Upsert) :
  In u (Run.issued (Run.emit driver u1 ;; Run.emit driver u2) before) ->
  u1 = u \/ u2 = u.
Proof.
  intros H. apply bind_issued_inv in H.
  destruct H as [[H|[]]|[_ [H|[]]]]; auto.
Qed.



(** ** The commit graph *)

Lemma diff_upserts_fails_only_with_store driver commit diff :
  fails_only_with_store driver (diff_upserts driver commit diff).
Proof.
  unfold diff_upserts, file_change.
  destruct (truthy (b_path diff)); [store_only|].
  destruct (truthy (a_path diff) && (change_type diff =? "D"));
    [store_only | apply ret_fails_only_with_store].
Qed.

Lemma commit_upserts_fails_only_with_store driver commit :
  fails_only_with_store driver (commit_upserts driver commit).
Proof.
  unfold commit_upserts. store_only.
  - apply for_each_fails_only_with_store. intros parent _.
    unfold parent_upserts. store_only.
  - apply for_each_fails_only_with_store. intros diff _.
    apply diff_upserts_fails_only_with_store.
Qed.

(** An edge to a file among what the loading of a diff issued. *)
Lemma diff_upserts_edge driver commit diff (start : list Upsert)
    (sha rel_type path : string) (props : list (string * PyVal)) :
  In (merge_relationship "Commit" "hexsha" (VStr sha) rel_type
        "File" "path" (VStr path) props)
     (Run.issued (diff_upserts driver commit diff) start) ->
  hexsha commit = sha
  /\ props = [("change_type", VStr (change_type diff));
              ("diff_text", VStr (diff_text diff))]
  /\ path <> ""
  /\ ((rel_type = "MODIFIES" /\ b_path diff = Some path)
      \/ (rel_type = "DELETES"
          /\ truthy (b_path diff) = false
          /\ a_path diff = Some path
          /\ change_type diff = "D")).
Proof.
  unfold diff_upserts, file_change. intros Hu.
  destruct (truthy (b_path diff)) eqn:Hb.
  - destruct (truthy_inv _ Hb) as (p & Ep & Hp). rewrite Ep in Hu.
    apply two_emits_inv in Hu. destruct Hu as [Hu|Hu]; [discriminate Hu|].
    injection Hu as <- <- <- <-. rewrite Ep. intuition.
  - destruct (truthy (a_path diff)) eqn:Ha; [|destruct Hu].
    destruct (change_type diff =? "D") eqn:Hd; [|destruct Hu].
    destruct (truthy_inv _ Ha) as (p & Ep & Hp). rewrite Ep in Hu.
    apply two_emits_inv in Hu. destruct Hu as [Hu|Hu]; [discriminate Hu|].
    injection Hu as <- <- <- <-. apply String.eqb_eq in Hd.
    rewrite Ep. intuition.
Qed.

(** X17.  Loading commits raises nothing of its own; and when it runs to
    its end, the edges from a commit to a file are these and no others:
    [MODIFIES] to the new path of every diff that has one, and [DELETES]
    to the old path of every diff that has no new path, has an old path
    and is of change type "D"; each carries the change type and the diff
    text.  A diff with a new path is never recorded as a deletion, and a
    diff without new path that is not a deletion leaves no edge. *)
Theorem commit_file_edges (driver : Driver) (commits_data : list Commit)
    (before : list Upsert) :
  fails_only_with_store driver
    (populate_graph_from_commits driver commits_data)
  /\ (Run.outcome (populate_graph_from_commits driver commits_data) before
        = Returned tt ->
      forall (sha rel_type path : string) (props : list (string * PyVal)),
        In (merge_relationship "Commit" "hexsha" (VStr sha) rel_type
              "File" "path" (VStr path) props)
           (Run.issued (populate_graph_from_commits driver commits_data)
              before)
        <-> exists commit diff,
              In commit commits_data /\ In diff (diffs commit)
              /\ hexsha commit = sha
              /\ props = [("change_type", VStr (change_type diff));
                          ("diff_text", VStr (diff_text diff))]
              /\ path <> ""
              /\ ((rel_type = "MODIFIES" /\ b_path diff = Some path)
                  \/ (rel_type = "DELETES"
                      /\ truthy (b_path diff) = false
                      /\ a_path diff = Some path
                      /\ change_type diff = "D"))).
Proof.
  unfold populate_graph_from_commits. split.
  - apply for_each_fails_only_with_store. intros commit _.
    apply commit_upserts_fails_only_with_store.
  - intros Hrun sha rel_type path props. split.
    + intros Hu. apply for_each_issued_inv in Hu.
      destruct Hu as (commit & at_commit & Hcommit & Hu).
      exists commit. unfold commit_upserts in Hu.
      apply bind_issued_inv in Hu.
      destruct Hu as [[Hu|[]]|[_ Hu]]; [discriminate Hu|].
      apply bind_issued_inv in Hu. destruct Hu as [Hu|[_ Hu]].
      * apply for_each_issued_inv in Hu.
        destruct Hu as (parent & at_parent & _ & Hu).
        unfold parent_upserts in Hu. apply two_emits_inv in Hu.
        destruct Hu as [Hu|Hu]; discriminate Hu.
      * apply for_each_issued_inv in Hu.
        destruct Hu as (diff & at_diff & Hdiff & Hu).
        exists diff. apply diff_upserts_edge in Hu. tauto.
    + intros (commit & diff & Hcommit & Hdiff & <- & -> & Hpath & Hcase).
      destruct (within_for_each _ _ _ _ Hrun Hcommit)
        as [at_commit Wcommit].
      unfold commit_upserts in Wcommit.
      pose proof (within_rest _ _ _ (proj1 Wcommit)) as W1.
      pose proof (within_rest _ _ _ (proj1 W1)) as W2.
      destruct (within_for_each _ _ _ _ (proj1 W2) Hdiff)
        as [at_diff Wdiff].
      pose proof (within_trans _ _ _ _ _ _ Wdiff
                    (within_trans _ _ _ _ _ _ W2
                       (within_trans _ _ _ _ _ _ W1 Wcommit))) as W.
      apply (proj2 W). clear - Hpath Hcase W.
      destruct W as [Hdone _]. revert Hdone. unfold diff_upserts, file_change.
      destruct Hcase as [[-> Hb]|(-> & Hb & Ha & Hd)].
      * rewrite Hb, (truthy_Some path Hpath). cbn [render]. intros Hdone.
        apply seq_in_right; [apply (proj1 (seq_returns _ _ _ Hdone))|].
        now left.
      * assert (Hd' : (change_type diff =? "D") = true)
          by now apply String.eqb_eq.
        rewrite Hb, Ha, (truthy_Some path Hpath), Hd'. cbn [andb render].
        intros Hdone.
        apply seq_in_right; [apply (proj1 (seq_returns _ _ _ Hdone))|].
        now left.
Qed.

Lemma commit_file_edges_witness :
  In (merge_relationship "Commit" "hexsha" (VStr "c1") "DELETES"
        "File" "path" (VStr "old.py")
        [("change_type", VStr "D"); ("diff_text", VStr "-y")])
     (Run.issued
        (populate_graph_from_commits Samples.accepting
           [MoreSamples.sample_commit]) []).
Proof.
  apply (proj2
           (proj2 (commit_file_edges Samples.accepting
                     [MoreSamples.sample_commit] []) eq_refl
              "c1" "DELETES" "old.py"
              [("change_type", VStr "D"); ("diff_text", VStr "-y")])).
  exists MoreSamples.sample_commit,
    (mkDiff (Some "old.py") None "D" "-y").
  split; [now left|]. split; [right; now left|].
  split; [reflexivity|]. split; [reflexivity|]. split; [discriminate|].
  right. repeat split.
Defined.

(** ** Inline comments *)

Module CommentFacts.
Import Comments.

Lemma splitlines_from_lines (s : text) :
  forall current after_cr line,
    In line (splitlines_from s current after_cr) ->
    (exists before after, current ++ s = before ++ line ++ after)
    /\ ((forall c, In c current -> is_linebreak c = false) ->
        forall c, In c line -> is_linebreak c = false).
Proof.
  induction s as [|c r IH]; intros current after_cr line; simpl.
  - destruct current as [|x l]; [intros []|].
    intros [<-|[]]. split; [|auto].
    exists [], []. now rewrite !app_nil_r.
  - destruct (after_cr && N.eqb c 10).
    + intros H. destruct (IH [] false line H) as [(a & b & E) Hno].
      split.
      * exists (current ++ c :: a), b. simpl in E. rewrite E.
        now rewrite <- app_assoc.
      * intros _. apply Hno. intros x [].
    + destruct (is_linebreak c) eqn:Hc.
      * intros [<-|H].
        -- split; [|auto]. now exists [], (c :: r).
        -- destruct (IH [] _ line H) as [(a & b & E) Hno]. split.
           ++ exists (current ++ c :: a), b. simpl in E. rewrite E.
              now rewrite <- app_assoc.
           ++ intros _. apply Hno. intros x [].
      * intros H. destruct (IH (current ++ [c]) false line H)
          as [(a & b & E) Hno]. split.
        -- exists a, b. rewrite <- E, <- app_assoc. reflexivity.
        -- intros Hcur. apply Hno. intros x Hx. apply in_app_or in Hx.
           destruct Hx as [Hx|[<-|[]]]; auto.
Qed.

Lemma lstrip_suffix (s : text) : exists p, s = p ++ lstrip s.
Proof.
  induction s as [|c r [p IH]]; simpl; [now exists []|].
  destruct (is_space c).
  - exists (c :: p). simpl. now rewrite <- IH.
  - now exists [].
Qed.

Lemma lstrip_head (s : text) (c : N) (r : text) :
  lstrip s = c :: r -> is_space c = false.
Proof.
  induction s as [|x s IH]; simpl; [discriminate|].
  destruct (is_space x) eqn:E; [exact IH|].
  intros H. injection H as <- _. exact E.
Qed.

Lemma rstrip_prefix (s : text) : exists q, s = rstrip s ++ q.
Proof.
  unfold rstrip. destruct (lstrip_suffix (rev s)) as [p E].
  exists (rev p). rewrite <- rev_app_distr, <- E. now rewrite rev_involutive.
Qed.

Lemma rstrip_last (s body : text) (c : N) :
  rstrip s = body ++ [c] -> is_space c = false.
Proof.
  unfold rstrip. intros H.
  apply (f_equal (@rev N)) in H.
  rewrite rev_involutive, rev_app_distr in H. simpl in H.
  exact (lstrip_head _ _ _ H).
Qed.

Lemma from_hash_suffix (s : text) : exists p, s = p ++ from_hash s.
Proof.
  induction s as [|c r [p IH]]; simpl; [now exists []|].
  destruct (N.eqb c hash).
  - now exists [].
  - exists (c :: p). simpl. now rewrite <- IH.
Qed.

Lemma from_hash_head (s : text) (c : N) (r : text) :
  from_hash s = c :: r -> c = hash.
Proof.
  induction s as [|x s IH]; simpl; [discriminate|].
  destruct (N.eqb x hash) eqn:E; [|exact IH].
  intros H. injection H as <- _. now apply N.eqb_eq.
Qed.

Lemma from_hash_none (s : text) : ~ In hash s -> from_hash s = [].
Proof.
  induction s as [|x s IH]; simpl; [reflexivity|]. intros H.
  destruct (N.eqb x hash) eqn:E.
  - apply N.eqb_eq in E. exfalso. apply H. now left.
  - apply IH. intros Hin. apply H. now right.
Qed.

(** The stripped line lies inside the line. *)
Lemma strip_inside (s : text) : exists p q, s = p ++ strip s ++ q.
Proof.
  unfold strip. destruct (lstrip_suffix s) as [p Ep].
  destruct (rstrip_prefix (lstrip s)) as [q Eq].
  exists p, q. now rewrite <- Eq.
Qed.

Lemma comment_of_line_inv (line comment : text) :
  In comment (comment_of_line line) ->
  comment = from_hash (strip line) /\ 2 < List.length comment.
Proof.
  unfold comment_of_line.
  destruct (from_hash (strip line)) as [|c r] eqn:E; [intros []|].
  destruct (Nat.ltb 2 (List.length (c :: r))) eqn:Hlen; [|intros []].
  intros [<-|[]]. split; [reflexivity|]. now apply Nat.ltb_lt.
Qed.

End CommentFacts.

(** X18.  Every comment [extract_inline_comments] returns begins with
    "#", is longer than two code points, holds no line break, does not
    end in white space, and stands as it is somewhere in the snippet. *)
Theorem inline_comments_shape (code_snippet comment : Comments.text) :
  In comment (Comments.extract_inline_comments code_snippet) ->
  (exists rest, comment = Comments.hash :: rest)
  /\ 2 < List.length comment
  /\ (forall c, In c comment -> Comments.is_linebreak c = false)
  /\ (exists body c,
         comment = body ++ [c] /\ Comments.is_space c = false)
  /\ (exists before after, code_snippet = before ++ comment ++ after).
Proof.
  unfold Comments.extract_inline_comments, Comments.splitlines.
  intros H. apply in_flat_map in H. destruct H as (line & Hline & Hc).
  apply CommentFacts.comment_of_line_inv in Hc. destruct Hc as [Ec Hlen].
  destruct (CommentFacts.splitlines_from_lines _ _ _ _ Hline)
    as [(a & b & Ea) Hno].
  destruct (CommentFacts.strip_inside line) as (p & q & Es).
  destruct (CommentFacts.from_hash_suffix (Comments.strip line)) as [h Eh].
  rewrite <- Ec in Eh.
  assert (Hne : comment <> []).
  { intros ->. simpl in Hlen. lia. }
  destruct (exists_last Hne) as (body & c & Elast).
  split; [|split; [exact Hlen|split; [|split]]].
  - destruct comment as [|x rest]; [contradiction|].
    exists rest. f_equal.
    apply (CommentFacts.from_hash_head (Comments.strip line) x rest).
    now rewrite <- Ec.
  - intros x Hx. apply Hno; [intros y []|].
    rewrite Es, Eh. apply in_or_app. right. apply in_or_app. left.
    apply in_or_app. now right.
  - exists body, c. split; [exact Elast|].
    apply (CommentFacts.rstrip_last (Comments.lstrip line) (h ++ body)).
    change (Comments.rstrip (Comments.lstrip line))
      with (Comments.strip line).
    now rewrite Eh, Elast, app_assoc.
  - simpl in Ea. exists (a ++ p ++ h), (q ++ b).
    rewrite Ea, Es, Eh, <- !app_assoc. reflexivity.
Qed.

Lemma inline_comments_shape_witness :
  exists rest, [35; 32; 111; 107]%N = Comments.hash :: rest.
Proof.
  apply (proj1 (inline_comments_shape Comments.sample
                  [35; 32; 111; 107]%N (or_intror (or_introl eq_refl)))).
Defined.

(** X19.  A snippet without "#" gives no comment, and a snippet never
    gives more comments than it has lines. *)
Theorem inline_comments_count (code_snippet : Comments.text) :
  (~ In Comments.hash code_snippet ->
   Comments.extract_inline_comments code_snippet = [])
  /\ List.length (Comments.extract_inline_comments code_snippet)
     <= List.length (Comments.splitlines code_snippet).
Proof.
  unfold Comments.extract_inline_comments, Comments.splitlines. split.
  - intros Hno.
    assert (Hall : forall line,
               In line (Comments.splitlines_from code_snippet [] false) ->
               Comments.comment_of_line line = []).
    { intros line Hline.
      destruct (CommentFacts.splitlines_from_lines _ _ _ _ Hline)
        as [(a & b & Ea) _].
      destruct (CommentFacts.strip_inside line) as (p & q & Es).
      unfold Comments.comment_of_line.
      rewrite CommentFacts.from_hash_none; [reflexivity|].
      intros Hin. apply Hno. simpl in Ea. rewrite Ea, Es.
      apply in_or_app. right. apply in_or_app. left.
      apply in_or_app. right. apply in_or_app. now left. }
    induction (Comments.splitlines_from code_snippet [] false)
      as [|line l IH]; simpl; [reflexivity|].
    rewrite Hall by now left. simpl. apply IH.
    intros x Hx. apply Hall. now right.
  - induction (Comments.splitlines_from code_snippet [] false)
      as [|line l IH]; simpl; [lia|].
    rewrite length_app.
    assert (Hone : List.length (Comments.comment_of_line line) <= 1).
    { unfold Comments.comment_of_line.
      destruct (Comments.from_hash (Comments.strip line)); [simpl; lia|].
      destruct (Nat.ltb 2 _); simpl; lia. }
    lia.
Qed.

Lemma inline_comments_count_witness :
  Comments.extract_inline_comments [120; 32; 61; 32; 49; 10]%N = [].
Proof.
  apply (proj1 (inline_comments_count [120; 32; 61; 32; 49; 10]%N)).
  simpl. intros H. repeat destruct H as [H|H]; try discriminate H. exact H.
Defined.

Lemma linker_upserts_are_well_formed_witness :
  exists query,
    cypher (merge_node "File"
              [("path", VStr "dog.py"); ("name", VStr "dog.py")] "path")
    = Returned query.
Proof.
  apply (linker_upserts_are_well_formed Samples.unreachable
           Samples.animal_table
           [("dog.py", symbols_of Samples.dog_tree)] []
           (merge_node "File"
              [("path", VStr "dog.py"); ("name", VStr "dog.py")] "path")).
  now left.
Defined.

Lemma resolved_edges_end_in_the_symbol_table_witness :
  target_from_table Samples.animal_table
    (merge_relationship "Class" "id" (VStr "dog.py::Dog") "INHERITS"
       "Class" "id" (VStr "animal.py::Animal") []).
Proof.
  apply (resolved_edges_end_in_the_symbol_table Samples.accepting
           Samples.animal_table
           [("dog.py", symbols_of Samples.dog_tree)] []).
  vm_compute. repeat first [left; reflexivity | right].
Defined.

(** ** From the parser to the graph *)

Lemma named_definitions_eq (node : Node) :
  named_definitions node =
  (if (type node =? "function_definition")
      || (type node =? "class_definition")
   then match child_by_field_name node "name" with
        | Some _ => true
        | None => false
        end
   else true)
  && forallb named_definitions (children node).
Proof. destruct node; reflexivity. Qed.

Lemma qualify_named (slot name : option string) :
  name <> None -> qualify slot name <> None.
Proof.
  unfold qualify. destruct (truthy slot); [discriminate | auto].
Qed.

Lemma named_definitions_step (l : list Node) :
  Forall (fun child => named_definitions child = true ->
            forall slot,
              Forall (fun e => fst e <> None)
                     (fst (definitions child slot))) l ->
  forallb named_definitions l = true ->
  forall acc slot,
    Forall (fun e : option string * list string => fst e <> None) acc ->
    Forall (fun e => fst e <> None)
           (fst (fold_left definitions_step l (acc, slot))).
Proof.
  induction 1 as [|child l Hchild _ IH]; intros Hall acc slot Hacc; simpl.
  - exact Hacc.
  - simpl in Hall. apply andb_true_iff in Hall. destruct Hall as [Hc Hl].
    unfold definitions_step at 2. simpl. apply IH; [exact Hl|].
    apply Forall_app. split; [exact Hacc | now apply Hchild].
Qed.

Lemma named_definitions_names (node : Node) :
  named_definitions node = true ->
  forall slot,
    Forall (fun e => fst e <> None) (fst (definitions node slot)).
Proof.
  induction node as [node IH] using Node_induction.
  rewrite named_definitions_eq. intros H slot.
  apply andb_true_iff in H. destruct H as [Hhere Hkids].
  rewrite definitions_eq. cbv zeta. simpl fst.
  apply Forall_app. split.
  - destruct (type node =? "function_definition"); [|constructor].
    simpl in Hhere. constructor; [|constructor]. simpl.
    apply qualify_named.
    now destruct (child_by_field_name node "name").
  - apply (named_definitions_step _ IH Hkids). constructor.
Qed.

Lemma named_definitions_classes (node : Node) :
  named_definitions node = true ->
  Forall (fun n => child_by_field_name n "name" <> None)
         (nodes_of_type "class_definition" node).
Proof.
  unfold nodes_of_type.
  induction node as [node IH] using Node_induction.
  rewrite named_definitions_eq, preorder_eq. intros H.
  apply andb_true_iff in H. destruct H as [Hhere Hkids].
  apply Forall_app. split.
  - destruct (type node =? "class_definition"); [|constructor].
    rewrite orb_true_r in Hhere. constructor; [|constructor].
    now destruct (child_by_field_name node "name").
  - rewrite forallb_forall in Hkids. rewrite Forall_forall in IH.
    apply Forall_forall. intros n Hn. apply in_flat_map in Hn.
    destruct Hn as (child & Hchild & Hn).
    pose proof (IH child Hchild (Hkids child Hchild)) as Hall.
    rewrite Forall_forall in Hall. now apply Hall.
Qed.

(** The symbols of a tree whose definitions all have a name child are
    all named. *)
Lemma named_definitions_symbols (root_node : Node) :
  named_definitions root_node = true ->
  (forall func, In func (functions (symbols_of root_node)) ->
                func_name func <> None)
  /\ (forall cls, In cls (classes (symbols_of root_node)) ->
                  cls_name cls <> None).
Proof.
  intros H. split.
  - intros func Hfunc.
    destruct (symbols_of_records root_node) as [Hn _].
    pose proof (named_definitions_names root_node H None) as Hall.
    rewrite Forall_forall in Hall.
    assert (Hin : In (func_name func)
                     (map fst (fst (definitions root_node None)))).
    { rewrite <- Hn. now apply in_map. }
    apply in_map_iff in Hin. destruct Hin as (e & <- & He). now apply Hall.
  - intros cls Hcls.
    assert (Hnames : map cls_name (classes (symbols_of root_node))
                     = map (fun n => get_node_text_safe
                                       (child_by_field_name n "name"))
                           (nodes_of_type "class_definition" root_node)).
    { unfold symbols_of.
      rewrite (traverse_appends
                 (fun fs => map cls_name (classes fs))
                 (fun node =>
                    if type node =? "class_definition"
                    then [get_node_text_safe
                            (child_by_field_name node "name")]
                    else [])).
      - simpl.
        apply (preorder_map "class_definition"
                 (fun n => get_node_text_safe
                             (child_by_field_name n "name"))).
      - intros node st.
        pose proof (f_equal (map fst) (visit_classes node st)) as Hv.
        rewrite map_app, !map_map in Hv. simpl in Hv.
        change (map cls_name (classes (file_symbols (visit node st)))
                = map cls_name (classes (file_symbols st))
                  ++ (if type node =? "class_definition"
                      then [get_node_text_safe
                              (child_by_field_name node "name")]
                      else [])).
        etransitivity; [exact Hv|]. f_equal.
        now destruct (type node =? "class_definition"). }
    assert (Hin : In (cls_name cls)
                     (map cls_name (classes (symbols_of root_node))))
      by now apply in_map.
    rewrite Hnames in Hin. apply in_map_iff in Hin.
    destruct Hin as (n & <- & Hn).
    pose proof (named_definitions_classes root_node H) as Hall.
    rewrite Forall_forall in Hall. specialize (Hall n Hn).
    now destruct (child_by_field_name n "name").
Qed.

Lemma store_all_In {K V : Type} (K_dec : forall a b : K, {a = b} + {a <> b})
    (l : list (K * V)) :
  forall d e, In e (store_all K_dec l d) -> In e l \/ In e d.
Proof.
  induction l as [|[k v] l IH]; intros d e; simpl; [auto|].
  intros H. destruct (IH _ _ H) as [Hl|Hd]; [left; now right|].
  apply dict_set_In in Hd. destruct Hd as [->|Hd]; [left; now left | now right].
Qed.

(** X15.  When the parser gives every function and class definition a
    name child, the linking of what [build_code_symbol_graph_data]
    returns raises nothing of its own: it runs to its end, or it ends
    with the exception the driver raised for the query of the last call
    made. *)
Theorem named_corpus_fails_only_with_the_store os_path_join os_path_normpath
    git_Repo parse (repo_path : string) (commit_hash : option string)
    (ix : Index) (driver : Driver) (before : list Upsert) :
  (forall code root_node,
      parse code = Returned root_node ->
      named_definitions root_node = true) ->
  build_code_symbol_graph_data os_path_join os_path_normpath git_Repo parse
    repo_path commit_hash = Returned ix ->
  Run.outcome
    (populate_graph_from_code_data driver (symbol_table ix)
       (code_graph_data ix)) before = Returned tt
  \/ exists e done u query,
       Run.outcome
         (populate_graph_from_code_data driver (symbol_table ix)
            (code_graph_data ix)) before = Raised e
       /\ Run.issued
            (populate_graph_from_code_data driver (symbol_table ix)
               (code_graph_data ix)) before = done ++ [u]
       /\ cypher u = Returned query
       /\ driver (before ++ done) query = Raised e.
Proof.
  intros Hparse Hbuild.
  destruct (ends_well_or_store_raised driver
              (populate_graph_from_code_data driver (symbol_table ix)
                 (code_graph_data ix)) before) as [H|(e & He & Hs)].
  - destruct (build_returns_index os_path_join os_path_normpath git_Repo
                parse repo_path commit_hash ix Hbuild)
      as (files & out & ->).
    unfold populate_graph_from_code_data.
    apply for_each_fails_only_with_store. intros [filepath symbols] Hin.
    destruct (index_files_effect parse files (fresh_index out))
      as (_ & Hd & _).
    rewrite Hd in Hin. apply store_all_In in Hin.
    destruct Hin as [Hin|[]].
    apply in_flat_map in Hin. destruct Hin as (file & _ & Hdata).
    unfold file_data, extract_symbols_from_code in Hdata.
    destruct (parse (file_content file)) as [root_node|e] eqn:E;
      [|destruct Hdata].
    destruct Hdata as [Hdata|[]]. injection Hdata as _ <-.
    destruct (named_definitions_symbols root_node (Hparse _ _ E))
      as [Hfuncs Hclasses].
    now apply link_file_fails_only_with_store.
  - now left.
  - right. destruct Hs as (done & u & query & Hd & Hq & Hr).
    exists e, done, u, query. auto.
Qed.

Lemma named_corpus_fails_only_with_the_store_witness :
  exists ix,
    build_code_symbol_graph_data Samples.posix_join Samples.normpath
      Samples.git_Repo Samples.parse "repo" (Some "badf00d") = Returned ix
    /\ (Run.outcome
          (populate_graph_from_code_data Samples.accepting (symbol_table ix)
             (code_graph_data ix)) [] = Returned tt
        \/ exists e done u query,
             Run.outcome
               (populate_graph_from_code_data Samples.accepting
                  (symbol_table ix) (code_graph_data ix)) [] = Raised e
             /\ Run.issued
                  (populate_graph_from_code_data Samples.accepting
                     (symbol_table ix) (code_graph_data ix)) []
                = done ++ [u]
             /\ cypher u = Returned query
             /\ Samples.accepting ([] ++ done) query = Raised e).
Proof.
  eexists. split; [reflexivity|].
  apply (named_corpus_fails_only_with_the_store Samples.posix_join
           Samples.normpath Samples.git_Repo Samples.parse "repo"
           (Some "badf00d") _ Samples.accepting []).
  - intros code root_node. unfold Samples.parse.
    repeat match goal with
           | |- (if ?c then _ else _) = _ -> _ => destruct c
           end;
      intros H; first [discriminate H | injection H as <-; reflexivity].
  - reflexivity.
Defined.
